(** * grok_cli/cli_prompt_grok.py: a shallow embedding and its properties

    The program is a command-line chat client.  Its logic is string cleanup
    ([clean_response]), price arithmetic ([calculate_cost]), the check of
    the environment file ([check_env_security]), the two API calls
    ([make_non_streaming_call], [make_streaming_call]) and the interactive
    loop with its render pipeline ([prompt_grok]).

    Python values are modelled as follows.
    - A [str] is the list of its Unicode code points ([list N]).
    - [str.strip], [str.split], [str.join], [str.startswith] and slices are
      list functions.
    - A regular expression is a backtracking matcher written in
      continuation-passing style, so that greedy and lazy repetition
      try their alternatives in the order the [re] module does.
    - A float is a binary64 value ([PrimFloat.float]).
    - A [dict] decoded from JSON is a finite map ([gmap]) from keys to values.
    - Exceptions, console output and the HTTP exchange are explicit: a
      computation returns either an exception or a value, together with the
      lines it printed.
    - Rich parses the texts it is given as markup and raises on a text it
      cannot parse: the console of a run tells on which. *)

From Stdlib Require Import ZArith NArith List Bool Lia Floats.
From Stdlib Require Import Strings.String Strings.Ascii.
From stdpp Require Import base list gmap.

Set Warnings "-inexact-float,-register-all".

Local Open Scope N_scope.

(** ** Strings *)

Abbreviation str := (list N).

(** An ASCII literal as a Python [str]. *)
Definition py (s : string) : str :=
  List.map N_of_ascii (list_ascii_of_string s).

Definition NL : N := 10.
Definition SP : N := 32.
Definition BULLET : N := 8226.   (* U+2022 *)

(** [str.isspace] of one character, which is also the class [\s] of [re] on
    [str] patterns: the code points Python's Unicode database marks as
    whitespace. *)
Definition is_space (c : N) : bool :=
  ((9 <=? c) && (c <=? 13)) || ((28 <=? c) && (c <=? 32))
  || (c =? 133) || (c =? 160) || (c =? 5760)
  || ((8192 <=? c) && (c <=? 8202))
  || (c =? 8232) || (c =? 8233) || (c =? 8239) || (c =? 8287) || (c =? 12288).

Definition is_nl (c : N) : bool := c =? NL.

Arguments is_space : simpl never.
Arguments is_nl : simpl never.

Fixpoint drop_while {A} (p : A → bool) (s : list A) : list A :=
  match s with
  | c :: r => if p c then drop_while p r else s
  | [] => []
  end.

(** [s.lstrip()] and [s.rstrip()]: drop the leading, the trailing whitespace. *)
Definition lstrip (s : str) : str := drop_while is_space s.

Fixpoint rstrip (s : str) : str :=
  match s with
  | [] => []
  | c :: r =>
      match rstrip r with
      | [] => if is_space c then [] else [c]
      | r' => c :: r'
      end
  end.

(** [s.strip()] *)
Definition strip (s : str) : str := rstrip (lstrip s).

(** [s.split(sep)] for a one-character separator. *)
Fixpoint split (sep : N) (s : str) : list str :=
  match s with
  | [] => [[]]
  | c :: r =>
      if c =? sep then [] :: split sep r
      else match split sep r with
           | l :: ls => (c :: l) :: ls
           | [] => [[c]]
           end
  end.

(** [sep.join(ls)] *)
Fixpoint join (sep : str) (ls : list str) : str :=
  match ls with
  | [] => []
  | [l] => l
  | l :: rest => l ++ sep ++ join sep rest
  end.

(** [s.startswith(p)] *)
Fixpoint startswith (p s : str) : bool :=
  match p, s with
  | [], _ => true
  | a :: p', c :: s' => (a =? c) && startswith p' s'
  | _ :: _, [] => false
  end.

(** [s.startswith((p1, ..., pn))] *)
Definition startswith_any (ps : list str) (s : str) : bool :=
  existsb (fun p => startswith p s) ps.

(** [s.endswith(p)] *)
Definition endswith (p s : str) : bool := startswith (rev p) (rev s).

(** ** Regular expressions

    A matcher is applied at a position of the subject (the text from that
    position on) and returns the text left after the match. The
    continuation [k] is the rest of the pattern; a repetition calls it at
    each of its candidate lengths, in the order of preference. *)

Definition matcher := str → option str.

Definition m_end : matcher := Some.

(** One character of a class. *)
Definition m_char (p : N → bool) (k : matcher) : matcher :=
  fun s => match s with
           | c :: r => if p c then k r else None
           | [] => None
           end.

(** Greedy [p*]: the longest run first, then shorter ones. *)
Fixpoint m_star (p : N → bool) (k : matcher) (s : str) : option str :=
  match s with
  | c :: r =>
      if p c then
        match m_star p k r with
        | Some rest => Some rest
        | None => k s
        end
      else k s
  | [] => k []
  end.

(** Greedy [p+]. *)
Definition m_plus (p : N → bool) (k : matcher) : matcher :=
  m_char p (m_star p k).

(** Lazy [p*?]: the empty run first, then longer ones. *)
Fixpoint m_lazy (p : N → bool) (k : matcher) (s : str) : option str :=
  match k s with
  | Some rest => Some rest
  | None =>
      match s with
      | c :: r => if p c then m_lazy p k r else None
      | [] => None
      end
  end.

(** A literal. *)
Fixpoint m_lit (lit : str) (k : matcher) (s : str) : option str :=
  match lit with
  | [] => k s
  | a :: lit' =>
      match s with
      | c :: r => if a =? c then m_lit lit' k r else None
      | [] => None
      end
  end.

(** [re.sub(pattern, repl, s)] for a pattern whose matches are not empty:
    scan from the left, replace a match and go on after it, copy a
    character where no match starts. Every step consumes a character, so
    the length of the subject bounds the number of steps. *)
Fixpoint re_sub_from (m : matcher) (repl : str) (steps : nat) (s : str) : str :=
  match steps with
  | O => s
  | S n =>
      match s with
      | [] => []
      | c :: r =>
          match m s with
          | Some rest => repl ++ re_sub_from m repl n rest
          | None => c :: re_sub_from m repl n r
          end
      end
  end.

Definition re_sub (m : matcher) (repl : str) (s : str) : str :=
  re_sub_from m repl (S (length s)) s.

(** ** clean_response *)

(** [r'\n\s*\n+'] *)
Definition blank_lines_re : matcher :=
  m_char is_nl (m_star is_space (m_plus is_nl m_end)).

(** [r'\s+'] *)
Definition spaces_re : matcher := m_plus is_space m_end.

(** [('1.', '2.', '3.', '4.', '•')] *)
Definition list_markers : list str :=
  [py "1."; py "2."; py "3."; py "4."; [BULLET]].

(** The body of the list comprehension, for one line. *)
Definition clean_line (line : str) : str :=
  if negb (startswith_any list_markers (strip line))
  then strip (re_sub spaces_re [SP] line)
  else strip line.

Definition clean_response (response : str) : str :=
  match response with
  | [] => response                                (* if not response *)
  | _ =>
      let response := re_sub blank_lines_re [NL; NL] (strip response) in
      let lines := split NL response in
      let cleaned_lines := List.map clean_line lines in
      strip (join [NL] cleaned_lines)
  end.

(** ** Line-level view of [clean_response]

    What the specification says of the cleaner, on the lines of the text:
    a blank line is one made of whitespace only. *)

Definition blank (l : str) : bool := forallb is_space l.

(** A run of blank lines becomes a single empty line. *)
Fixpoint collapse_blank (ls : list str) : list str :=
  match ls with
  | [] => []
  | l :: rest =>
      if blank l then
        match rest with
        | b :: _ => if blank b then collapse_blank rest else [] :: collapse_blank rest
        | [] => [[]]
        end
      else l :: collapse_blank rest
  end.

(** Blank lines at the end of the text are dropped. *)
Fixpoint drop_blank_end (ls : list str) : list str :=
  match ls with
  | [] => []
  | l :: rest =>
      match drop_blank_end rest with
      | [] => if blank l then [] else [l]
      | rest' => l :: rest'
      end
  end.

(** Blank lines at both ends of the text are dropped. *)
Definition trim_blank (ls : list str) : list str :=
  drop_blank_end (drop_while blank ls).

(** The words of a line, [line.split()]: its maximal runs of characters
    that are not whitespace. *)
Fixpoint words (s : str) : list str :=
  match s with
  | [] => []
  | c :: r =>
      if is_space c then words r
      else match r with
           | [] => [[c]]
           | d :: _ =>
               if is_space d then [c] :: words r
               else match words r with
                    | w :: ws => (c :: w) :: ws
                    | [] => [[c]]
                    end
           end
  end.

(** A line as the specification wants it cleaned: a list item is trimmed
    only, any other line has each whitespace run replaced by one space and
    its ends trimmed, which leaves its words, one space apart. *)
Definition clean_line_spec (line : str) : str :=
  if startswith_any list_markers (strip line)
  then strip line
  else join [SP] (words line).

Definition clean_response_spec (response : str) : str :=
  join [NL] (List.map clean_line_spec (collapse_blank (trim_blank (split NL response)))).

(** No two blank lines in a row. *)
Fixpoint no_blank_pair (ls : list str) : bool :=
  match ls with
  | l :: rest =>
      match rest with
      | b :: _ => negb (blank l && blank b) && no_blank_pair rest
      | [] => true
      end
  | [] => true
  end.

(** ** Notions the proofs about [clean_response] use *)

Definition free (sep : N) (l : str) : bool := forallb (fun c => negb (c =? sep)) l.

(** A matcher never returns more text than it was given, and a shrinking
    one consumes at least one character. *)
Definition bounded (m : matcher) : Prop :=
  ∀ s rest, m s = Some rest → (length rest ≤ length s)%nat.

Definition shrinking (m : matcher) : Prop :=
  ∀ s rest, m s = Some rest → (length rest < length s)%nat.

Definition collapse (line : str) : str := re_sub spaces_re [SP] line.

Definition nospace (w : str) : bool := forallb (fun c => negb (is_space c)) w.

Definition is_word (w : str) : Prop := w ≠ [] ∧ nospace w = true.

(** After the substitution and [rstrip]: a leading space, if the line
    began with whitespace and has a word, then the words. *)
Definition lead (l : str) : str :=
  match l, words l with
  | c :: _, _ :: _ => if is_space c then [SP] else []
  | _, _ => []
  end.

Definition squeeze (text : str) : str := re_sub blank_lines_re [NL; NL] text.

(** The pattern after its first newline: [\s*\n+]. *)
Definition gap : matcher := m_star is_space (m_plus is_nl m_end).

Fixpoint ends_nonblank (ls : list str) : bool :=
  match ls with
  | [] => false
  | l :: rest =>
      match rest with
      | [] => negb (blank l)
      | _ :: _ => ends_nonblank rest
      end
  end.

Definition starts_nonblank (ls : list str) : bool :=
  match ls with
  | l :: _ => negb (blank l)
  | [] => false
  end.

Definition lines_free (ls : list str) : Prop :=
  Forall (fun l => free NL l = true) ls.

Definition stripped (t : str) : Prop := strip t = t.

(** The lines [clean_response] returns: the lines of the stripped text,
    blank runs collapsed, each line cleaned. *)
Definition cleaned_lines (s : str) : list str :=
  List.map clean_line (collapse_blank (split NL (strip s))).

(** What holds of them. *)
Record tidy (ls : list str) : Prop := {
  tidy_free : lines_free ls;
  tidy_clean : Forall (fun l => clean_line l = l) ls;
  tidy_starts : starts_nonblank ls = true;
  tidy_ends : ends_nonblank ls = true;
  tidy_collapsed : collapse_blank ls = ls
}.

(** The lines of [rstrip t], from the lines of [t]. *)
Fixpoint rstrip_lines (ls : list str) : list str :=
  match ls with
  | [] => []
  | l :: rest =>
      match rstrip_lines rest with
      | [] => if blank l then [] else [rstrip l]
      | rest' => l :: rest'
      end
  end.

(** A matcher that returns what is left of its subject. *)
Definition suffixing (m : matcher) : Prop :=
  ∀ s rest, m s = Some rest → ∃ pre, s = pre ++ rest.

(** ** Python values, exceptions, effects *)

(** A value decoded from JSON, which is also what the API client passes
    around: [None], [bool], [int], [float], [str], [list], [dict]. *)
Inductive json :=
| JNull
| JBool (b : bool)
| JInt (z : Z)
| JFloat (f : float)
| JStr (s : str)
| JList (l : list json)
| JDict (m : gmap str json).

(** The exceptions the program tells apart. [OtherException] is any other
    subclass of [Exception] ([KeyError], [TypeError], [EOFError], ...):
    its class name and what it is about. [BaseExceptionOther] is a
    [BaseException] that is not an [Exception] and not [KeyboardInterrupt]
    ([SystemExit], [GeneratorExit]). *)
Inductive exn :=
| KeyboardInterrupt
| BaseExceptionOther (cls : string)
| HTTPStatusError (status_code : Z) (text : str)
| RequestError (what : str)
| OtherException (cls : string) (what : str).

(** [rich.errors.MarkupError] with its message, and
    [httpx.ResponseNotRead]: two [Exception]s of the libraries. *)
Definition MarkupError (message : str) : exn := OtherException "MarkupError" message.

Definition ResponseNotRead : exn :=
  OtherException "ResponseNotRead"
    (py "Attempted to access streaming response content, without having called `read()`.").

(** [isinstance(e, Exception)] *)
Definition is_Exception (e : exn) : bool :=
  match e with
  | KeyboardInterrupt | BaseExceptionOther _ => false
  | _ => true
  end.

(** An f-string: literal text and formatted values, in order. The text a
    value is formatted to is not modelled. *)
Inductive piece :=
| Lit (s : string)
| PStr (s : str)          (* {s} for a str *)
| PInt (z : Z)            (* {n} for an int *)
| PVal (v : json)         (* {v} for a decoded value *)
| PDumps (v : json)       (* {json.dumps(v, indent=2)} *)
| PType (v : json)        (* {type(v)} *)
| PExn (e : exn)          (* {e} *)
| PCost (c : float)       (* {c:.3f} *)
| PBanner (s : string).   (* {figlet.renderText(s)} *)

Definition line := list piece.

(** What [console.print] is given. *)
Inductive output :=
| Text (l : line)                          (* console.print(markup) *)
| TextNoEnd (l : line)                     (* console.print(markup, end=EMPTY) *)
| Chunk (v : json) (style : string)        (* console.print(chunk, end=EMPTY, style=...) *)
| Blank                                    (* console.print() *)
| Markdown (v : json) (style : string)     (* console.print(Markdown(v, style=...)) *)
| Syntax (code lang : str) (theme : string)
| HelpPanel.                               (* console.print(Panel(help_text, ...)) *)

(** What a run does, in order: it prints, it sends a request, and, inside
    the generator, it yields. *)
Inductive effect :=
| Print (o : output)
| HttpPost (payload : json)
| HttpStream (payload : json)
| Yield (v : json).

Definition trace := list effect.

(** A computation appends its effects to the trace and ends with a value
    or with an exception. *)
Definition M (A : Type) : Type := trace → (exn + A) * trace.

Definition ret {A} (a : A) : M A := fun t => (inr a, t).

Definition raise {A} (e : exn) : M A := fun t => (inl e, t).

Definition bind {A B} (m : M A) (k : A → M B) : M B :=
  fun t => match m t with
           | (inr a, t') => k a t'
           | (inl e, t') => (inl e, t')
           end.

Definition emit (e : effect) : M unit := fun t => (inr tt, t ++ [e]).

Definition lift {A} (r : exn + A) : M A :=
  match r with
  | inr a => ret a
  | inl e => raise e
  end.

Notation "x <- m ;; k" := (bind m (fun x => k))
  (at level 100, m at next level, right associativity).
Notation "m ;;; k" := (bind m (fun _ => k))
  (at level 100, right associativity).

(** [try: body  except ...: handler]: [handler e] is [None] where no
    clause matches [e], which then propagates. *)
Definition try_except {A} (body : M A) (handler : exn → option (M A)) : M A :=
  fun t => match body t with
           | (inr a, t') => (inr a, t')
           | (inl e, t') =>
               match handler e with
               | Some h => h t'
               | None => (inl e, t')
               end
           end.

(** [console.print(x)] where Rich has no markup of foreign origin to parse:
    [x] is a [Markdown], [Syntax] or [Panel] object, or nothing, or a text
    of the program itself, in which every tag that is opened is closed.
    The texts that interpolate a value go through [console_print_markup]
    below. *)
Definition console_print (o : output) : M unit := emit (Print o).

(** ** Operations on values *)

Definition truthy (v : json) : bool :=
  match v with
  | JNull => false
  | JBool b => b
  | JInt z => negb (z =? 0)%Z
  | JFloat f => negb (PrimFloat.eqb f 0%float)
  | JStr s => match s with [] => false | _ => true end
  | JList l => match l with [] => false | _ => true end
  | JDict m => negb (bool_decide (m = ∅))
  end.

Definition type_error (what : string) : exn := OtherException "TypeError" (py what).
Definition attribute_error (what : string) : exn := OtherException "AttributeError" (py what).

(** [v.get(key, default)] *)
Definition py_get (v : json) (key : string) (default : json) : exn + json :=
  match v with
  | JDict m => inr (match m !! py key with Some x => x | None => default end)
  | _ => inl (attribute_error "get")
  end.

(** [v[key]] for a str key *)
Definition py_item (v : json) (key : string) : exn + json :=
  match v with
  | JDict m =>
      match m !! py key with
      | Some x => inr x
      | None => inl (OtherException "KeyError" (py key))
      end
  | _ => inl (type_error "subscript")
  end.

(** [v[0]] *)
Definition py_first (v : json) : exn + json :=
  match v with
  | JList (x :: _) => inr x
  | JList [] => inl (OtherException "IndexError" (py "list index out of range"))
  | JStr (c :: _) => inr (JStr [c])
  | JStr [] => inl (OtherException "IndexError" (py "string index out of range"))
  | JDict _ => inl (OtherException "KeyError" (py "0"))
  | _ => inl (type_error "subscript")
  end.

(** [len(v)] *)
Definition py_len (v : json) : exn + Z :=
  match v with
  | JStr s => inr (Z.of_nat (length s))
  | JList l => inr (Z.of_nat (length l))
  | JDict m => inr (Z.of_nat (size m))
  | _ => inl (type_error "len")
  end.

(** [clean_response] on whatever the envelope holds: a falsy value is
    returned as it is, a str is cleaned, anything else has no [strip]. *)
Definition clean_response_value (v : json) : exn + json :=
  if negb (truthy v) then inr v
  else match v with
       | JStr s => inr (JStr (clean_response s))
       | _ => inl (attribute_error "strip")
       end.

(** ** Rich markup

    [console.print] parses a [str] it is given as markup: [[name]] opens a
    style, [[/name]] closes it, and a closing tag that matches no open tag
    raises [MarkupError] before anything is printed.  Whether Rich raises
    on the text an f-string formats to is the library's business: the
    console of a run is a function that tells, for what is printed, the
    message of the [MarkupError] if there is one. *)

(** [needle in hay] on two [str]. *)
Fixpoint contains (needle hay : str) : bool :=
  startswith needle hay
  || match hay with
     | [] => false
     | _ :: r => contains needle r
     end.

(** The [str]s inside a decoded value, keys of dicts among them. *)
Fixpoint json_texts (v : json) : list str :=
  match v with
  | JStr s => [s]
  | JList l => flat_map json_texts l
  | JDict m => map_fold (fun k x acc => k :: json_texts x ++ acc) [] m
  | _ => []
  end.

(** The interpolated texts of a line. *)
Definition piece_texts (p : piece) : list str :=
  match p with
  | PStr s => [s]
  | PVal v | PDumps v => json_texts v
  | PExn (RequestError what) | PExn (OtherException _ what) => [what]
  | _ => []
  end.

(** What follows ["[/"] up to the ["]"] that ends the tag; none when a
    ["["] comes first. *)
Fixpoint tag_end (s acc : str) : option str :=
  match s with
  | [] => None
  | c :: r =>
      if c =? 93 then Some (rev (c :: acc))
      else if c =? 91 then None
      else tag_end r (c :: acc)
  end.

(** The first closing tag of a text. *)
Fixpoint closing_tag (s : str) : option str :=
  match s with
  | [] => None
  | _ :: r =>
      match (if startswith (py "[/") s then tag_end (drop 2 s) (rev (py "[/")) else None) with
      | Some tag => Some tag
      | None => closing_tag r
      end
  end.

Fixpoint first_closing_tag (texts : list str) : option str :=
  match texts with
  | [] => None
  | s :: rest =>
      match closing_tag s with
      | Some tag => Some tag
      | None => first_closing_tag rest
      end
  end.

(** The console of the sample runs.  It looks at the interpolated texts
    only, and takes a closing tag in one of them to match no open tag (the
    lines of the program close the tags they open themselves); the message
    names the tag, as Rich's does.  Escapes with a backslash are not looked
    at. *)
Definition sample_console (o : output) : option str :=
  let texts :=
    match o with
    | Text l | TextNoEnd l => flat_map piece_texts l
    | Chunk (JStr s) _ => [s]
    | _ => []
    end in
  match first_closing_tag texts with
  | Some tag => Some (py "closing tag '" ++ tag ++ py "' doesn't match any open tag")
  | None => None
  end.

(** ** Configuration *)

(** The module-level names: the settings read from the environment, and
    the console. *)
Record Config := {
  console : output → option str;
  API_KEY : option str;
  DEBUG_LOGGING : bool;
  MAX_TOKENS : Z;
  GROK_3_BETA_INPUT_PRICE_PER_1K : float;
  GROK_3_BETA_OUTPUT_PRICE_PER_1K : float;
  GROK_3_MINI_BETA_INPUT_PRICE_PER_1K : float;
  GROK_3_MINI_BETA_OUTPUT_PRICE_PER_1K : float
}.

(** The values when the environment sets none of the variables. *)
Definition default_config (key : option str) : Config := {|
  console := sample_console;
  API_KEY := key;
  DEBUG_LOGGING := true;
  MAX_TOKENS := 1500;
  GROK_3_BETA_INPUT_PRICE_PER_1K := 0.005;
  GROK_3_BETA_OUTPUT_PRICE_PER_1K := 0.015;
  GROK_3_MINI_BETA_INPUT_PRICE_PER_1K := 0.002;
  GROK_3_MINI_BETA_OUTPUT_PRICE_PER_1K := 0.006
|}.

(** [DEBUG_LOGGING=false] in the environment. *)
Definition without_debug (cfg : Config) : Config := {|
  console := console cfg;
  API_KEY := API_KEY cfg;
  DEBUG_LOGGING := false;
  MAX_TOKENS := MAX_TOKENS cfg;
  GROK_3_BETA_INPUT_PRICE_PER_1K := GROK_3_BETA_INPUT_PRICE_PER_1K cfg;
  GROK_3_BETA_OUTPUT_PRICE_PER_1K := GROK_3_BETA_OUTPUT_PRICE_PER_1K cfg;
  GROK_3_MINI_BETA_INPUT_PRICE_PER_1K := GROK_3_MINI_BETA_INPUT_PRICE_PER_1K cfg;
  GROK_3_MINI_BETA_OUTPUT_PRICE_PER_1K := GROK_3_MINI_BETA_OUTPUT_PRICE_PER_1K cfg
|}.

(** [console.print(f"...")] of a text that interpolates a value, and
    [console.print(chunk, ...)] of a [str]: Rich raises [MarkupError] and
    prints nothing when the text does not parse, and prints it otherwise. *)
Definition console_print_markup (cfg : Config) (o : output) : M unit :=
  match console cfg o with
  | Some message => raise (MarkupError message)
  | None => emit (Print o)
  end.

(** The text [debug_log] prints. *)
Definition debug_line (message : line) : output :=
  Text ([Lit "[yellow]DEBUG: "] ++ message ++ [Lit "[/yellow]"]).

Definition debug_log (cfg : Config) (message : line) : M unit :=
  if DEBUG_LOGGING cfg
  then console_print_markup cfg (debug_line message)
  else ret tt.

(** The lines [debug_log] adds. *)
Definition debug_lines (cfg : Config) (message : line) : trace :=
  if DEBUG_LOGGING cfg then [Print (debug_line message)] else [].

(** ** calculate_cost *)

Definition Z2SF (z : Z) : spec_float :=
  match z with
  | Z0 => S754_zero false
  | Zpos p => S754_finite false p 0
  | Zneg p => S754_finite true p 0
  end.

(** [a / b] on two ints: the quotient rounded once to binary64;
    [OverflowError] when it is too large for a float. *)
Definition int_truediv (a b : Z) : exn + float :=
  if (b =? 0)%Z then inl (OtherException "ZeroDivisionError" (py "division by zero"))
  else match SFdiv prec emax (Z2SF a) (Z2SF b) with
       | S754_infinity _ =>
           inl (OtherException "OverflowError"
                  (py "integer division result too large for a float"))
       | q => inr (SF2Prim q)
       end.

(** [v / 1000] *)
Definition per_thousand (v : json) : exn + float :=
  match v with
  | JInt z => int_truediv z 1000
  | JBool b => int_truediv (if b then 1 else 0) 1000
  | JFloat f => inr (f / 1000)%float
  | _ => inl (type_error "/")
  end.

Fixpoint str_eqb (a b : str) : bool :=
  match a, b with
  | [], [] => true
  | x :: a', y :: b' => (x =? y) && str_eqb a' b'
  | _, _ => false
  end.

Definition calculate_cost (cfg : Config) (model : str)
    (prompt_tokens completion_tokens : json) : M float :=
  let known :=
    if str_eqb model (py "grok-3-beta") then
      Some (GROK_3_BETA_INPUT_PRICE_PER_1K cfg, GROK_3_BETA_OUTPUT_PRICE_PER_1K cfg)
    else if str_eqb model (py "grok-3-mini-beta") then
      Some (GROK_3_MINI_BETA_INPUT_PRICE_PER_1K cfg, GROK_3_MINI_BETA_OUTPUT_PRICE_PER_1K cfg)
    else None in
  match known with
  | None =>
      debug_log cfg [Lit "Unknown model '"; PStr model;
                     Lit "' for cost calculation, using $0.0"] ;;;
      ret 0%float
  | Some (input_price, output_price) =>
      p <- lift (per_thousand prompt_tokens) ;;
      let input_cost := (p * input_price)%float in
      c <- lift (per_thousand completion_tokens) ;;
      let output_cost := (c * output_price)%float in
      let total_cost := (input_cost + output_cost)%float in
      ret total_cost
  end.

(** The formula of the specification, for int token counts:
    [(prompt_tokens/1000)*input_price + (completion_tokens/1000)*output_price],
    each operation as Python evaluates it. *)
Definition cost_formula (input_price output_price : float)
    (prompt_tokens completion_tokens : Z) : exn + float :=
  match int_truediv prompt_tokens 1000, int_truediv completion_tokens 1000 with
  | inr p, inr c => inr (p * input_price + c * output_price)%float
  | inl e, _ => inl e
  | _, inl e => inl e
  end.

(** ** The HTTP exchange *)

(** A response: [response.status_code], [response.text]. *)
Record Response := {
  status_code : Z;
  text : str
}.

(** What [client.post] does. *)
Inductive post_outcome :=
| PostRaises (e : exn)
| PostReturns (r : Response).

(** What a streamed response delivers: a line, or an exception raised
    while waiting for one. *)
Inductive wire_event :=
| WireLine (chunk : str)
| WireFault (e : exn).

(** What [client.stream] does: it raises, or it opens a response with a
    status, a body and the lines that arrive. *)
Inductive stream_outcome :=
| StreamRaises (e : exn)
| StreamOpens (r : Response) (wire : list wire_event).

(** The API, as the program sees it in one turn. *)
Record Network := {
  post : json → post_outcome;
  stream : json → stream_outcome
}.

(** [response.raise_for_status()] of httpx: an exception unless 2xx. *)
Definition is_success (status : Z) : bool := (200 <=? status)%Z && (status <=? 299)%Z.

(** [payload], the request body. *)
Definition payload (cfg : Config) (prompt model : str) (streaming : bool) : json :=
  JDict (<[py "model" := JStr model]>
        (<[py "messages" :=
             JList [JDict (<[py "role" := JStr (py "user")]>
                          (<[py "content" := JStr prompt]> ∅))]]>
        (<[py "max_tokens" := JInt (MAX_TOKENS cfg)]>
        (<[py "stream" := JBool streaming]> ∅)))).

Definition NONE3 : json * json * json := (JNull, JNull, JNull).

Section Client.

(** [json.loads], of the standard library. *)
Variable json_loads : str → exn + json.

(** ** make_non_streaming_call *)

(** The body of the [try]. *)
Definition non_streaming_body (cfg : Config) (net : Network) (payload : json)
  : M (json * json * json) :=
  debug_log cfg [Lit "Sending POST request"] ;;;
  emit (HttpPost payload) ;;;
  response <- match post net payload with
              | PostRaises e => raise e
              | PostReturns r => ret r
              end ;;
  debug_log cfg [Lit "Response status="; PInt (status_code response)] ;;;
  (if is_success (status_code response) then ret tt
   else raise (HTTPStatusError (status_code response) (text response))) ;;;
  data <- lift (json_loads (text response)) ;;
  debug_log cfg [Lit "Response data="; PDumps data] ;;;
  response_model <- lift (py_get data "model" (JStr (py "Not specified in response"))) ;;
  debug_log cfg [Lit "Model used by API: "; PVal response_model] ;;;
  tokens <- lift (py_get data "usage" (JDict ∅)) ;;
  prompt_tokens <- lift (py_get tokens "prompt_tokens" (JInt 0)) ;;
  completion_tokens <- lift (py_get tokens "completion_tokens" (JInt 0)) ;;
  api_total_tokens <- lift (py_get tokens "total_tokens" (JInt 0)) ;;
  choices <- lift (py_item data "choices") ;;
  choice <- lift (py_first choices) ;;
  message <- lift (py_item choice "message") ;;
  content <- lift (py_get message "content" (JStr [])) ;;
  reasoning_content <- lift (py_get message "reasoning_content" (JStr [])) ;;
  debug_log cfg [Lit "Raw content="; PVal content] ;;;
  debug_log cfg [Lit "Raw reasoning_content="; PVal reasoning_content] ;;;
  content <- lift (clean_response_value content) ;;
  reasoning_content <- lift (clean_response_value reasoning_content) ;;
  n <- lift (py_len content) ;;
  debug_log cfg [Lit "Cleaned content type="; PType content; Lit ", length="; PInt n] ;;;
  n <- lift (py_len reasoning_content) ;;
  debug_log cfg [Lit "Cleaned reasoning_content type="; PType reasoning_content;
                 Lit ", length="; PInt n] ;;;
  ret (content, reasoning_content, tokens).

(** The line each [except] clause prints. *)
Definition failure_message (e : exn) : line :=
  match e with
  | KeyboardInterrupt => [Lit "[yellow]Request interrupted by user.[/yellow]"]
  | HTTPStatusError status body =>
      [Lit "[red]Error: HTTP "; PInt status; Lit " - "; PStr body; Lit "[/red]"]
  | RequestError _ => [Lit "[red]Network error: "; PExn e; Lit "[/red]"]
  | _ => [Lit "[red]Error: "; PExn e; Lit "[/red]"]
  end.

(** The [except] clauses, in their order.  A clause that raises while it
    prints lets that exception through. *)
Definition non_streaming_handler (cfg : Config) (e : exn)
  : option (M (json * json * json)) :=
  match e with
  | KeyboardInterrupt =>
      Some (console_print (Text (failure_message e)) ;;; ret NONE3)
  | HTTPStatusError status body =>
      Some (debug_log cfg [Lit "HTTP error: status="; PInt status; Lit ", text="; PStr body] ;;;
            console_print_markup cfg (Text (failure_message e)) ;;; ret NONE3)
  | RequestError _ =>
      Some (debug_log cfg [Lit "Network error: "; PExn e] ;;;
            console_print_markup cfg (Text (failure_message e)) ;;; ret NONE3)
  | OtherException _ _ =>
      Some (debug_log cfg [Lit "Unexpected error: "; PExn e] ;;;
            console_print_markup cfg (Text (failure_message e)) ;;; ret NONE3)
  | BaseExceptionOther _ => None
  end.

(** What comes before the [try]. *)
Definition non_streaming_prologue (cfg : Config) (prompt model : str) : M unit :=
  debug_log cfg [Lit "Entered make_non_streaming_call(prompt='"; PStr (take 30 prompt);
                 Lit "...', model="; PStr model; Lit ")"] ;;;
  debug_log cfg [Lit "Payload="; PDumps (payload cfg prompt model false)].

Definition make_non_streaming_call (cfg : Config) (net : Network)
    (prompt model : str) : M (json * json * json) :=
  non_streaming_prologue cfg prompt model ;;;
  try_except (non_streaming_body cfg net (payload cfg prompt model false))
             (non_streaming_handler cfg).

(** The classes of failure the specification tells apart. *)
Inductive failure_class :=
| UserInterrupt
| HttpStatus
| NetworkFailure
| Unexpected.

Definition failure_class_of (e : exn) : option failure_class :=
  match e with
  | KeyboardInterrupt => Some UserInterrupt
  | HTTPStatusError _ _ => Some HttpStatus
  | RequestError _ => Some NetworkFailure
  | OtherException _ _ => Some Unexpected
  | BaseExceptionOther _ => None
  end.

(** What the comment in the source switches off: the total recomputed
    from the two counts and written over the one the API reported. *)
Definition override_total_tokens (tokens : json) : json :=
  match tokens with
  | JDict m =>
      match m !! py "prompt_tokens", m !! py "completion_tokens" with
      | Some (JInt p), Some (JInt c) =>
          JDict (<[py "total_tokens" := JInt (p + c)]> m)
      | _, _ => tokens
      end
  | _ => tokens
  end.

(** ** make_streaming_call *)

Definition DATA_PREFIX : str := py "data: ".
Definition DONE : str := py "data: [DONE]".

(** One turn of [for chunk in response.iter_lines()]. *)
Definition stream_line (cfg : Config) (chunk : str) : M unit :=
  if startswith DATA_PREFIX chunk && negb (str_eqb chunk DONE) then
    data <- lift (json_loads (drop 6 chunk)) ;;
    debug_log cfg [Lit "Stream chunk="; PDumps data] ;;;
    choices <- lift (py_get data "choices" JNull) ;;
    if truthy choices then
      choices <- lift (py_item data "choices") ;;
      choice <- lift (py_first choices) ;;
      delta <- lift (py_item choice "delta") ;;
      content <- lift (py_get delta "content" (JStr [])) ;;
      emit (Yield content)
    else ret tt
  else ret tt.

Fixpoint stream_lines (cfg : Config) (wire : list wire_event) : M unit :=
  match wire with
  | [] => ret tt
  | WireLine chunk :: rest => stream_line cfg chunk ;;; stream_lines cfg rest
  | WireFault e :: _ => raise e
  end.

(** The body of the [try]. *)
Definition streaming_body (cfg : Config) (net : Network) (payload : json)
  : M unit :=
  debug_log cfg [Lit "Sending streaming POST request"] ;;;
  emit (HttpStream payload) ;;;
  match stream net payload with
  | StreamRaises e => raise e
  | StreamOpens response wire =>
      debug_log cfg [Lit "Streaming response status="; PInt (status_code response)] ;;;
      (if is_success (status_code response) then ret tt
       else raise (HTTPStatusError (status_code response) (text response))) ;;;
      stream_lines cfg wire
  end.

Definition streaming_failure_message (e : exn) : line :=
  match e with
  | KeyboardInterrupt => [Lit "[yellow]Streaming request interrupted by user.[/yellow]"]
  | _ => failure_message e
  end.

(** The [except] clauses: each prints and ends the generator.  The clause
    of [HTTPStatusError] formats [e.response.text] first, and the body of a
    streamed response that was not read is not there to format: httpx
    raises [ResponseNotRead], which leaves the generator. *)
Definition streaming_handler (cfg : Config) (e : exn) : option (M unit) :=
  match e with
  | KeyboardInterrupt =>
      Some (console_print (Text (streaming_failure_message e)))
  | HTTPStatusError status body =>
      Some (raise ResponseNotRead)
  | RequestError _ =>
      Some (debug_log cfg [Lit "Network error: "; PExn e] ;;;
            console_print_markup cfg (Text (streaming_failure_message e)))
  | OtherException _ _ =>
      Some (debug_log cfg [Lit "Unexpected error: "; PExn e] ;;;
            console_print_markup cfg (Text (streaming_failure_message e)))
  | BaseExceptionOther _ => None
  end.

(** What comes before the [try]. *)
Definition streaming_prologue (cfg : Config) (prompt model : str) : M unit :=
  debug_log cfg [Lit "Entered make_streaming_call(prompt='"; PStr (take 30 prompt);
                 Lit "...', model="; PStr model; Lit ")"] ;;;
  debug_log cfg [Lit "Payload="; PDumps (payload cfg prompt model true)].

(** The generator, as the effects it performs when run to its end; its
    caller takes them one at a time. *)
Definition make_streaming_call (cfg : Config) (net : Network)
    (prompt model : str) : M unit :=
  streaming_prologue cfg prompt model ;;;
  try_except (streaming_body cfg net (payload cfg prompt model true))
             (streaming_handler cfg).

(** One wire line and the fragments it yields.  The specification has the
    first three cases: none for a line without the prefix and for the
    sentinel, the content of the delta of the first choice for a data line
    that has one.  The last two are the data lines it is silent on: none
    when the object has no choices or a falsy [choices], the empty text
    when the delta of the first choice has no content. *)
Inductive line_yields : str → list json → Prop :=
| yields_no_prefix chunk :
    startswith DATA_PREFIX chunk = false → line_yields chunk []
| yields_sentinel : line_yields DONE []
| yields_content chunk data choices choice delta content :
    startswith DATA_PREFIX chunk = true → chunk ≠ DONE →
    json_loads (drop 6 chunk) = inr data →
    py_item data "choices" = inr choices →
    truthy choices = true →
    py_first choices = inr choice →
    py_item choice "delta" = inr (JDict delta) →
    delta !! py "content" = Some content →
    line_yields chunk [content]
| yields_no_choices chunk data choices :
    startswith DATA_PREFIX chunk = true → chunk ≠ DONE →
    json_loads (drop 6 chunk) = inr data →
    py_get data "choices" JNull = inr choices →
    truthy choices = false →
    line_yields chunk []
| yields_no_content chunk data choices choice delta :
    startswith DATA_PREFIX chunk = true → chunk ≠ DONE →
    json_loads (drop 6 chunk) = inr data →
    py_item data "choices" = inr choices →
    truthy choices = true →
    py_first choices = inr choice →
    py_item choice "delta" = inr (JDict delta) →
    delta !! py "content" = None →
    line_yields chunk [JStr []].

(** The fragments a run yields, in order. *)
Definition yields (t : trace) : list json :=
  flat_map (fun e => match e with Yield v => [v] | _ => [] end) t.

End Client.

(** ** Sample worlds

    API behaviours and a decoder on which the properties below are run. *)

(** A network that is down. *)
Definition net_down : Network := {|
  post := fun _ => PostRaises (RequestError (py "connection refused"));
  stream := fun _ => StreamRaises (RequestError (py "connection refused"))
|}.

(** The envelope of an answer, with a total the API reports (5) that is
    not the sum of the two counts. *)
Definition sample_usage : json :=
  JDict (<[py "prompt_tokens" := JInt 1]>
        (<[py "completion_tokens" := JInt 2]>
        (<[py "total_tokens" := JInt 5]> ∅))).

Definition sample_envelope : json :=
  JDict (<[py "usage" := sample_usage]>
        (<[py "choices" :=
             JList [JDict (<[py "message" :=
                               JDict (<[py "content" := JStr (py "  Hello   there ")]> ∅)]> ∅)]]> ∅)).

(** The frame of a streamed fragment. *)
Definition sample_delta (content : str) : gmap str json :=
  <[py "content" := JStr content]> ∅.

Definition sample_choice (content : str) : json :=
  JDict (<[py "delta" := JDict (sample_delta content)]> ∅).

Definition sample_frame (content : str) : json :=
  JDict (<[py "choices" := JList [sample_choice content]]> ∅).

(** A decoder that knows three texts. *)
Definition sample_loads (s : str) : exn + json :=
  if str_eqb s (py "envelope") then inr sample_envelope
  else if str_eqb s (py "Hel") then inr (sample_frame (py "Hel"))
  else if str_eqb s (py "lo") then inr (sample_frame (py "lo"))
  else inl (OtherException "JSONDecodeError" (py "Expecting value")).

(** A network that answers. *)
Definition net_up : Network := {|
  post := fun _ => PostReturns {| status_code := 200; text := py "envelope" |};
  stream := fun _ =>
    StreamOpens {| status_code := 200; text := [] |}
      [WireLine (py "data: Hel"); WireLine []; WireLine (py ": keep-alive");
       WireLine (py "data: lo"); WireLine (py "data: [DONE]")]
|}.

(** ** The render pipeline *)

(** [r'(```.*?```)'] with [re.DOTALL]: a fence, the shortest text, a fence. *)
Definition FENCE : str := py "```".

Definition fence_re : matcher :=
  m_lit FENCE (m_lazy (fun _ => true) (m_lit FENCE m_end)).

(** [re.split(pattern, s)] for a pattern that is one capturing group and
    matches no empty text: the texts between the matches and the matches,
    in order. [cur] is the text passed since the last match. *)
Fixpoint re_split_from (m : matcher) (steps : nat) (cur s : str) : list str :=
  match steps with
  | O => [cur ++ s]
  | S n =>
      match s with
      | [] => [cur]
      | c :: r =>
          match m s with
          | Some rest =>
              cur :: take (length s - length rest) s :: re_split_from m n [] rest
          | None => re_split_from m n (cur ++ [c]) r
          end
      end
  end.

Definition re_split (m : matcher) (s : str) : list str :=
  re_split_from m (S (length s)) [] s.

(** [part[3:-3]] *)
Definition slice_3_minus_3 (part : str) : str :=
  take (length part - 6) (drop 3 part).

(** The test of the loop: [part.startswith(FENCE) and part.endswith(FENCE)]. *)
Definition is_code_part (part : str) : bool :=
  startswith FENCE part && endswith FENCE part.

(** The body of [for part in parts]. *)
Definition render_part (part : str) : M unit :=
  if is_code_part part then
    let code_content := strip (slice_3_minus_3 part) in
    let lines := split NL code_content in
    let first := match lines with l :: _ => strip l | [] => [] end in
    let lang := match first with [] => py "text" | _ => first end in
    let code := strip (join [NL] (match first with [] => lines | _ => drop 1 lines end)) in
    match code with
    | [] => ret tt
    | _ => console_print (Syntax code lang "monokai") ;;; console_print Blank
    end
  else
    let part := clean_response part in
    match strip part with
    | [] => ret tt
    | _ => console_print (Markdown (JStr part) "blue")
    end.

Fixpoint for_each {A} (f : A → M unit) (l : list A) : M unit :=
  match l with
  | [] => ret tt
  | x :: rest => f x ;;; for_each f rest
  end.

(** Lines 295-308: split the response at the fenced blocks and render the
    parts in order. *)
Definition render_response (response : str) : M unit :=
  for_each render_part (re_split fence_re response).

(** A segment of the response, as the specification names them. *)
Inductive segment :=
| Prose (text : str)
| Code (lang body : str).

(** What was rendered, as segments. *)
Definition rendered_segments (t : trace) : list segment :=
  flat_map (fun e => match e with
                     | Print (Markdown (JStr s) _) => [Prose s]
                     | Print (Syntax code lang _) => [Code lang code]
                     | _ => []
                     end) t.

(** ** The interactive loop *)

(** What [input()] does. *)
Inductive input_event :=
| InputLine (s : str)
| InputRaises (e : exn).

Inductive loop_state :=
| AwaitingInput
| Exited.

(** The generator's effects as its caller meets them: a yield runs the
    body of the [for]. *)
Fixpoint for_chunks (cfg : Config) (g : trace) (full_response : str) : M str :=
  match g with
  | [] => ret full_response
  | Yield chunk :: g' =>
      full_response <- match chunk with
                       | JStr s => ret (full_response ++ s)
                       | _ => raise (type_error "+=")
                       end ;;
      console_print_markup cfg (Chunk chunk "blue") ;;;
      for_chunks cfg g' full_response
  | e :: g' => emit e ;;; for_chunks cfg g' full_response
  end.

Section Loop.

Variable json_loads : str → exn + json.

(** [str.lower] on a character outside ASCII, of the Unicode database. *)
Variable unicode_lower : N → str.

(** [s.lower()] *)
Definition lower (s : str) : str :=
  flat_map (fun c => if (65 <=? c) && (c <=? 90) then [c + 32]
                     else if c <? 128 then [c]
                     else unicode_lower c) s.

(** [isinstance(v, str)] *)
Definition is_str (v : json) : bool :=
  match v with JStr _ => true | _ => false end.

(** The branch [if stream:]. *)
Definition streaming_turn (cfg : Config) (net : Network) (prompt model : str) : M unit :=
  console_print (Text [Lit "[blue bold]>>> Grok 3 (streaming):[/blue bold]"]) ;;;
  debug_log cfg [Lit "Calling make_streaming_call"] ;;;
  let '(ended, g) := make_streaming_call json_loads cfg net prompt model [] in
  full_response <- for_chunks cfg g [] ;;
  lift ended ;;;
  console_print Blank ;;;
  let response := clean_response full_response in
  console_print (Markdown (JStr response) "blue").

(** The branch [else:]. *)
Definition non_streaming_turn (cfg : Config) (net : Network) (prompt model : str) : M unit :=
  debug_log cfg [Lit "Calling make_non_streaming_call"] ;;;
  r <- make_non_streaming_call json_loads cfg net prompt model ;;
  let '(response, reasoning_content, tokens) := r in
  debug_log cfg [Lit "Response type="; PType response] ;;;
  match response with
  | JNull => console_print (Text [Lit "[red]No response received from API.[/red]"])
  | JStr response_text =>
      (if truthy reasoning_content then
         console_print (Text [Lit "[cyan bold]>>> Reasoning:[/cyan bold]"]) ;;;
         console_print (Markdown reasoning_content "cyan")
       else ret tt) ;;;
      console_print (Text [Lit "[blue bold]>>> Grok 3:[/blue bold]"]) ;;;
      render_response response_text ;;;
      if truthy tokens then
        prompt_tokens <- lift (py_get tokens "prompt_tokens" (JInt 0)) ;;
        completion_tokens <- lift (py_get tokens "completion_tokens" (JInt 0)) ;;
        total_tokens <- lift (py_get tokens "total_tokens" (JInt 0)) ;;
        cost <- calculate_cost cfg model prompt_tokens completion_tokens ;;
        console_print_markup cfg
                      (Text [Lit "[yellow]Tokens used: prompt="; PVal prompt_tokens;
                             Lit ", completion="; PVal completion_tokens;
                             Lit ", total="; PVal total_tokens;
                             Lit " | Cost: $"; PCost cost; Lit "[/yellow]"])
      else ret tt
  | _ =>
      console_print_markup cfg
        (Text [Lit "[red]Error: Expected string response, got ";
               PType response; Lit "[/red]"])
  end.

(** The body of the [try] in [while True]. *)
Definition turn_body (cfg : Config) (streaming : bool) (model : str)
    (inp : input_event) (net : Network) : M loop_state :=
  console_print (TextNoEnd [Lit "[green]>>> [/green]"]) ;;;
  line <- match inp with
          | InputLine s => ret s
          | InputRaises e => raise e
          end ;;
  let prompt := strip line in
  if str_eqb (lower prompt) (py "exit") then
    console_print (Text [Lit "[yellow]Exiting chat.[/yellow]"]) ;;;
    ret Exited
  else if str_eqb (lower prompt) (py "help") then
    console_print HelpPanel ;;;
    ret AwaitingInput
  else match prompt with
  | [] => ret AwaitingInput
  | _ =>
      console_print_markup cfg
        (Text [Lit "[green bold]>>> You:[/green bold] "; PStr prompt]) ;;;
      debug_log cfg [Lit "Processing prompt, stream="; PVal (JBool streaming);
                     Lit ", model="; PStr model] ;;;
      (if streaming then streaming_turn cfg net prompt model
       else non_streaming_turn cfg net prompt model) ;;;
      ret AwaitingInput
  end.

(** The [except] clauses of the loop. *)
Definition turn_handler (cfg : Config) (e : exn) : option (M loop_state) :=
  match e with
  | KeyboardInterrupt =>
      Some (console_print (Text [Lit "[yellow]"; PStr [NL]; Lit "Exiting chat.[/yellow]"]) ;;;
            ret Exited)
  | BaseExceptionOther _ => None
  | _ =>
      Some (debug_log cfg [Lit "Prompt loop error: "; PExn e] ;;;
            console_print_markup cfg (Text [Lit "[red]Error: "; PExn e; Lit "[/red]"]) ;;;
            ret AwaitingInput)
  end.

(** One turn of [while True]. *)
Definition turn (cfg : Config) (streaming : bool) (model : str)
    (inp : input_event) (net : Network) : M loop_state :=
  try_except (turn_body cfg streaming model inp net) (turn_handler cfg).

(** The loop, on the inputs and API behaviours of the turns to come. *)
Fixpoint interactive_loop (cfg : Config) (streaming : bool) (model : str)
    (turns : list (input_event * Network)) : M loop_state :=
  match turns with
  | [] => ret AwaitingInput
  | (inp, net) :: rest =>
      st <- turn cfg streaming model inp net ;;
      match st with
      | Exited => ret Exited
      | AwaitingInput => interactive_loop cfg streaming model rest
      end
  end.

(** [prompt_grok], after the checks of the environment file, whose outcome
    is [env_secure]. *)
Definition prompt_grok (cfg : Config) (env_secure : bool) (streaming : bool)
    (model : str) (turns : list (input_event * Network)) : M loop_state :=
  if negb env_secure then
    console_print (Text [Lit "[red]Error: XAI_API_KEY not found in the environment file or file is missing/insecure.[/red]"]) ;;;
    console_print (Text [Lit "[red]Please create the environment file with XAI_API_KEY and set permissions to 600.[/red]"]) ;;;
    ret Exited
  else
    match API_KEY cfg with
    | Some key =>
        match strip key with
        | [] =>
            console_print (Text [Lit "[red]Error: XAI_API_KEY is empty or invalid.[/red]"]) ;;;
            ret Exited
        | _ =>
            console_print_markup cfg
              (Text [Lit "[yellow]"; PBanner "Prompt Grok"; Lit "[/yellow]"]) ;;;
            console_print (Text [Lit "[yellow]Version: 0.0.1[/yellow]"]) ;;;
            console_print_markup cfg
              (Text [Lit "[yellow]Starting chat with "; PStr model;
                     Lit " (streaming: "; Lit (if streaming then "on" else "off");
                     Lit "). Type 'exit' or Ctrl+C to quit.[/yellow]"]) ;;;
            interactive_loop cfg streaming model turns
        end
    | None =>
        console_print (Text [Lit "[red]Error: XAI_API_KEY is empty or invalid.[/red]"]) ;;;
        ret Exited
    end.

End Loop.

(** The requests a run sent. *)
Definition requests (t : trace) : list effect :=
  List.filter (fun e => match e with HttpPost _ | HttpStream _ => true | _ => false end) t.

(** ASCII letters alike up to case. *)
Definition same_letter (a b : N) : bool :=
  (a =? b) || ((65 <=? a) && (a <=? 90) && (a + 32 =? b)).

(** [s] is [word] (lower case ASCII) in some letter case. *)
Fixpoint any_case (word s : str) : bool :=
  match word, s with
  | [], [] => true
  | w :: word', c :: s' => same_letter c w && any_case word' s'
  | _, _ => false
  end.

(** ** check_env_security *)

(** The digits of [oct(n)], most significant first; [fuel] bounds their
    number. *)
Fixpoint oct_digits (fuel : nat) (n : N) (acc : str) : str :=
  match fuel with
  | O => acc
  | S fuel' =>
      let acc' := (48 + n mod 8) :: acc in
      if n / 8 =? 0 then acc' else oct_digits fuel' (n / 8) acc'
  end.

(** [oct(n)] for [n >= 0]. *)
Definition oct (n : N) : str := py "0o" ++ oct_digits (S (N.size_nat n)) n [].

(** [s[-3:]] *)
Definition slice_minus_3 (s : str) : str := drop (length s - 3) s.

(** The file at [ENV_PATH] as the check meets it: [os.stat(...).st_mode],
    [os.access(..., os.R_OK)] and the lines that iterating over the open
    file gives (reading them is taken not to fail). *)
Record EnvFile := {
  st_mode : N;
  readable : bool;
  file_lines : list str
}.

Definition KEY_NAME : str := py "XAI_API_KEY".

(** [for line in f: if ...: return True], and [False] after the loop. *)
Fixpoint key_line_in (lines : list str) : bool :=
  match lines with
  | [] => false
  | line :: rest =>
      if contains KEY_NAME line && negb (startswith (py "#") (strip line)) then true
      else key_line_in rest
  end.

(** [file] is [None] where [os.path.exists(ENV_PATH)] is false.  The texts
    the warning interpolates are the configured path and three octal
    digits. *)
Definition check_env_security (env_path : str) (file : option EnvFile) : M bool :=
  match file with
  | Some f =>
      let permissions := slice_minus_3 (oct (N.land (st_mode f) 511)) in
      (if negb (str_eqb permissions (py "600")) then
         console_print
           (Text [Lit "[red]Warning: "; PStr env_path; Lit " permissions are ";
                  PStr permissions;
                  Lit ", should be 600 (rw-------). Fix with: chmod 600 ";
                  PStr env_path; Lit "[/red]"])
       else ret tt) ;;;
      if readable f then ret (key_line_in (file_lines f)) else ret false
  | None => ret false
  end.

(** A line that names the key and is not a comment. *)
Definition names_key (line : str) : Prop :=
  (∃ a b, line = a ++ KEY_NAME ++ b) ∧ ∀ x, lstrip line ≠ 35 :: x.

(** ** Notions the further properties use *)

(** The characters of a text that are not whitespace, in order. *)
Definition visible (s : str) : str := List.filter (fun c => negb (is_space c)) s.

(** A matcher that consumes whitespace only. *)
Definition eats_space (m : matcher) : Prop :=
  ∀ s rest, m s = Some rest → ∃ w, s = w ++ rest ∧ blank w = true.

(** A matcher whose matches are at least [n] characters long. *)
Definition eats_at_least (n : nat) (m : matcher) : Prop :=
  ∀ s rest, m s = Some rest → (length rest + n ≤ length s)%nat.

(** The parts of a split that the pattern matched: every second one. *)
Fixpoint blocks_of (parts : list str) : list str :=
  match parts with
  | _ :: b :: rest => b :: blocks_of rest
  | _ => []
  end.

(** Rich prints a text: the console raises nothing on it. *)
Definition renders (cfg : Config) (o : output) : Prop := console cfg o = None.

(** [debug_log] of each of these messages goes through: debug logging is
    off, or Rich renders the line of each. *)
Definition logs (cfg : Config) (messages : list line) : Prop :=
  DEBUG_LOGGING cfg = true → Forall (fun m => renders cfg (debug_line m)) messages.

(** The messages of [debug_log] before the [try] of
    [make_non_streaming_call]. *)
Definition prologue_messages (cfg : Config) (prompt model : str) : list line :=
  [[Lit "Entered make_non_streaming_call(prompt='"; PStr (take 30 prompt);
    Lit "...', model="; PStr model; Lit ")"];
   [Lit "Payload="; PDumps (payload cfg prompt model false)]].

(** The message of [debug_log] in the [except] clause of an exception. *)
Definition handler_messages (e : exn) : list line :=
  match e with
  | HTTPStatusError status body =>
      [[Lit "HTTP error: status="; PInt status; Lit ", text="; PStr body]]
  | RequestError _ => [[Lit "Network error: "; PExn e]]
  | OtherException _ _ => [[Lit "Unexpected error: "; PExn e]]
  | _ => []
  end.

(** The [except] clause of an exception prints what it has to print. *)
Definition reports (cfg : Config) (e : exn) : Prop :=
  logs cfg (handler_messages e)
  ∧ (e ≠ KeyboardInterrupt → renders cfg (Text (failure_message e))).

(** The messages of [debug_log] in [make_streaming_call] up to the request,
    and up to the first line of the stream. *)
Definition streaming_prologue_messages (cfg : Config) (prompt model : str)
  : list line :=
  [[Lit "Entered make_streaming_call(prompt='"; PStr (take 30 prompt);
    Lit "...', model="; PStr model; Lit ")"];
   [Lit "Payload="; PDumps (payload cfg prompt model true)];
   [Lit "Sending streaming POST request"]].

Definition streaming_messages (cfg : Config) (prompt model : str) (status : Z)
  : list line :=
  streaming_prologue_messages cfg prompt model
  ++ [[Lit "Streaming response status="; PInt status]].

(** The debug line of a wire line goes through. *)
Definition line_logs (json_loads : str → exn + json) (cfg : Config) (chunk : str)
  : Prop :=
  ∀ data, startswith DATA_PREFIX chunk = true → chunk ≠ DONE →
          json_loads (drop 6 chunk) = inr data →
          logs cfg [[Lit "Stream chunk="; PDumps data]].

Definition is_markup_error (e : exn) : Prop := ∃ message, e = MarkupError message.

(** What no [except Exception] and no [except KeyboardInterrupt] catches
    ([SystemExit], [GeneratorExit]). *)
Definition uncaught (e : exn) : Prop := is_Exception e = false ∧ e ≠ KeyboardInterrupt.

(** A computation that only appends to the trace, and appends effects of
    one kind only. *)
Definition only {A} (P : effect → bool) (m : M A) : Prop :=
  ∀ t, ∃ u, (m t).2 = t ++ u ∧ forallb P u = true.

(** A computation that lets through no exception but those of a kind. *)
Definition raises_only {A} (Q : exn → Prop) (m : M A) : Prop :=
  ∀ t e, (m t).1 = inl e → Q e.

Definition is_request (e : effect) : bool :=
  match e with HttpPost _ | HttpStream _ => true | _ => false end.

Definition no_request (e : effect) : bool := negb (is_request e).

(** What a run sent that it had not sent before: nothing, or one request. *)
Definition sent_at_most (t t' : trace) (request : effect) : Prop :=
  ∃ u, t' = t ++ u ∧ (requests u = [] ∨ requests u = [request]).

(** A computation that only appends to the trace, and sends at most [n]
    requests. *)
Definition sends {A} (n : nat) (m : M A) : Prop :=
  ∀ t, ∃ u, (m t).2 = t ++ u ∧ (length (requests u) ≤ n)%nat.

(** The exceptions of the operations on values: plain [Exception]s. *)
Definition unexpected (e : exn) : Prop := failure_class_of e = Some Unexpected.

(** The prompt of the loop. *)
Definition PROMPT : effect := Print (TextNoEnd [Lit "[green]>>> [/green]"]).

(** What a turn prints when [input()] fails with an [Exception]. *)
Definition input_failure_lines (cfg : Config) (e : exn) : trace :=
  PROMPT :: debug_lines cfg [Lit "Prompt loop error: "; PExn e]
         ++ [Print (Text [Lit "[red]Error: "; PExn e; Lit "[/red]"])].

(** What the loop over the generator makes of the generator's effects: a
    fragment is printed, the rest is as it was. *)
Definition shown (e : effect) : effect :=
  match e with
  | Yield chunk => Print (Chunk chunk "blue")
  | _ => e
  end.

(** ** More sample worlds *)

Definition EOFError : exn := OtherException "EOFError" (py "EOF when reading a line").

(** [SystemExit] raised while the request is out. *)
Definition net_exit : Network := {|
  post := fun _ => PostRaises (BaseExceptionOther "SystemExit");
  stream := fun _ => StreamRaises (BaseExceptionOther "SystemExit")
|}.

(** Ctrl-C while the request is out. *)
Definition net_interrupted : Network := {|
  post := fun _ => PostRaises KeyboardInterrupt;
  stream := fun _ => StreamRaises KeyboardInterrupt
|}.

Definition net_404 : Network := {|
  post := fun _ => PostReturns {| status_code := 404; text := py "not found" |};
  stream := fun _ => StreamOpens {| status_code := 404; text := py "not found" |} []
|}.

(** A stream that breaks after its first line. *)
Definition net_cut : Network := {|
  post := fun _ => PostRaises (RequestError (py "connection reset"));
  stream := fun _ =>
    StreamOpens {| status_code := 200; text := [] |}
      [WireLine (py "data: Hel"); WireFault (RequestError (py "connection reset"));
       WireLine (py "data: lo")]
|}.

(** An envelope whose content is [null]. *)
Definition null_message : gmap str json := <[py "content" := JNull]> ∅.
Definition null_choice : json := JDict (<[py "message" := JDict null_message]> ∅).
Definition null_data : gmap str json := <[py "choices" := JList [null_choice]]> ∅.
Definition null_loads (s : str) : exn + json := inr (JDict null_data).

(** A frame whose delta content is [null]. *)
Definition null_delta_frame : json :=
  JDict (<[py "choices" :=
             JList [JDict (<[py "delta" := JDict (<[py "content" := JNull]> ∅)]> ∅)]]> ∅).

Definition null_delta_loads (s : str) : exn + json := inr null_delta_frame.

(** The last frame of a stream, whose delta is empty. *)
Definition last_choice : json := JDict (<[py "delta" := JDict ∅]> ∅).

Definition last_frame : gmap str json := <[py "choices" := JList [last_choice]]> ∅.

Definition last_loads (s : str) : exn + json := inr (JDict last_frame).

(** An answer and a frame that hold a closing tag. *)
Definition net_docs : Network := {|
  post := fun _ => PostReturns {| status_code := 404; text := py "see [/docs]" |};
  stream := fun _ =>
    StreamOpens {| status_code := 200; text := [] |} [WireLine (py "data: frame")]
|}.

Definition tag_loads (s : str) : exn + json := inr (sample_frame (py "[/b]")).

(* ================================================================== *)
(** * Properties *)
(* ================================================================== *)

Example clean_response_ex1 :
  clean_response (py "  a   b " ++ [NL; SP; NL; 11; NL] ++ py " 1.  x   y " ++ [NL] ++ py "c")
  = py "a b" ++ [NL; NL] ++ py "1.  x   y" ++ [NL] ++ py "c".
Proof. vm_compute. reflexivity. Qed.

Example clean_response_spec_ex1 :
  clean_response_spec (py "  a   b " ++ [NL; SP; NL; 11; NL] ++ py " 1.  x   y " ++ [NL] ++ py "c")
  = py "a b" ++ [NL; NL] ++ py "1.  x   y" ++ [NL] ++ py "c".
Proof. vm_compute. reflexivity. Qed.

(** ** Characters and whitespace *)

Lemma is_space_NL : is_space NL = true.
Proof. reflexivity. Qed.

Lemma is_nl_spec c : is_nl c = true ↔ c = NL.
Proof. unfold is_nl. apply N.eqb_eq. Qed.

Lemma is_nl_space c : is_nl c = true → is_space c = true.
Proof. intros ->%is_nl_spec. reflexivity. Qed.

Lemma not_space_not_nl c : is_space c = false → is_nl c = false.
Proof.
  intros H. destruct (is_nl c) eqn:E; [|done].
  apply is_nl_space in E. congruence.
Qed.

Lemma not_space_neq_NL c : is_space c = false → (c =? NL) = false.
Proof. apply not_space_not_nl. Qed.

Lemma blank_cons c r : blank (c :: r) = is_space c && blank r.
Proof. reflexivity. Qed.

Lemma blank_app a b : blank (a ++ b) = blank a && blank b.
Proof. apply forallb_app. Qed.

(** ** strip *)

Lemma rstrip_cons c r :
  rstrip (c :: r) = if blank (c :: r) then [] else c :: rstrip r.
Proof.
  revert c. induction r as [|d r IH]; intros c.
  - simpl. destruct (is_space c); reflexivity.
  - change (rstrip (c :: d :: r))
      with (match rstrip (d :: r) with
            | [] => if is_space c then [] else [c]
            | r' => c :: r'
            end).
    rewrite IH. change (blank (c :: d :: r)) with (is_space c && blank (d :: r)).
    destruct (blank (d :: r)); simpl.
    + destruct (is_space c); reflexivity.
    + rewrite andb_false_r. reflexivity.
Qed.

Lemma rstrip_blank s : blank s = true → rstrip s = [].
Proof. destruct s; [done|]. intros H. rewrite rstrip_cons, H. done. Qed.

Lemma rstrip_nil_blank s : rstrip s = [] → blank s = true.
Proof.
  destruct s; [done|]. rewrite rstrip_cons.
  destruct (blank (n :: s)); done.
Qed.

Lemma blank_rstrip s : blank (rstrip s) = blank s.
Proof.
  induction s as [|c r IH]; [done|].
  rewrite rstrip_cons. destruct (blank (c :: r)) eqn:E; [done|].
  simpl in *. rewrite IH. done.
Qed.

Lemma rstrip_idem s : rstrip (rstrip s) = rstrip s.
Proof.
  induction s as [|c r IH]; [done|].
  rewrite rstrip_cons. destruct (blank (c :: r)) eqn:E; [done|].
  rewrite rstrip_cons. simpl in *. rewrite blank_rstrip, E, IH. done.
Qed.

Lemma lstrip_cons c r : lstrip (c :: r) = if is_space c then lstrip r else c :: r.
Proof. reflexivity. Qed.

Lemma lstrip_blank s : blank s = true → lstrip s = [].
Proof.
  induction s as [|c r IH]; [done|].
  rewrite blank_cons, lstrip_cons. intros [-> H]%andb_true_iff. auto.
Qed.

Lemma lstrip_head s c r : lstrip s = c :: r → is_space c = false.
Proof.
  induction s as [|d s IH]; [done|]. rewrite lstrip_cons.
  destruct (is_space d) eqn:E; [auto|]. intros [= <- _]. done.
Qed.

Lemma lstrip_fixed c r : is_space c = false → lstrip (c :: r) = c :: r.
Proof. intros H. rewrite lstrip_cons, H. done. Qed.

Lemma blank_lstrip s : blank (lstrip s) = blank s.
Proof.
  induction s as [|c r IH]; [done|]. rewrite lstrip_cons, blank_cons.
  destruct (is_space c) eqn:E; [done|]. rewrite blank_cons, E. done.
Qed.

Lemma strip_blank s : blank s = true → strip s = [].
Proof. intros H. unfold strip. rewrite lstrip_blank; done. Qed.

Lemma blank_strip s : blank (strip s) = blank s.
Proof. unfold strip. rewrite blank_rstrip, blank_lstrip. done. Qed.

Lemma strip_head s c r : strip s = c :: r → is_space c = false.
Proof.
  unfold strip. destruct (lstrip s) as [|d t] eqn:E; [done|].
  apply lstrip_head in E. rewrite rstrip_cons.
  destruct (blank (d :: t)); [done|]. intros [= <- _]. done.
Qed.

Lemma strip_fixed s : lstrip s = s → rstrip s = s → strip s = s.
Proof. unfold strip. intros -> ->. done. Qed.

Lemma lstrip_rstrip s : lstrip (rstrip s) = rstrip (lstrip s).
Proof.
  induction s as [|c r IH]; [done|].
  rewrite rstrip_cons. destruct (blank (c :: r)) eqn:E.
  - rewrite (lstrip_blank (c :: r)) by done. done.
  - rewrite !lstrip_cons. destruct (is_space c) eqn:Ec.
    + apply IH.
    + rewrite rstrip_cons, E. done.
Qed.

Lemma strip_idem s : strip (strip s) = strip s.
Proof.
  unfold strip. rewrite lstrip_rstrip.
  assert (Hl : ∀ t, lstrip (lstrip t) = lstrip t).
  { intros t. destruct (lstrip t) as [|c r] eqn:E; [done|].
    apply lstrip_head in E. apply lstrip_fixed. done. }
  rewrite Hl, rstrip_idem. done.
Qed.

(** ** split and join *)

Lemma free_cons sep c l : free sep (c :: l) = negb (c =? sep) && free sep l.
Proof. reflexivity. Qed.

Lemma free_app sep a b : free sep (a ++ b) = free sep a && free sep b.
Proof. apply forallb_app. Qed.

Lemma split_cons_sep sep r : split sep (sep :: r) = [] :: split sep r.
Proof. cbn [split]. rewrite N.eqb_refl. done. Qed.

Lemma split_not_nil sep s : split sep s ≠ [].
Proof.
  destruct s as [|c r]; [done|]. cbn [split].
  destruct (c =? sep); [done|]. destruct (split sep r); done.
Qed.

Lemma split_cons_other sep c r :
  (c =? sep) = false →
  ∃ l ls, split sep r = l :: ls ∧ split sep (c :: r) = (c :: l) :: ls.
Proof.
  intros H. cbn [split]. rewrite H.
  destruct (split sep r) as [|l ls] eqn:E; [by apply split_not_nil in E|].
  eauto.
Qed.

Lemma split_free sep s : Forall (fun l => free sep l = true) (split sep s).
Proof.
  induction s as [|c r IH]; [repeat constructor|].
  destruct (c =? sep) eqn:E.
  - apply N.eqb_eq in E as ->. rewrite split_cons_sep. constructor; done.
  - destruct (split_cons_other sep c r E) as (l & ls & Hr & ->).
    rewrite Hr in IH. inversion IH; subst. constructor; [|done].
    rewrite free_cons, E. done.
Qed.

Lemma join_cons sep l b rest :
  join sep (l :: b :: rest) = l ++ sep ++ join sep (b :: rest).
Proof. reflexivity. Qed.

Lemma join_split sep s : join [sep] (split sep s) = s.
Proof.
  induction s as [|c r IH]; [done|].
  destruct (c =? sep) eqn:E.
  - apply N.eqb_eq in E as ->. rewrite split_cons_sep.
    destruct (split sep r) as [|l ls] eqn:Hr; [by apply split_not_nil in Hr|].
    rewrite join_cons, IH. done.
  - destruct (split_cons_other sep c r E) as (l & ls & Hr & ->).
    rewrite Hr in IH. rewrite <- IH. destruct ls; done.
Qed.

Lemma split_line sep l : free sep l = true → split sep l = [l].
Proof.
  induction l as [|c r IH]; [done|].
  rewrite free_cons. intros [Hc Hr]%andb_true_iff.
  apply negb_true_iff in Hc. cbn [split]. rewrite Hc, IH; done.
Qed.

Lemma split_app_sep sep l r :
  free sep l = true → split sep (l ++ sep :: r) = l :: split sep r.
Proof.
  induction l as [|c l IH]; [intros _; apply split_cons_sep|].
  rewrite free_cons. intros [Hc Hl]%andb_true_iff.
  apply negb_true_iff in Hc. cbn [split app]. rewrite Hc, IH; done.
Qed.

Lemma split_join sep ls :
  ls ≠ [] → Forall (fun l => free sep l = true) ls →
  split sep (join [sep] ls) = ls.
Proof.
  induction ls as [|l rest IH]; [done|]. intros _ H.
  inversion H as [|? ? Hl Hrest]; subst.
  destruct rest as [|b rest].
  - apply split_line. done.
  - rewrite join_cons. cbn [app]. rewrite split_app_sep by done.
    rewrite IH; done.
Qed.

(** ** Substitution: the steps suffice *)

Lemma re_sub_from_enough m repl :
  shrinking m →
  ∀ n n' s, (length s < n)%nat → (length s < n')%nat →
            re_sub_from m repl n s = re_sub_from m repl n' s.
Proof.
  intros Hm. induction n as [|n IH]; intros n' s Hn Hn'; [lia|].
  destruct n' as [|n']; [lia|].
  destruct s as [|c r]; [done|]. cbn [re_sub_from].
  destruct (m (c :: r)) as [rest|] eqn:E.
  - apply Hm in E. cbn [length] in *. f_equal. apply IH; lia.
  - cbn [length] in *. f_equal. apply IH; lia.
Qed.

Lemma re_sub_nil m repl : re_sub m repl [] = [].
Proof. reflexivity. Qed.

Lemma re_sub_from_cons m repl n c r :
  re_sub_from m repl (S n) (c :: r) =
  match m (c :: r) with
  | Some rest => repl ++ re_sub_from m repl n rest
  | None => c :: re_sub_from m repl n r
  end.
Proof. reflexivity. Qed.

Lemma re_sub_match m repl s rest :
  shrinking m → m s = Some rest →
  re_sub m repl s = repl ++ re_sub m repl rest.
Proof.
  intros Hm E. unfold re_sub. pose proof (Hm _ _ E) as Hlen.
  destruct s as [|c r]; [cbn [length] in Hlen; lia|].
  rewrite re_sub_from_cons, E. f_equal.
  apply re_sub_from_enough; cbn [length] in *; [done|lia..].
Qed.

Lemma re_sub_skip m repl c r :
  shrinking m → m (c :: r) = None →
  re_sub m repl (c :: r) = c :: re_sub m repl r.
Proof.
  intros Hm E. unfold re_sub. rewrite re_sub_from_cons, E. reflexivity.
Qed.

Lemma drop_while_length {A} (p : A → bool) s :
  (length (drop_while p s) ≤ length s)%nat.
Proof.
  induction s as [|c r IH]; [done|]. cbn [drop_while].
  destruct (p c); cbn [length]; lia.
Qed.

Lemma m_star_bounded p k : bounded k → bounded (m_star p k).
Proof.
  intros Hk s. induction s as [|c r IH]; intros rest.
  - cbn [m_star]. apply Hk.
  - cbn [m_star]. destruct (p c).
    + destruct (m_star p k r) as [x|] eqn:E.
      * intros [= <-]. specialize (IH _ eq_refl). cbn [length]. lia.
      * apply Hk.
    + apply Hk.
Qed.

Lemma m_end_bounded : bounded m_end.
Proof. intros s rest [= <-]. done. Qed.

Lemma m_char_shrinking p k : bounded k → shrinking (m_char p k).
Proof.
  intros Hk [|c r] rest; [done|]. cbn [m_char].
  destruct (p c); [|done]. intros H%Hk. cbn [length]. lia.
Qed.

Lemma shrinking_bounded m : shrinking m → bounded m.
Proof. intros H s rest E. apply H in E. lia. Qed.

Lemma m_star_end p s : m_star p m_end s = Some (drop_while p s).
Proof.
  induction s as [|c r IH]; [done|]. cbn [m_star drop_while].
  rewrite IH. destruct (p c); done.
Qed.

(** ** [\s+]: collapsing the whitespace of a line *)

Lemma spaces_re_shrinking : shrinking spaces_re.
Proof. apply m_char_shrinking, m_star_bounded, m_end_bounded. Qed.

Lemma spaces_re_cons c r :
  spaces_re (c :: r) = if is_space c then Some (lstrip r) else None.
Proof.
  unfold spaces_re, m_plus. cbn [m_char]. rewrite m_star_end. done.
Qed.

Lemma collapse_nil : collapse [] = [].
Proof. reflexivity. Qed.

Lemma collapse_cons c r :
  collapse (c :: r) =
  if is_space c then SP :: collapse (lstrip r) else c :: collapse r.
Proof.
  unfold collapse. destruct (is_space c) eqn:E.
  - erewrite re_sub_match; [done|apply spaces_re_shrinking|].
    rewrite spaces_re_cons, E. done.
  - apply re_sub_skip; [apply spaces_re_shrinking|].
    rewrite spaces_re_cons, E. done.
Qed.

(** ** The words of a line *)

Lemma nospace_cons c w : nospace (c :: w) = negb (is_space c) && nospace w.
Proof. reflexivity. Qed.

Lemma words_space c r : is_space c = true → words (c :: r) = words r.
Proof. intros H. cbn [words]. rewrite H. done. Qed.

Lemma words_last c : is_space c = false → words [c] = [[c]].
Proof. intros H. cbn [words]. rewrite H. done. Qed.

Lemma words_end c d r :
  is_space c = false → is_space d = true →
  words (c :: d :: r) = [c] :: words r.
Proof.
  intros Hc Hd. rewrite <- (words_space d r Hd).
  change (words (c :: d :: r))
    with (if is_space c then words (d :: r)
          else if is_space d then [c] :: words (d :: r)
               else match words (d :: r) with
                    | w :: ws => (c :: w) :: ws
                    | [] => [[c]]
                    end).
  rewrite Hc, Hd. done.
Qed.

Lemma words_more c d r :
  is_space c = false → is_space d = false →
  ∃ w ws, words (d :: r) = w :: ws ∧ words (c :: d :: r) = (c :: w) :: ws.
Proof.
  intros Hc Hd.
  assert (Hne : words (d :: r) ≠ []).
  { cbn [words]. rewrite Hd. destruct r as [|e r]; [done|].
    destruct (is_space e); [done|]. destruct (words (e :: r)); done. }
  change (words (c :: d :: r))
    with (if is_space c then words (d :: r)
          else if is_space d then [c] :: words (d :: r)
               else match words (d :: r) with
                    | w :: ws => (c :: w) :: ws
                    | [] => [[c]]
                    end).
  rewrite Hc, Hd. destruct (words (d :: r)) as [|w ws]; [done|]. eauto.
Qed.

Lemma words_blank l : blank l = true → words l = [].
Proof.
  induction l as [|c r IH]; [done|]. rewrite blank_cons.
  intros [Hc Hr]%andb_true_iff. rewrite words_space; auto.
Qed.

Lemma words_nil_blank l : words l = [] → blank l = true.
Proof.
  induction l as [|c r IH]; [done|]. rewrite blank_cons.
  destruct (is_space c) eqn:Hc.
  - rewrite words_space by done. auto.
  - destruct r as [|d r]; [by rewrite words_last|].
    destruct (is_space d) eqn:Hd.
    + rewrite words_end; done.
    + destruct (words_more c d r Hc Hd) as (w & ws & _ & ->). done.
Qed.

Lemma words_is_word l : Forall is_word (words l).
Proof.
  induction l as [|c r IH]; [constructor|].
  destruct (is_space c) eqn:Hc; [by rewrite words_space|].
  destruct r as [|d r].
  - rewrite words_last by done. repeat constructor; [done|].
    rewrite nospace_cons, Hc. done.
  - destruct (is_space d) eqn:Hd.
    + rewrite words_end by done. rewrite words_space in IH by done.
      constructor; [|done]. split; [done|]. rewrite nospace_cons, Hc. done.
    + destruct (words_more c d r Hc Hd) as (w & ws & Hw & ->).
      rewrite Hw in IH. inversion IH as [|? ? [_ Hn] Hws]; subst.
      constructor; [|done]. split; [done|]. rewrite nospace_cons, Hc, Hn. done.
Qed.

Lemma words_lstrip l : words (lstrip l) = words l.
Proof.
  induction l as [|c r IH]; [done|]. rewrite lstrip_cons.
  destruct (is_space c) eqn:Hc; [|done]. rewrite words_space; done.
Qed.

Lemma words_rstrip l : words (rstrip l) = words l.
Proof.
  induction l as [|c r IH]; [done|]. rewrite rstrip_cons.
  destruct (blank (c :: r)) eqn:Hb; [by rewrite (words_blank (c :: r))|].
  destruct (is_space c) eqn:Hc; [by rewrite !words_space|].
  destruct r as [|d r]; [done|].
  rewrite rstrip_cons in *. destruct (blank (d :: r)) eqn:Hbr.
  - rewrite words_last by done.
    rewrite blank_cons in Hbr. apply andb_true_iff in Hbr as [Hd Hr].
    rewrite words_end by done. rewrite words_blank; done.
  - destruct (is_space d) eqn:Hd.
    + rewrite !words_end by done. rewrite !words_space in IH by done.
      rewrite blank_cons, Hd in Hbr. cbn [andb] in Hbr.
      f_equal. rewrite <- IH. symmetry.
      destruct (rstrip r) eqn:Er; [|done].
      apply rstrip_nil_blank in Er. congruence.
    + destruct (words_more c d r Hc Hd) as (w & ws & Hw & ->).
      destruct (words_more c d (rstrip r) Hc Hd) as (w' & ws' & Hw' & ->).
      congruence.
Qed.

Lemma words_strip l : words (strip l) = words l.
Proof. unfold strip. rewrite words_rstrip, words_lstrip. done. Qed.

Lemma words_word w : is_word w → words w = [w].
Proof.
  intros [Hne Hw]. induction w as [|c r IH]; [done|].
  rewrite nospace_cons in Hw. apply andb_true_iff in Hw as [Hc Hr].
  apply negb_true_iff in Hc. destruct r as [|d r]; [by apply words_last|].
  pose proof Hr as Hr'. rewrite nospace_cons in Hr'.
  apply andb_true_iff in Hr' as [Hd _]. apply negb_true_iff in Hd.
  destruct (words_more c d r Hc Hd) as (w & ws & Hw & ->).
  rewrite IH in Hw by done. congruence.
Qed.

Lemma words_app_space w c r :
  is_word w → is_space c = true → words (w ++ c :: r) = w :: words r.
Proof.
  intros [Hne Hw] Hsp. induction w as [|a w IH]; [done|].
  rewrite nospace_cons in Hw. apply andb_true_iff in Hw as [Ha Hw].
  apply negb_true_iff in Ha. destruct w as [|b w].
  - cbn [app]. apply words_end; done.
  - pose proof Hw as Hw'. rewrite nospace_cons in Hw'.
    apply andb_true_iff in Hw' as [Hb _]. apply negb_true_iff in Hb.
    cbn [app] in *.
    destruct (words_more a b (w ++ c :: r) Ha Hb) as (x & xs & Hx & ->).
    rewrite IH in Hx by done. congruence.
Qed.

Lemma words_join ws : Forall is_word ws → words (join [SP] ws) = ws.
Proof.
  induction ws as [|w rest IH]; [done|]. intros H.
  inversion H as [|? ? Hw Hrest]; subst.
  destruct rest as [|w' rest]; [by apply words_word|].
  rewrite join_cons. cbn [app]. rewrite words_app_space by done.
  rewrite IH; done.
Qed.

(** ** A collapsed and trimmed line is its words, one space apart *)

Lemma length_induction {A} (P : list A → Prop) :
  (∀ l, (∀ l', (length l' < length l)%nat → P l') → P l) → ∀ l, P l.
Proof.
  intros H l. remember (length l) as n eqn:Hn.
  revert l Hn. induction n as [n IH] using lt_wf_ind.
  intros l ->. apply H. intros l' Hl'. eapply IH; [exact Hl'|done].
Qed.

Lemma lstrip_length s : (length (lstrip s) ≤ length s)%nat.
Proof. apply drop_while_length. Qed.

Lemma blank_collapse l : blank (collapse l) = blank l.
Proof.
  induction l as [l IH] using length_induction.
  destruct l as [|c r]; [done|]. rewrite collapse_cons, blank_cons.
  destruct (is_space c) eqn:Hc.
  - rewrite blank_cons. change (is_space SP) with true. cbn [andb].
    rewrite IH, blank_lstrip; [done|]. pose proof (lstrip_length r).
    cbn [length]. lia.
  - rewrite blank_cons, Hc. done.
Qed.

Lemma free_collapse l : free NL (collapse l) = true.
Proof.
  induction l as [l IH] using length_induction.
  destruct l as [|c r]; [done|]. rewrite collapse_cons.
  destruct (is_space c) eqn:Hc; rewrite free_cons.
  - rewrite IH; [done|]. pose proof (lstrip_length r). cbn [length]. lia.
  - rewrite not_space_neq_NL by done. rewrite IH; [done|]. cbn [length]. lia.
Qed.

Lemma join_words_head c r :
  is_space c = false →
  ∃ t, join [SP] (words (c :: r)) = c :: t.
Proof.
  intros Hc. pose proof (words_is_word (c :: r)) as Hw.
  destruct r as [|d r].
  - rewrite words_last by done. eauto.
  - destruct (is_space d) eqn:Hd.
    + rewrite words_end by done. destruct (words r); cbn; eauto.
    + destruct (words_more c d r Hc Hd) as (w & ws & _ & ->).
      destruct ws; cbn; eauto.
Qed.

Lemma lstrip_join_words l : lstrip (join [SP] (words l)) = join [SP] (words l).
Proof.
  induction l as [|c r IH]; [done|].
  destruct (is_space c) eqn:Hc; [by rewrite words_space|].
  destruct (join_words_head c r Hc) as [t ->]. apply lstrip_fixed. done.
Qed.

Lemma rstrip_collapse l :
  rstrip (collapse l) = lead l ++ join [SP] (words l).
Proof.
  induction l as [l IH] using length_induction.
  destruct l as [|c r]; [done|]. rewrite collapse_cons.
  destruct (is_space c) eqn:Hc.
  - rewrite rstrip_cons, blank_cons. change (is_space SP) with true.
    cbn [andb]. rewrite blank_collapse, blank_lstrip.
    unfold lead. rewrite Hc, words_space by done.
    destruct (blank r) eqn:Hb.
    + rewrite words_blank; done.
    + rewrite IH by (pose proof (lstrip_length r); cbn [length]; lia).
      rewrite words_lstrip.
      destruct (words r) as [|w ws] eqn:Hw.
      { apply words_nil_blank in Hw. congruence. }
      cbn [app]. f_equal. unfold lead.
      destruct (lstrip r) as [|d t] eqn:Hl; [done|].
      apply lstrip_head in Hl. rewrite Hl. destruct (words (d :: t)); done.
  - rewrite rstrip_cons, blank_cons, Hc. cbn [andb].
    rewrite IH by (cbn [length]; lia).
    unfold lead at 2. rewrite Hc. replace (match words (c :: r) with
      | [] | _ => []
      end) with (@nil N) by (destruct (words (c :: r)); done).
    cbn [app]. destruct r as [|d r].
    + rewrite words_last by done. done.
    + unfold lead. destruct (is_space d) eqn:Hd.
      * rewrite words_end by done. rewrite words_space by done.
        destruct (words r); done.
      * destruct (words_more c d r Hc Hd) as (w & ws & -> & ->).
        destruct ws; done.
Qed.

Lemma strip_collapse l : strip (collapse l) = join [SP] (words l).
Proof.
  unfold strip. rewrite <- lstrip_rstrip, rstrip_collapse.
  unfold lead. destruct l as [|c r]; [done|].
  destruct (words (c :: r)) as [|w ws] eqn:Hw; [done|].
  rewrite <- Hw. destruct (is_space c).
  - cbn [app]. rewrite lstrip_cons. change (is_space SP) with true.
    apply lstrip_join_words.
  - apply lstrip_join_words.
Qed.

(** ** One line *)

Lemma startswith_nil s : startswith [] s = true.
Proof. destruct s; done. Qed.

Lemma startswith_cons a p c s :
  startswith (a :: p) (c :: s) = (a =? c) && startswith p s.
Proof. reflexivity. Qed.

Lemma nospace_neq a c : is_space a = false → is_space c = true → (a =? c) = false.
Proof. intros Ha Hc. apply N.eqb_neq. intros ->. congruence. Qed.

Lemma startswith_rstrip p t :
  nospace p = true → startswith p (rstrip t) = startswith p t.
Proof.
  revert p. induction t as [|c r IH]; intros p Hp; [done|].
  destruct p as [|a p]; [by rewrite !startswith_nil|].
  rewrite nospace_cons in Hp. apply andb_true_iff in Hp as [Ha Hp].
  apply negb_true_iff in Ha. rewrite rstrip_cons.
  destruct (blank (c :: r)) eqn:Hb.
  - rewrite blank_cons in Hb. apply andb_true_iff in Hb as [Hc _].
    rewrite startswith_cons, nospace_neq; done.
  - rewrite !startswith_cons, IH; done.
Qed.

Lemma startswith_first_word p c r :
  nospace p = true → is_space c = false →
  startswith p (c :: r) = startswith p (hd [] (words (c :: r))).
Proof.
  revert p c. induction r as [|d r IH]; intros p c Hp Hc.
  - rewrite words_last; done.
  - destruct p as [|a p]; [by rewrite !startswith_nil|].
    rewrite nospace_cons in Hp. apply andb_true_iff in Hp as [Ha Hp].
    apply negb_true_iff in Ha. destruct (is_space d) eqn:Hd.
    + rewrite words_end by done. cbn [hd]. rewrite !startswith_cons. f_equal.
      destruct p as [|b p]; [done|]. rewrite startswith_cons.
      rewrite nospace_cons in Hp. apply andb_true_iff in Hp as [Hb _].
      apply negb_true_iff in Hb. rewrite nospace_neq; done.
    + destruct (words_more c d r Hc Hd) as (w & ws & Hw & ->).
      cbn [hd]. rewrite !startswith_cons. f_equal.
      rewrite IH, Hw by done. done.
Qed.

Lemma startswith_strip p l :
  nospace p = true → p ≠ [] →
  startswith p (strip l) = startswith p (hd [] (words l)).
Proof.
  intros Hp Hne. unfold strip. rewrite startswith_rstrip by done.
  rewrite <- (words_lstrip l). destruct (lstrip l) as [|c r] eqn:Hl; [done|].
  apply lstrip_head in Hl. apply startswith_first_word; done.
Qed.

(** Whether a line is a list item depends on its first word only. *)
Lemma marker_first_word l :
  startswith_any list_markers (strip l)
  = startswith_any list_markers (hd [] (words l)).
Proof.
  unfold startswith_any, list_markers. cbn [existsb].
  rewrite !startswith_strip; done.
Qed.

Lemma lstrip_idem s : lstrip (lstrip s) = lstrip s.
Proof.
  destruct (lstrip s) as [|c r] eqn:E; [done|].
  apply lstrip_head in E. apply lstrip_fixed. done.
Qed.

Lemma strip_lstrip s : strip (lstrip s) = strip s.
Proof. unfold strip. rewrite lstrip_idem. done. Qed.

Lemma strip_rstrip s : strip (rstrip s) = strip s.
Proof. unfold strip. rewrite lstrip_rstrip, rstrip_idem. done. Qed.

Lemma lstrip_strip s : lstrip (strip s) = strip s.
Proof. unfold strip. rewrite lstrip_rstrip, lstrip_idem. done. Qed.

Lemma rstrip_strip s : rstrip (strip s) = strip s.
Proof. unfold strip. apply rstrip_idem. Qed.

(** The comprehension body does what the specification says of a line. *)
Lemma clean_line_spec_eq l : clean_line l = clean_line_spec l.
Proof.
  unfold clean_line, clean_line_spec.
  destruct (startswith_any list_markers (strip l)); [done|].
  apply strip_collapse.
Qed.

Lemma clean_line_is_strip l :
  ∃ y, clean_line l = strip y ∧ blank y = blank l
       ∧ (free NL l = true → free NL y = true).
Proof.
  unfold clean_line. destruct (startswith_any list_markers (strip l)).
  - exists l. done.
  - exists (collapse l). split; [done|]. split; [apply blank_collapse|].
    intros _. apply free_collapse.
Qed.

Lemma blank_clean_line l : blank (clean_line l) = blank l.
Proof.
  destruct (clean_line_is_strip l) as (y & -> & Hb & _).
  rewrite blank_strip. done.
Qed.

Lemma clean_line_blank l : blank l = true → clean_line l = [].
Proof.
  intros H. destruct (clean_line_is_strip l) as (y & -> & Hb & _).
  apply strip_blank. congruence.
Qed.

Lemma strip_clean_line l : strip (clean_line l) = clean_line l.
Proof.
  destruct (clean_line_is_strip l) as (y & -> & _). apply strip_idem.
Qed.

Lemma clean_line_idem l : clean_line (clean_line l) = clean_line l.
Proof.
  rewrite !clean_line_spec_eq. pose proof (marker_first_word l) as Hf.
  unfold clean_line_spec.
  destruct (startswith_any list_markers (strip l)) eqn:Hm.
  - rewrite strip_idem, Hm. done.
  - rewrite marker_first_word, words_join by apply words_is_word.
    rewrite <- Hf. done.
Qed.

Lemma clean_line_lstrip l : clean_line (lstrip l) = clean_line l.
Proof.
  rewrite !clean_line_spec_eq. unfold clean_line_spec.
  rewrite strip_lstrip, words_lstrip. done.
Qed.

Lemma clean_line_rstrip l : clean_line (rstrip l) = clean_line l.
Proof.
  rewrite !clean_line_spec_eq. unfold clean_line_spec.
  rewrite strip_rstrip, words_rstrip. done.
Qed.

Lemma free_lstrip sep s : free sep s = true → free sep (lstrip s) = true.
Proof.
  induction s as [|c r IH]; [done|]. rewrite lstrip_cons, free_cons.
  intros [Hc Hr]%andb_true_iff. destruct (is_space c); [auto|].
  rewrite free_cons, Hc, Hr. done.
Qed.

Lemma free_rstrip sep s : free sep s = true → free sep (rstrip s) = true.
Proof.
  induction s as [|c r IH]; [done|]. rewrite rstrip_cons, free_cons.
  intros [Hc Hr]%andb_true_iff. destruct (blank (c :: r)); [done|].
  rewrite free_cons, Hc, IH; done.
Qed.

Lemma free_clean_line l : free NL l = true → free NL (clean_line l) = true.
Proof.
  intros H. destruct (clean_line_is_strip l) as (y & -> & _ & Hy).
  unfold strip. apply free_rstrip, free_lstrip. auto.
Qed.

(** ** [\n\s*\n+]: squeezing the blank lines of a text *)

Lemma blank_lines_re_shrinking : shrinking blank_lines_re.
Proof.
  apply m_char_shrinking, m_star_bounded, shrinking_bounded.
  apply m_char_shrinking, m_star_bounded, m_end_bounded.
Qed.

Lemma blank_lines_re_cons c r :
  blank_lines_re (c :: r) = if is_nl c then gap r else None.
Proof. reflexivity. Qed.

Lemma squeeze_nil : squeeze [] = [].
Proof. reflexivity. Qed.

Lemma squeeze_other c r : is_nl c = false → squeeze (c :: r) = c :: squeeze r.
Proof.
  intros H. apply re_sub_skip; [apply blank_lines_re_shrinking|].
  rewrite blank_lines_re_cons, H. done.
Qed.

Lemma squeeze_nl r :
  squeeze (NL :: r) =
  match gap r with
  | Some rest => NL :: NL :: squeeze rest
  | None => NL :: squeeze r
  end.
Proof.
  destruct (gap r) as [rest|] eqn:E.
  - unfold squeeze. erewrite re_sub_match; [done|apply blank_lines_re_shrinking|].
    rewrite blank_lines_re_cons. done.
  - apply re_sub_skip; [apply blank_lines_re_shrinking|].
    rewrite blank_lines_re_cons. done.
Qed.

Lemma squeeze_line_app l x :
  free NL l = true → squeeze (l ++ x) = l ++ squeeze x.
Proof.
  induction l as [|c l IH]; [done|]. rewrite free_cons.
  intros [Hc Hl]%andb_true_iff. apply negb_true_iff in Hc.
  cbn [app]. rewrite squeeze_other, IH; done.
Qed.

Lemma squeeze_line l : free NL l = true → squeeze l = l.
Proof.
  intros H. rewrite <- (app_nil_r l) at 1.
  rewrite squeeze_line_app, squeeze_nil, app_nil_r; done.
Qed.

Lemma gap_cons c r :
  gap (c :: r) =
  if is_space c then
    match gap r with
    | Some rest => Some rest
    | None => m_plus is_nl m_end (c :: r)
    end
  else m_plus is_nl m_end (c :: r).
Proof. reflexivity. Qed.

Lemma nl_plus_cons c r :
  m_plus is_nl m_end (c :: r) =
  if is_nl c then Some (drop_while is_nl r) else None.
Proof. unfold m_plus. cbn [m_char]. rewrite m_star_end. done. Qed.

Lemma gap_nl_some x : ∃ rest, gap (NL :: x) = Some rest.
Proof.
  rewrite gap_cons, is_space_NL, nl_plus_cons.
  destruct (gap x); eauto.
Qed.

(** A text that begins with a non-blank line offers no newline to [\s*\n+]. *)
Lemma gap_nonblank w c y :
  blank w = true → free NL w = true → is_space c = false →
  gap (w ++ c :: y) = None.
Proof.
  intros Hw Hf Hc. induction w as [|a w IH].
  - cbn [app]. rewrite gap_cons, Hc, nl_plus_cons, not_space_not_nl; done.
  - rewrite blank_cons in Hw. apply andb_true_iff in Hw as [Ha Hw].
    rewrite free_cons in Hf. apply andb_true_iff in Hf as [Hn Hf].
    apply negb_true_iff in Hn. cbn [app].
    rewrite gap_cons, Ha, IH, nl_plus_cons by done.
    unfold is_nl. rewrite Hn. done.
Qed.

(** A blank line followed by a newline is consumed, and the blank lines
    after it with it. *)
Lemma gap_nl x :
  gap (NL :: x) = Some (match gap x with Some rest => rest | None => x end).
Proof.
  rewrite gap_cons, is_space_NL, nl_plus_cons.
  destruct (gap x) as [rest|] eqn:E; [done|].
  change (is_nl NL) with true. f_equal. destruct x as [|c r]; [done|].
  cbn [drop_while]. destruct (is_nl c) eqn:Hc; [|done].
  apply is_nl_spec in Hc as ->.
  destruct (gap_nl_some r) as [rest Hr]. congruence.
Qed.

Lemma gap_blank b x :
  blank b = true →
  gap (b ++ NL :: x) = Some (match gap x with Some rest => rest | None => x end).
Proof.
  intros Hb. induction b as [|a b IH]; [apply gap_nl|].
  rewrite blank_cons in Hb. apply andb_true_iff in Hb as [Ha Hb].
  cbn [app]. rewrite gap_cons, Ha, IH; done.
Qed.

Lemma nonblank_split l :
  blank l = false →
  ∃ w c t, l = w ++ c :: t ∧ blank w = true ∧ is_space c = false.
Proof.
  induction l as [|a l IH]; [done|]. rewrite blank_cons.
  destruct (is_space a) eqn:Ha.
  - intros (w & c & t & -> & Hw & Hc)%IH. exists (a :: w), c, t.
    rewrite blank_cons, Ha, Hw. done.
  - intros _. exists [], a, l. done.
Qed.

Lemma join_head sep l rest : ∃ z, join sep (l :: rest) = l ++ z.
Proof.
  destruct rest as [|b rest].
  - exists []. cbn [join]. by rewrite app_nil_r.
  - eexists. apply join_cons.
Qed.

Lemma gap_nonblank_line l rest :
  free NL l = true → blank l = false → gap (join [NL] (l :: rest)) = None.
Proof.
  intros Hf Hb. destruct (join_head [NL] l rest) as [z ->].
  destruct (nonblank_split l Hb) as (w & c & t & -> & Hw & Hc).
  rewrite free_app in Hf. apply andb_true_iff in Hf as [Hf _].
  rewrite <- app_assoc. cbn [app]. apply gap_nonblank; done.
Qed.

(** ** The lines of a squeezed text *)

Lemma squeeze_lines rest : ∀ l,
  lines_free (l :: rest) → ends_nonblank (l :: rest) = true →
  split NL (squeeze (join [NL] (l :: rest))) = l :: collapse_blank rest.
Proof.
  induction rest as [rest IH] using length_induction. intros l Hf He.
  inversion Hf as [|? ? Hl Hrest]; subst.
  destruct rest as [|b rest'].
  { cbn [join collapse_blank]. rewrite squeeze_line by done.
    apply split_line. done. }
  inversion Hrest as [|? ? Hb Hrest']; subst.
  rewrite join_cons. cbn [app]. rewrite squeeze_line_app, squeeze_nl by done.
  change (ends_nonblank (l :: b :: rest')) with (ends_nonblank (b :: rest')) in He.
  destruct (blank b) eqn:Eb.
  - (* a blank line: it is followed by another line *)
    destruct rest' as [|b' rest'']; [cbn in He; rewrite Eb in He; done|].
    inversion Hrest' as [|? ? Hb' Hrest'']; subst.
    change (ends_nonblank (b :: b' :: rest'')) with (ends_nonblank (b' :: rest'')) in He.
    rewrite (join_cons [NL] b b' rest''). cbn [app]. rewrite gap_blank by done.
    destruct (blank b') eqn:Eb'.
    + (* the next line is blank too: the first one disappears *)
      destruct rest'' as [|b'' r3]; [cbn in He; rewrite Eb' in He; done|].
      assert (Hsame : NL :: NL :: squeeze
                (match gap (join [NL] (b' :: b'' :: r3)) with
                 | Some rest => rest
                 | None => join [NL] (b' :: b'' :: r3)
                 end) = squeeze (NL :: join [NL] (b' :: b'' :: r3))).
      { rewrite squeeze_nl. rewrite (join_cons [NL] b' b'' r3). cbn [app].
        rewrite gap_blank by done. done. }
      rewrite Hsame.
      rewrite <- squeeze_line_app by done.
      change (l ++ NL :: join [NL] (b' :: b'' :: r3))
        with (l ++ [NL] ++ join [NL] (b' :: b'' :: r3)).
      rewrite <- join_cons. rewrite IH; [|cbn [length]; lia|by constructor|done].
      cbn [collapse_blank]. rewrite Eb, Eb'. done.
    + rewrite gap_nonblank_line by done.
      rewrite split_app_sep, split_cons_sep by done.
      rewrite IH; [|cbn [length]; lia|done|done].
      cbn [collapse_blank]. rewrite Eb, Eb'. done.
  - rewrite gap_nonblank_line by done.
    rewrite split_app_sep by done.
    rewrite IH; [|cbn [length]; lia|done|done].
    cbn [collapse_blank]. rewrite Eb. done.
Qed.

(** ** Runs of blank lines *)

Lemma collapse_blank_nonblank l rest :
  blank l = false → collapse_blank (l :: rest) = l :: collapse_blank rest.
Proof. intros H. cbn [collapse_blank]. rewrite H. done. Qed.

Lemma collapse_blank_map (f : str → str) ls :
  (∀ l, blank (f l) = blank l) → f [] = [] →
  List.map f (collapse_blank ls) = collapse_blank (List.map f ls).
Proof.
  intros Hb Hnil. induction ls as [|l rest IH]; [done|].
  cbn [collapse_blank List.map]. rewrite Hb.
  destruct (blank l).
  - destruct rest as [|b rest']; [cbn; by rewrite Hnil|].
    cbn [List.map] in *. rewrite Hb. destruct (blank b).
    + apply IH.
    + cbn [List.map]. rewrite Hnil, IH. done.
  - cbn [List.map]. rewrite IH. done.
Qed.

Lemma no_blank_pair_cons l b rest :
  no_blank_pair (l :: b :: rest)
  = negb (blank l && blank b) && no_blank_pair (b :: rest).
Proof. reflexivity. Qed.

Lemma collapse_blank_no_pair ls : no_blank_pair (collapse_blank ls) = true.
Proof.
  induction ls as [|l rest IH]; [done|]. cbn [collapse_blank].
  destruct (blank l) eqn:El.
  - destruct rest as [|b rest']; [done|]. destruct (blank b) eqn:Eb; [done|].
    rewrite (collapse_blank_nonblank b rest' Eb) in IH |- *.
    rewrite no_blank_pair_cons, Eb, IH, andb_false_r. done.
  - destruct (collapse_blank rest) as [|x xs] eqn:Ex; [done|].
    rewrite no_blank_pair_cons, El, IH. done.
Qed.

Lemma collapse_blank_blank l b rest :
  blank l = true →
  collapse_blank (l :: b :: rest) =
  if blank b then collapse_blank (b :: rest) else [] :: collapse_blank (b :: rest).
Proof. intros H. cbn [collapse_blank]. rewrite H. done. Qed.

Lemma collapse_blank_idem ls :
  collapse_blank (collapse_blank ls) = collapse_blank ls.
Proof.
  induction ls as [|l rest IH]; [done|].
  destruct (blank l) eqn:El.
  - destruct rest as [|b rest']; [cbn; by rewrite El|].
    rewrite collapse_blank_blank by done.
    destruct (blank b) eqn:Eb; [done|].
    rewrite (collapse_blank_nonblank b rest' Eb) in IH |- *.
    rewrite collapse_blank_blank, Eb, IH; done.
  - rewrite !collapse_blank_nonblank, IH; done.
Qed.

Lemma collapse_blank_not_nil ls : ls ≠ [] → collapse_blank ls ≠ [].
Proof.
  induction ls as [|l rest IH]; [done|]. intros _. cbn [collapse_blank].
  destruct (blank l); [|done]. destruct rest as [|b rest']; [done|].
  destruct (blank b); [|done]. apply IH. done.
Qed.

Lemma collapse_blank_ends ls :
  ends_nonblank ls = true → ends_nonblank (collapse_blank ls) = true.
Proof.
  induction ls as [|l rest IH]; [done|]. cbn [collapse_blank].
  destruct rest as [|b rest'].
  - cbn. destruct (blank l) eqn:El; [done|]. cbn. rewrite El. done.
  - change (ends_nonblank (l :: b :: rest')) with (ends_nonblank (b :: rest')).
    intros H. specialize (IH H).
    destruct (collapse_blank (b :: rest')) as [|x xs] eqn:E; [done|].
    destruct (blank l), (blank b); exact IH.
Qed.

Lemma collapse_blank_forall (P : str → Prop) ls :
  P [] → Forall P ls → Forall P (collapse_blank ls).
Proof.
  intros Hnil. induction ls as [|l rest IH]; [done|]. intros H.
  inversion H as [|? ? Hl Hrest]; subst. specialize (IH Hrest).
  cbn [collapse_blank].
  destruct (blank l); [|by constructor].
  destruct rest as [|b rest']; [by repeat constructor|].
  destruct (blank b); [done|]. by constructor.
Qed.

Lemma collapse_blank_free ls : lines_free ls → lines_free (collapse_blank ls).
Proof. apply collapse_blank_forall. done. Qed.

(** ** The lines of a stripped text *)

Lemma ends_nonblank_cons c r :
  ends_nonblank (split NL r) = true → ends_nonblank (split NL (c :: r)) = true.
Proof.
  intros H. destruct (c =? NL) eqn:E.
  - apply N.eqb_eq in E as ->. rewrite split_cons_sep.
    destruct (split NL r) eqn:Hr; done.
  - destruct (split_cons_other NL c r E) as (l & ls & Hr & ->).
    rewrite Hr in H. destruct ls; [|done]. cbn [ends_nonblank] in *.
    rewrite blank_cons. apply negb_true_iff in H. rewrite H, andb_false_r. done.
Qed.

Lemma ends_nonblank_rstrip u :
  rstrip u ≠ [] → ends_nonblank (split NL (rstrip u)) = true.
Proof.
  induction u as [|c r IH]; [done|]. rewrite rstrip_cons.
  destruct (blank (c :: r)) eqn:Hb; [done|]. intros _.
  destruct (rstrip r) as [|d t] eqn:Hr.
  - apply rstrip_nil_blank in Hr. rewrite blank_cons, Hr, andb_true_r in Hb.
    cbn [split]. rewrite not_space_neq_NL by done. cbn [ends_nonblank].
    rewrite blank_cons, Hb. done.
  - apply ends_nonblank_cons. apply IH. done.
Qed.

Lemma starts_nonblank_split c r :
  is_space c = false → starts_nonblank (split NL (c :: r)) = true.
Proof.
  intros Hc.
  destruct (split_cons_other NL c r (not_space_neq_NL c Hc)) as (l & ls & _ & ->).
  cbn [starts_nonblank]. rewrite blank_cons, Hc. done.
Qed.

Lemma stripped_lines t :
  stripped t → t ≠ [] →
  starts_nonblank (split NL t) = true ∧ ends_nonblank (split NL t) = true.
Proof.
  unfold stripped. intros Ht Hne. split.
  - destruct t as [|c r]; [done|]. apply starts_nonblank_split.
    eapply strip_head. exact Ht.
  - rewrite <- Ht. unfold strip. apply ends_nonblank_rstrip.
    fold (strip t). congruence.
Qed.

(** The substitution turns the lines of a stripped text into the same
    lines with each run of blank ones collapsed. *)
Lemma squeeze_stripped t :
  stripped t →
  split NL (squeeze t) = collapse_blank (split NL t).
Proof.
  intros Ht. destruct t as [|c r] eqn:Et; [done|]. rewrite <- Et in *.
  assert (Hne : t ≠ []) by congruence.
  destruct (stripped_lines t Ht Hne) as [Hs He].
  pose proof (split_free NL t) as Hf.
  rewrite <- (join_split NL t) at 1.
  destruct (split NL t) as [|l rest]; [done|].
  rewrite squeeze_lines by done.
  cbn [starts_nonblank] in Hs. apply negb_true_iff in Hs.
  rewrite collapse_blank_nonblank; done.
Qed.

(** ** The cleaned text *)

Lemma clean_response_eq s :
  clean_response s
  = strip (join [NL] (List.map clean_line (split NL (squeeze (strip s))))).
Proof. destruct s; reflexivity. Qed.

Lemma starts_nonblank_map (f : str → str) ls :
  (∀ l, blank (f l) = blank l) →
  starts_nonblank (List.map f ls) = starts_nonblank ls.
Proof. intros Hb. destruct ls; [done|]. cbn [List.map starts_nonblank]. by rewrite Hb. Qed.

Lemma ends_nonblank_map (f : str → str) ls :
  (∀ l, blank (f l) = blank l) →
  ends_nonblank (List.map f ls) = ends_nonblank ls.
Proof.
  intros Hb. induction ls as [|l rest IH]; [done|].
  destruct rest as [|b rest'].
  - cbn [List.map ends_nonblank]. by rewrite Hb.
  - exact IH.
Qed.

Lemma collapse_blank_starts ls :
  starts_nonblank ls = true → starts_nonblank (collapse_blank ls) = true.
Proof.
  destruct ls as [|l rest]; [done|]. cbn [starts_nonblank].
  intros H. pose proof H as H'. apply negb_true_iff in H'.
  rewrite collapse_blank_nonblank by done. done.
Qed.

Lemma cleaned_lines_tidy s : strip s ≠ [] → tidy (cleaned_lines s).
Proof.
  intros Hne. unfold cleaned_lines.
  destruct (stripped_lines (strip s) (strip_idem s) Hne) as [Hs He].
  pose proof (split_free NL (strip s)) as Hf.
  rewrite collapse_blank_map by (apply blank_clean_line || done).
  set (T := List.map clean_line (split NL (strip s))).
  assert (HfT : lines_free T).
  { apply Forall_map. eapply Forall_impl; [exact Hf|].
    intros l. apply free_clean_line. }
  assert (HcT : Forall (fun l => clean_line l = l) T).
  { apply Forall_map. apply Forall_forall. intros l _. apply clean_line_idem. }
  split.
  - apply collapse_blank_free. done.
  - apply collapse_blank_forall; done.
  - apply collapse_blank_starts. unfold T.
    rewrite starts_nonblank_map; [done|apply blank_clean_line].
  - apply collapse_blank_ends. unfold T.
    rewrite ends_nonblank_map; [done|apply blank_clean_line].
  - apply collapse_blank_idem.
Qed.

Lemma tidy_no_blank_pair ls : tidy ls → no_blank_pair ls = true.
Proof. intros H. rewrite <- (tidy_collapsed _ H). apply collapse_blank_no_pair. Qed.

Lemma ends_nonblank_join ls :
  ends_nonblank ls = true → blank (join [NL] ls) = false.
Proof.
  induction ls as [|l rest IH]; [done|]. destruct rest as [|b rest'].
  - cbn [ends_nonblank join]. apply negb_true_iff.
  - intros H. rewrite join_cons, !blank_app, IH by done.
    rewrite !andb_false_r. done.
Qed.

Lemma rstrip_app_fixed x y :
  rstrip y = y → blank y = false → rstrip (x ++ y) = x ++ y.
Proof.
  intros Hy Hb. induction x as [|c x IH]; [done|].
  cbn [app]. rewrite rstrip_cons, blank_cons, blank_app, Hb, IH.
  rewrite !andb_false_r. done.
Qed.

Lemma rstrip_join ls :
  Forall (fun l => rstrip l = l) ls → ends_nonblank ls = true →
  rstrip (join [NL] ls) = join [NL] ls.
Proof.
  induction ls as [|l rest IH]; [done|]. intros H He.
  inversion H as [|? ? Hl Hrest]; subst. destruct rest as [|b rest'].
  - exact Hl.
  - rewrite join_cons, app_assoc. apply rstrip_app_fixed.
    + apply IH; done.
    + apply ends_nonblank_join. done.
Qed.

Lemma lstrip_join ls :
  Forall (fun l => lstrip l = l) ls → starts_nonblank ls = true →
  lstrip (join [NL] ls) = join [NL] ls.
Proof.
  intros H Hs. destruct ls as [|l rest]; [done|].
  inversion H as [|? ? Hl _]; subst.
  destruct (join_head [NL] l rest) as [z ->].
  destruct l as [|c l]; [done|].
  apply lstrip_head in Hl. cbn [app]. apply lstrip_fixed. done.
Qed.

Lemma clean_fixed_stripped l : clean_line l = l → strip l = l.
Proof. intros <-. apply strip_clean_line. Qed.

Lemma tidy_stripped ls : tidy ls → stripped (join [NL] ls).
Proof.
  intros [Hf Hc Hs He _]. unfold stripped, strip.
  rewrite lstrip_join, rstrip_join; [done| |done| |done].
  - eapply Forall_impl; [exact Hc|]. intros l Hl%clean_fixed_stripped.
    rewrite <- Hl. apply rstrip_strip.
  - eapply Forall_impl; [exact Hc|]. intros l Hl%clean_fixed_stripped.
    rewrite <- Hl. apply lstrip_strip.
Qed.

Lemma tidy_not_nil ls : tidy ls → ls ≠ [].
Proof. intros H ->. pose proof (tidy_starts _ H). done. Qed.

(** A tidy text is left as it is. *)
Lemma tidy_fixed ls : tidy ls → clean_response (join [NL] ls) = join [NL] ls.
Proof.
  intros H. pose proof (tidy_stripped ls H) as Hst.
  rewrite clean_response_eq, Hst, squeeze_stripped by done.
  rewrite split_join by (apply tidy_not_nil || apply tidy_free; done).
  rewrite (tidy_collapsed _ H).
  replace (List.map clean_line ls) with ls; [exact Hst|].
  pose proof (tidy_clean _ H) as Hc. clear -Hc.
  induction Hc as [|l rest Hl _ IH]; [done|]. cbn [List.map]. congruence.
Qed.

Lemma clean_response_blank s : strip s = [] → clean_response s = [].
Proof. intros H. rewrite clean_response_eq, H. reflexivity. Qed.

Lemma clean_response_lines s :
  strip s ≠ [] → clean_response s = join [NL] (cleaned_lines s).
Proof.
  intros Hne. rewrite clean_response_eq.
  rewrite squeeze_stripped by apply strip_idem.
  apply (tidy_stripped (cleaned_lines s)). apply cleaned_lines_tidy. done.
Qed.

(** C1. Cleaning twice is cleaning once:
    [clean_response (clean_response s) = clean_response s] for every text. *)
Theorem clean_response_idempotent (s : str) :
  clean_response (clean_response s) = clean_response s.
Proof.
  destruct (strip s) as [|c r] eqn:E.
  - rewrite (clean_response_blank s E). reflexivity.
  - assert (Hne : strip s ≠ []) by (rewrite E; done).
    rewrite (clean_response_lines s) by done.
    apply tidy_fixed, cleaned_lines_tidy. done.
Qed.

(** C2. The cleaned text never has two blank lines in a row, whatever the
    input: among the lines of [clean_response s], split at newlines, no
    line made of whitespace only is followed by another such line. *)
Theorem clean_response_no_blank_run (s : str) :
  no_blank_pair (split NL (clean_response s)) = true.
Proof.
  destruct (strip s) as [|c r] eqn:E.
  - rewrite (clean_response_blank s E). reflexivity.
  - assert (Hne : strip s ≠ []) by (rewrite E; done).
    pose proof (cleaned_lines_tidy s Hne) as Ht.
    rewrite (clean_response_lines s) by done.
    rewrite split_join by (apply tidy_not_nil || apply tidy_free; done).
    apply tidy_no_blank_pair. done.
Qed.

(** ** The lines of the input *)

Lemma blank_split t : forallb blank (split NL t) = blank t.
Proof.
  induction t as [|c r IH]; [done|]. destruct (c =? NL) eqn:E.
  - apply N.eqb_eq in E as ->. rewrite split_cons_sep, blank_cons.
    cbn [forallb]. rewrite IH. done.
  - destruct (split_cons_other NL c r E) as (l & ls & Hr & ->).
    rewrite Hr in IH. cbn [forallb] in *. rewrite !blank_cons, <- IH.
    rewrite andb_assoc. done.
Qed.

Lemma rstrip_lines_nil ls : rstrip_lines ls = [] ↔ forallb blank ls = true.
Proof.
  induction ls as [|l rest IH]; [done|]. cbn [rstrip_lines forallb].
  destruct (rstrip_lines rest) eqn:E.
  - destruct (blank l); [|done]. cbn [andb]. split; [intros _; by apply IH|done].
  - split; [done|]. intros [_ H]%andb_true_iff. apply IH in H. done.
Qed.

Lemma drop_blank_end_nil ls : drop_blank_end ls = [] ↔ forallb blank ls = true.
Proof.
  induction ls as [|l rest IH]; [done|]. cbn [drop_blank_end forallb].
  destruct (drop_blank_end rest) eqn:E.
  - destruct (blank l); [|done]. cbn [andb]. split; [intros _; by apply IH|done].
  - split; [done|]. intros [_ H]%andb_true_iff. apply IH in H. done.
Qed.

Lemma lstrip_lines s :
  split NL (lstrip s) =
  match drop_while blank (split NL s) with
  | [] => [[]]
  | l :: ls => lstrip l :: ls
  end.
Proof.
  induction s as [|c r IH]; [done|]. rewrite lstrip_cons.
  destruct (is_space c) eqn:Hc.
  - destruct (c =? NL) eqn:E.
    + apply N.eqb_eq in E as ->. rewrite split_cons_sep. exact IH.
    + destruct (split_cons_other NL c r E) as (l & ls & Hr & ->).
      rewrite Hr in IH. cbn [drop_while] in *.
      rewrite blank_cons, Hc. cbn [andb]. destruct (blank l); [done|].
      rewrite lstrip_cons, Hc. done.
  - destruct (split_cons_other NL c r (not_space_neq_NL c Hc)) as (l & ls & _ & ->).
    cbn [drop_while]. rewrite blank_cons, Hc. cbn [andb].
    rewrite lstrip_fixed; done.
Qed.

Lemma rstrip_lines_split t :
  split NL (rstrip t) =
  match rstrip_lines (split NL t) with
  | [] => [[]]
  | ls => ls
  end.
Proof.
  induction t as [|c r IH]; [done|]. rewrite rstrip_cons.
  destruct (blank (c :: r)) eqn:Hb.
  - rewrite <- blank_split in Hb. apply rstrip_lines_nil in Hb. rewrite Hb. done.
  - destruct (c =? NL) eqn:E.
    + apply N.eqb_eq in E as ->. rewrite !split_cons_sep, IH.
      rewrite blank_cons, is_space_NL in Hb. cbn [andb] in Hb.
      cbn [rstrip_lines]. destruct (rstrip_lines (split NL r)) eqn:Hr; [|done].
      apply rstrip_lines_nil in Hr. rewrite blank_split in Hr. congruence.
    + destruct (split_cons_other NL c (rstrip r) E) as (l' & ls' & Hr' & Hs').
      destruct (split_cons_other NL c r E) as (l & ls & Hr & Hs).
      rewrite Hs', Hs. rewrite Hr, Hr' in IH. cbn [rstrip_lines] in *.
      destruct (rstrip_lines ls) as [|x xs] eqn:Hls.
      * assert (Hbl : blank (c :: l) = false).
        { rewrite <- blank_split, Hs in Hb. cbn [forallb] in Hb.
          apply rstrip_lines_nil in Hls. rewrite Hls, andb_true_r in Hb. done. }
        rewrite Hbl, rstrip_cons, Hbl.
        destruct (blank l) eqn:El.
        -- injection IH as -> ->. rewrite rstrip_blank; done.
        -- injection IH as -> ->. done.
      * injection IH as -> ->. done.
Qed.

Lemma clean_rstrip_lines ls :
  List.map clean_line (rstrip_lines ls) = List.map clean_line (drop_blank_end ls).
Proof.
  induction ls as [|l rest IH]; [done|]. cbn [rstrip_lines drop_blank_end].
  destruct (rstrip_lines rest) as [|x xs] eqn:E.
  - apply rstrip_lines_nil, drop_blank_end_nil in E. rewrite E.
    destruct (blank l); [done|]. cbn [List.map]. rewrite clean_line_rstrip. done.
  - destruct (drop_blank_end rest) as [|y ys] eqn:E'.
    + apply drop_blank_end_nil, rstrip_lines_nil in E'. congruence.
    + cbn [List.map] in *. rewrite IH. done.
Qed.

Lemma drop_while_blank_nil ls :
  drop_while blank ls = [] ↔ forallb blank ls = true.
Proof.
  induction ls as [|l rest IH]; [done|]. cbn [drop_while forallb].
  destruct (blank l); [exact IH|done].
Qed.

Lemma drop_while_blank_head ls l rest :
  drop_while blank ls = l :: rest → blank l = false.
Proof.
  induction ls as [|x xs IH]; [done|]. cbn [drop_while].
  destruct (blank x) eqn:E; [exact IH|]. intros [= <- _]. done.
Qed.

(** Stripping the text drops the blank lines at its ends, as far as the
    cleaned lines go. *)
Lemma clean_strip_lines s :
  strip s ≠ [] →
  List.map clean_line (split NL (strip s))
  = List.map clean_line (trim_blank (split NL s)).
Proof.
  intros Hne. unfold strip in *. rewrite rstrip_lines_split.
  destruct (rstrip_lines (split NL (lstrip s))) as [|x xs] eqn:E.
  { apply rstrip_lines_nil in E. rewrite blank_split in E.
    apply rstrip_blank in E. done. }
  rewrite <- E, clean_rstrip_lines, lstrip_lines. unfold trim_blank.
  destruct (drop_while blank (split NL s)) as [|l ls] eqn:Hd.
  { apply drop_while_blank_nil in Hd. rewrite blank_split in Hd.
    apply lstrip_blank in Hd. rewrite Hd in Hne. done. }
  cbn [drop_blank_end]. destruct (drop_blank_end ls).
  - rewrite blank_lstrip. destruct (blank l); [done|].
    cbn [List.map]. rewrite clean_line_lstrip. done.
  - cbn [List.map]. rewrite clean_line_lstrip. done.
Qed.

Lemma trim_blank_all_blank s : strip s = [] → trim_blank (split NL s) = [].
Proof.
  intros H. unfold trim_blank.
  assert (Hb : blank s = true).
  { rewrite <- blank_strip, H. done. }
  rewrite <- blank_split in Hb. apply drop_while_blank_nil in Hb.
  rewrite Hb. done.
Qed.

(** C3. On the lines of the input: a line whose trimmed form begins with
    "1.", "2.", "3.", "4." or the bullet is returned trimmed and otherwise
    unchanged; every other line is returned as its words separated by
    single spaces (each whitespace run collapsed, the ends trimmed). The
    result is these lines, with the blank lines at the ends of the text
    dropped and each run of blank lines in between kept as one empty line. *)
Theorem clean_response_per_line (s : str) :
  clean_response s = clean_response_spec s.
Proof.
  unfold clean_response_spec.
  rewrite <- (map_ext clean_line clean_line_spec clean_line_spec_eq).
  destruct (strip s) as [|c r] eqn:E.
  - rewrite (clean_response_blank s E), (trim_blank_all_blank s E). done.
  - assert (Hne : strip s ≠ []) by (rewrite E; done).
    rewrite (clean_response_lines s Hne). unfold cleaned_lines.
    rewrite !collapse_blank_map by (apply blank_clean_line || done).
    rewrite clean_strip_lines; done.
Qed.

(** ** Running a computation *)

Lemma bind_ret_run {A B} (m : M A) (k : A → M B) t a t1 :
  m t = (inr a, t1) → bind m k t = k a t1.
Proof. intros H. unfold bind. rewrite H. done. Qed.

Lemma bind_raise_run {A B} (m : M A) (k : A → M B) t e t1 :
  m t = (inl e, t1) → bind m k t = (inl e, t1).
Proof. intros H. unfold bind. rewrite H. done. Qed.

Lemma bind_inr_inv {A B} (m : M A) (k : A → M B) t b t' :
  bind m k t = (inr b, t') →
  ∃ a t1, m t = (inr a, t1) ∧ k a t1 = (inr b, t').
Proof.
  unfold bind. destruct (m t) as [[e|a] t1]; [done|]. eauto.
Qed.

Lemma bind_inl_inv {A B} (m : M A) (k : A → M B) t e t' :
  bind m k t = (inl e, t') →
  m t = (inl e, t') ∨ ∃ a t1, m t = (inr a, t1) ∧ k a t1 = (inl e, t').
Proof.
  unfold bind. destruct (m t) as [[e0|a] t1]; [intros [= -> ->]|]; eauto.
Qed.

Lemma lift_inr_inv {A} (r : exn + A) t a t' :
  lift r t = (inr a, t') → r = inr a ∧ t' = t.
Proof. destruct r; cbn; intros [= <- <-]; done. Qed.

Lemma lift_run {A} (a : A) t : lift (inr a) t = (inr a, t).
Proof. reflexivity. Qed.

Lemma str_eqb_eq a b : str_eqb a b = true ↔ a = b.
Proof.
  revert b. induction a as [|x a IH]; intros [|y b]; cbn [str_eqb]; try done.
  rewrite andb_true_iff, N.eqb_eq, IH. split; [intros [-> ->]|intros [= -> ->]]; done.
Qed.

Lemma str_eqb_neq a b : a ≠ b → str_eqb a b = false.
Proof.
  intros H. destruct (str_eqb a b) eqn:E; [|done]. apply str_eqb_eq in E. done.
Qed.


(** ** Printing *)

Lemma console_print_markup_run cfg o t :
  renders cfg o → console_print_markup cfg o t = (inr tt, t ++ [Print o]).
Proof. unfold renders, console_print_markup. intros ->. done. Qed.

Lemma console_print_markup_inr cfg o t x t' :
  console_print_markup cfg o t = (inr x, t') → renders cfg o ∧ t' = t ++ [Print o].
Proof.
  unfold renders, console_print_markup. destruct (console cfg o); [done|].
  intros [= _ <-]. done.
Qed.

Lemma console_print_markup_inl cfg o t e t' :
  console_print_markup cfg o t = (inl e, t') → is_markup_error e ∧ t' = t.
Proof.
  unfold console_print_markup. destruct (console cfg o) as [m|]; [|done].
  intros [= <- <-]. split; [by exists m|done].
Qed.

Lemma logs_elem cfg ms m : logs cfg ms → In m ms → logs cfg [m].
Proof.
  intros H Hin Hd. specialize (H Hd). rewrite List.Forall_forall in H.
  constructor; [auto|constructor].
Qed.

Lemma debug_log_run cfg message t :
  logs cfg [message] →
  debug_log cfg message t = (inr tt, t ++ debug_lines cfg message).
Proof.
  unfold logs, debug_log, debug_lines. destruct (DEBUG_LOGGING cfg).
  - intros H. specialize (H eq_refl). inversion H; subst.
    by apply console_print_markup_run.
  - intros _. cbn. by rewrite app_nil_r.
Qed.

Lemma debug_log_inr cfg message t x t' :
  debug_log cfg message t = (inr x, t') →
  logs cfg [message] ∧ t' = t ++ debug_lines cfg message.
Proof.
  unfold logs, debug_log, debug_lines. destruct (DEBUG_LOGGING cfg).
  - intros [Hr ->]%console_print_markup_inr. split; [|done].
    intros _. constructor; [done|constructor].
  - intros [= _ <-]. split; [done|]. by rewrite app_nil_r.
Qed.

Lemma debug_log_inl cfg message t e t' :
  debug_log cfg message t = (inl e, t') → is_markup_error e ∧ t' = t.
Proof.
  unfold debug_log. destruct (DEBUG_LOGGING cfg); [|done].
  apply console_print_markup_inl.
Qed.

(** A line of [debug_log] that a hypothesis [H] says goes through. *)
Ltac logged H :=
  rewrite debug_log_run by (apply (logs_elem _ _ _ H); cbn; auto 10).

(** ** calculate_cost *)

Lemma calculate_cost_known cfg model input_price output_price p c t :
  (if str_eqb model (py "grok-3-beta") then
     Some (GROK_3_BETA_INPUT_PRICE_PER_1K cfg, GROK_3_BETA_OUTPUT_PRICE_PER_1K cfg)
   else if str_eqb model (py "grok-3-mini-beta") then
     Some (GROK_3_MINI_BETA_INPUT_PRICE_PER_1K cfg, GROK_3_MINI_BETA_OUTPUT_PRICE_PER_1K cfg)
   else None) = Some (input_price, output_price) →
  calculate_cost cfg model (JInt p) (JInt c) t
  = (cost_formula input_price output_price p c, t).
Proof.
  intros H. unfold calculate_cost. rewrite H. unfold cost_formula, bind.
  cbn [per_thousand].
  destruct (int_truediv p 1000), (int_truediv c 1000); reflexivity.
Qed.

Lemma cost_formula_returns input_price output_price p c a b :
  int_truediv p 1000 = inr a → int_truediv c 1000 = inr b →
  cost_formula input_price output_price p c
  = inr (a * input_price + b * output_price)%float.
Proof. intros Ha Hb. unfold cost_formula. rewrite Ha, Hb. done. Qed.

(** C4 fails as stated: a count whose quotient by 1000 is beyond the
    floats makes the division raise [OverflowError] for a known model, and
    with debug logging on an unknown model name that holds a closing tag
    makes the debug line raise [MarkupError]. *)
Lemma calculate_cost_raises :
  (∃ what, calculate_cost (default_config None) (py "grok-3-beta")
             (JInt (10 ^ 400)) (JInt 0) []
           = (inl (OtherException "OverflowError" what), []))
  ∧ (∃ message, calculate_cost (default_config None) (py "[/x]") (JInt 1) (JInt 1) []
                = (inl (MarkupError message), [])).
Proof. split; eexists; vm_compute; reflexivity. Qed.

(** C4, amended. For the two known models and all int token counts whose
    quotients by 1000 are floats [a] and [b] (the division does not
    overflow), the cost returned is [a * input_price + b * output_price]
    with the prices of the model, and nothing is printed; with prices 0.005
    and 0.015 and 1000 tokens each it is 0.02. For any other model string,
    when debug logging is off or Rich renders the debug line that names the
    model, the result is 0.0 whatever the token counts are (ints or not), no
    exception is raised, and the only effect is that line. *)
Theorem calculate_cost_correct (cfg : Config) (model : str)
    (p c : Z) (a b : float) (pt ct : json) (t : trace) :
  (int_truediv p 1000 = inr a → int_truediv c 1000 = inr b →
   calculate_cost cfg (py "grok-3-beta") (JInt p) (JInt c) t
   = (inr (a * GROK_3_BETA_INPUT_PRICE_PER_1K cfg
           + b * GROK_3_BETA_OUTPUT_PRICE_PER_1K cfg)%float, t)
   ∧ calculate_cost cfg (py "grok-3-mini-beta") (JInt p) (JInt c) t
     = (inr (a * GROK_3_MINI_BETA_INPUT_PRICE_PER_1K cfg
             + b * GROK_3_MINI_BETA_OUTPUT_PRICE_PER_1K cfg)%float, t))
  ∧ (GROK_3_BETA_INPUT_PRICE_PER_1K cfg = 0.005%float →
     GROK_3_BETA_OUTPUT_PRICE_PER_1K cfg = 0.015%float →
     calculate_cost cfg (py "grok-3-beta") (JInt 1000) (JInt 1000) t
     = (inr 0.02%float, t))
  ∧ (model ≠ py "grok-3-beta" → model ≠ py "grok-3-mini-beta" →
     logs cfg [[Lit "Unknown model '"; PStr model;
                Lit "' for cost calculation, using $0.0"]] →
     calculate_cost cfg model pt ct t
     = (inr 0%float,
        t ++ debug_lines cfg [Lit "Unknown model '"; PStr model;
                              Lit "' for cost calculation, using $0.0"])).
Proof.
  split; [|split].
  - intros Ha Hb. split.
    + rewrite (calculate_cost_known cfg (py "grok-3-beta") _ _ p c t eq_refl).
      by rewrite (cost_formula_returns _ _ p c a b).
    + rewrite (calculate_cost_known cfg (py "grok-3-mini-beta") _ _ p c t eq_refl).
      by rewrite (cost_formula_returns _ _ p c a b).
  - intros Hi Ho. rewrite (calculate_cost_known cfg _ 0.005%float 0.015%float).
    + assert (cost_formula 0.005 0.015 1000 1000 = inr 0.02%float) as ->
        by (vm_compute; reflexivity).
      done.
    + cbn. rewrite Hi, Ho. done.
  - intros H1 H2 Hlog. unfold calculate_cost.
    rewrite (str_eqb_neq _ _ H1), (str_eqb_neq _ _ H2).
    unfold bind. rewrite debug_log_run by exact Hlog. done.
Qed.

Lemma calculate_cost_correct_witness :
  (calculate_cost (default_config None) (py "grok-3-beta") (JInt 2000) (JInt 500) []
   = (inr (2 * 0.005 + 0.5 * 0.015)%float, [])
   ∧ calculate_cost (default_config None) (py "grok-3-mini-beta") (JInt 2000) (JInt 500) []
     = (inr (2 * 0.002 + 0.5 * 0.006)%float, []))
  ∧ calculate_cost (default_config None) (py "grok-3-beta") (JInt 1000) (JInt 1000) []
    = (inr 0.02%float, [])
  ∧ calculate_cost (default_config None) (py "gpt") (JInt 7) JNull []
    = (inr 0%float,
       debug_lines (default_config None)
         [Lit "Unknown model '"; PStr (py "gpt");
          Lit "' for cost calculation, using $0.0"]).
Proof.
  pose proof (calculate_cost_correct (default_config None) (py "gpt")
                2000 500 2%float 0.5%float (JInt 7) JNull []) as (Hk & Hex & Hun).
  split; [|split].
  - apply Hk; vm_compute; reflexivity.
  - apply Hex; reflexivity.
  - apply Hun; [vm_compute; discriminate|vm_compute; discriminate|].
    intros _. constructor; [vm_compute; reflexivity|constructor].
Defined.

Lemma non_streaming_prologue_run cfg prompt model t :
  logs cfg (prologue_messages cfg prompt model) →
  non_streaming_prologue cfg prompt model t
  = (inr tt, (non_streaming_prologue cfg prompt model t).2).
Proof.
  intros H. unfold non_streaming_prologue, bind. logged H. logged H. done.
Qed.

Lemma make_non_streaming_call_run json_loads cfg net prompt model t :
  logs cfg (prologue_messages cfg prompt model) →
  make_non_streaming_call json_loads cfg net prompt model t
  = try_except (non_streaming_body json_loads cfg net (payload cfg prompt model false))
               (non_streaming_handler cfg)
               (non_streaming_prologue cfg prompt model t).2.
Proof.
  intros H. unfold make_non_streaming_call.
  erewrite bind_ret_run by (by apply non_streaming_prologue_run). done.
Qed.

(** A call that returns has passed its prologue. *)
Lemma make_non_streaming_call_inv json_loads cfg net prompt model t r t' :
  make_non_streaming_call json_loads cfg net prompt model t = (inr r, t') →
  try_except (non_streaming_body json_loads cfg net (payload cfg prompt model false))
             (non_streaming_handler cfg)
             (non_streaming_prologue cfg prompt model t).2 = (inr r, t').
Proof.
  unfold make_non_streaming_call, bind.
  destruct (non_streaming_prologue cfg prompt model t) as [[e|[]] t0]; done.
Qed.

(** The handlers: what each prints and returns when its lines render. *)
Lemma non_streaming_handler_run cfg e cls t :
  failure_class_of e = Some cls → reports cfg e →
  ∃ h, non_streaming_handler cfg e = Some h
       ∧ h t = (inr NONE3, t ++ flat_map (debug_lines cfg) (handler_messages e)
                             ++ [Print (Text (failure_message e))]).
Proof.
  assert (Hrun : ∀ l (e0 : exn),
    logs cfg [l] → renders cfg (Text (failure_message e0)) →
    (debug_log cfg l ;;; console_print_markup cfg (Text (failure_message e0)) ;;; ret NONE3) t
    = (inr NONE3, t ++ (debug_lines cfg l ++ []) ++ [Print (Text (failure_message e0))])).
  { intros l e0 Hl Hr. unfold bind. rewrite debug_log_run by exact Hl.
    rewrite console_print_markup_run by exact Hr.
    rewrite app_nil_r, <- app_assoc. done. }
  intros H [Hl Hr]. destruct e; try done; cbn [non_streaming_handler].
  - eexists. split; [reflexivity|]. done.
  - eexists. split; [reflexivity|]. apply Hrun; [exact Hl|by apply Hr].
  - eexists. split; [reflexivity|]. apply Hrun; [exact Hl|by apply Hr].
  - eexists. split; [reflexivity|]. apply Hrun; [exact Hl|by apply Hr].
Qed.

(** A handler that returns, returns the triple of [None]s. *)
Lemma non_streaming_handler_inr cfg e h t r t' :
  non_streaming_handler cfg e = Some h → h t = (inr r, t') → r = NONE3.
Proof.
  destruct e; cbn [non_streaming_handler]; intros [= <-]; unfold bind;
    repeat match goal with
    | |- context [debug_log ?c ?l ?t0] => destruct (debug_log c l t0) as [[?|[]] ?]
    | |- context [console_print_markup ?c ?o ?t0] =>
        destruct (console_print_markup c o t0) as [[?|[]] ?]
    | |- context [console_print ?o ?t0] => unfold console_print, emit
    end; try done; by intros [= <- _].
Qed.

(** Each class has a message of its own. *)
Lemma failure_message_distinct e e' cls cls' :
  failure_class_of e = Some cls → failure_class_of e' = Some cls' →
  cls ≠ cls' → failure_message e ≠ failure_message e'.
Proof.
  destruct e, e'; cbn; intros [= <-] [= <-] Hne; try done.
Qed.

(** A failure of [client.post] is a failure of the body. *)
Lemma non_streaming_body_post_raises json_loads cfg net pl e t :
  logs cfg [[Lit "Sending POST request"]] →
  post net pl = PostRaises e →
  non_streaming_body json_loads cfg net pl t
  = (inl e, t ++ debug_lines cfg [Lit "Sending POST request"] ++ [HttpPost pl]).
Proof.
  intros Hl H. unfold non_streaming_body, bind. rewrite debug_log_run by exact Hl.
  cbn [emit]. rewrite H. cbn [raise]. rewrite <- app_assoc. done.
Qed.

(** What the handlers do with what they catch.  When the body of the [try]
    fails with a user interrupt, an HTTP status error, a network error or
    any other [Exception], at whatever point, and Rich renders the lines
    of the [except] clause, the call returns [(None, None, None)], having
    printed after what was printed so far the line of that class (preceded
    by a line of [debug_log] when debug logging is on); the lines of two
    different classes are different messages. *)
Lemma make_non_streaming_call_caught json_loads cfg net prompt model t t' e cls :
  logs cfg (prologue_messages cfg prompt model) →
  non_streaming_body json_loads cfg net (payload cfg prompt model false)
    (non_streaming_prologue cfg prompt model t).2 = (inl e, t') →
  failure_class_of e = Some cls →
  reports cfg e →
  make_non_streaming_call json_loads cfg net prompt model t
  = (inr NONE3, t' ++ flat_map (debug_lines cfg) (handler_messages e)
                   ++ [Print (Text (failure_message e))])
  ∧ failure_message e ≠ []
  ∧ (∀ e' cls', failure_class_of e' = Some cls' → cls' ≠ cls →
                failure_message e' ≠ failure_message e).
Proof.
  intros Hp Hbody Hcls Hrep. split; [|split].
  - destruct (non_streaming_handler_run cfg e cls t' Hcls Hrep) as (h & Hh & Hrun).
    rewrite make_non_streaming_call_run by exact Hp. unfold try_except.
    rewrite Hbody, Hh. done.
  - destruct e; done.
  - intros e' cls' Hcls' Hne. eapply failure_message_distinct; done.
Qed.

(** C5 fails on the code. With debug logging off, an answer with status
    404 whose body is [see [/docs]] is caught as an HTTP status error, and
    the [except] clause puts the body into the text it prints: Rich raises
    [MarkupError] on the closing tag, nothing is printed, and the exception
    leaves [make_non_streaming_call] instead of the triple of [None]s.
    With the body [not found] the same call returns the triple. *)
Theorem make_non_streaming_call_failure :
  (∃ message,
     make_non_streaming_call sample_loads (without_debug (default_config None)) net_docs
       (py "hi") (py "grok-3-beta") []
     = (inl (MarkupError message),
        [HttpPost (payload (default_config None) (py "hi") (py "grok-3-beta") false)]))
  ∧ make_non_streaming_call sample_loads (without_debug (default_config None)) net_404
      (py "hi") (py "grok-3-beta") []
    = (inr NONE3,
       [HttpPost (payload (default_config None) (py "hi") (py "grok-3-beta") false);
        Print (Text (failure_message (HTTPStatusError 404 (py "not found"))))]).
Proof. split; [eexists|]; vm_compute; reflexivity. Qed.

Ltac run_inv :=
  repeat match goal with
  | H : bind _ _ _ = (inr _, _) |- _ =>
      apply bind_inr_inv in H as (? & ? & ? & H)
  | H : debug_log _ _ _ = (inr _, _) |- _ =>
      apply debug_log_inr in H as [_ ->]
  | H : lift _ _ = (inr _, _) |- _ =>
      apply lift_inr_inv in H as [H ->]
  | H : emit _ _ = (inr _, _) |- _ =>
      unfold emit in H; injection H as _ <-
  | H : ret _ _ = (inr _, _) |- _ =>
      unfold ret in H; injection H as <- <-
  | H : raise _ _ = (inr _, _) |- _ => discriminate H
  end.

(** The body of the [try], read backwards from its result. *)
Lemma non_streaming_body_inv json_loads cfg net pl t t' content reasoning tokens :
  non_streaming_body json_loads cfg net pl t = (inr (content, reasoning, tokens), t') →
  ∃ response data choices choice message raw_content raw_reasoning,
    post net pl = PostReturns response
    ∧ is_success (status_code response) = true
    ∧ json_loads (text response) = inr data
    ∧ py_item data "choices" = inr choices
    ∧ py_first choices = inr choice
    ∧ py_item choice "message" = inr message
    ∧ py_get message "content" (JStr []) = inr raw_content
    ∧ py_get message "reasoning_content" (JStr []) = inr raw_reasoning
    ∧ clean_response_value raw_content = inr content
    ∧ clean_response_value raw_reasoning = inr reasoning
    ∧ py_get data "usage" (JDict ∅) = inr tokens.
Proof.
  unfold non_streaming_body. intros H. run_inv.
  destruct (post net pl) as [e|response] eqn:Hpost; run_inv.
  destruct (is_success (status_code response)) eqn:Hok; run_inv.
  subst. eexists _, _, _, _, _, _, _. repeat split; (reflexivity || eassumption).
Qed.



(** The total the API reported is returned, not the sum of the counts. *)
Lemma usage_not_recomputed :
  (make_non_streaming_call sample_loads (default_config None) net_up
     (py "hi") (py "grok-3-beta") []).1
  = inr (JStr (py "Hello there"), JStr [], sample_usage)
  ∧ py_get sample_usage "total_tokens" (JInt 0) = inr (JInt 5)
  ∧ py_get (override_total_tokens sample_usage) "total_tokens" (JInt 0) = inr (JInt 3).
Proof. vm_compute. done. Qed.

(** ** make_streaming_call *)

Lemma yields_app t u : yields (t ++ u) = yields t ++ yields u.
Proof. unfold yields. apply flat_map_app. Qed.

Lemma yields_debug cfg message : yields (debug_lines cfg message) = [].
Proof. unfold debug_lines. destruct (DEBUG_LOGGING cfg); reflexivity. Qed.

Lemma py_item_get data key choices default :
  py_item data key = inr choices → py_get data key default = inr choices.
Proof.
  destruct data; try done. cbn [py_item py_get].
  destruct (_ !! _); congruence.
Qed.

Lemma stream_line_yields json_loads cfg chunk frag t :
  line_yields json_loads chunk frag → line_logs json_loads cfg chunk →
  ∃ t', stream_line json_loads cfg chunk t = (inr tt, t')
        ∧ yields t' = yields t ++ frag.
Proof.
  intros H Hlog. unfold stream_line.
  destruct H as [chunk Hp| |chunk data choices choice delta content Hp Hne Hd Hch Ht Hf Hdelta Hc
                |chunk data choices Hp Hne Hd Hch Ht
                |chunk data choices choice delta Hp Hne Hd Hch Ht Hf Hdelta Hc].
  - rewrite Hp. exists t. rewrite app_nil_r. done.
  - exists t. rewrite app_nil_r. done.
  - rewrite Hp, (str_eqb_neq _ _ Hne). cbn [andb negb].
    unfold bind. rewrite Hd. cbn [lift ret].
    rewrite debug_log_run by (by apply Hlog).
    rewrite (py_item_get _ _ _ JNull Hch). cbn [lift ret]. rewrite Ht, Hch. cbn [lift ret].
    rewrite Hf. cbn [lift ret]. rewrite Hdelta. cbn [lift ret py_get].
    rewrite Hc. cbn [emit]. eexists. split; [reflexivity|].
    rewrite !yields_app, yields_debug, app_nil_r. done.
  - rewrite Hp, (str_eqb_neq _ _ Hne). cbn [andb negb].
    unfold bind. rewrite Hd. cbn [lift ret].
    rewrite debug_log_run by (by apply Hlog).
    rewrite Hch. cbn [lift ret]. rewrite Ht. cbn [ret]. eexists. split; [reflexivity|].
    rewrite !yields_app, yields_debug, !app_nil_r. done.
  - rewrite Hp, (str_eqb_neq _ _ Hne). cbn [andb negb].
    unfold bind. rewrite Hd. cbn [lift ret].
    rewrite debug_log_run by (by apply Hlog).
    rewrite (py_item_get _ _ _ JNull Hch). cbn [lift ret]. rewrite Ht, Hch. cbn [lift ret].
    rewrite Hf. cbn [lift ret]. rewrite Hdelta. cbn [lift ret py_get].
    rewrite Hc. cbn [emit]. eexists. split; [reflexivity|].
    rewrite !yields_app, yields_debug, app_nil_r. done.
Qed.

Lemma stream_lines_yields json_loads cfg chunks frags :
  Forall2 (line_yields json_loads) chunks frags →
  Forall (line_logs json_loads cfg) chunks →
  ∀ t, ∃ t', stream_lines json_loads cfg (List.map WireLine chunks) t = (inr tt, t')
             ∧ yields t' = yields t ++ concat frags.
Proof.
  induction 1 as [|chunk frag chunks frags Hline _ IH]; intros Hlogs t.
  - exists t. cbn. rewrite app_nil_r. done.
  - inversion Hlogs as [|? ? Hlog Hlogs']; subst.
    destruct (stream_line_yields json_loads cfg chunk frag t Hline Hlog) as (t1 & Hrun & Hy).
    destruct (IH Hlogs' t1) as (t2 & Hrun2 & Hy2).
    exists t2. cbn [List.map stream_lines concat]. unfold bind at 1.
    rewrite Hrun, Hrun2, Hy2, Hy, app_assoc. done.
Qed.

Lemma streaming_prologue_run cfg prompt model t :
  logs cfg (streaming_prologue_messages cfg prompt model) →
  streaming_prologue cfg prompt model t
  = (inr tt, (streaming_prologue cfg prompt model t).2).
Proof.
  intros H. unfold streaming_prologue, bind. logged H. logged H. done.
Qed.

Lemma make_streaming_call_run json_loads cfg net prompt model t :
  logs cfg (streaming_prologue_messages cfg prompt model) →
  make_streaming_call json_loads cfg net prompt model t
  = try_except (streaming_body json_loads cfg net (payload cfg prompt model true))
               (streaming_handler cfg)
               (streaming_prologue cfg prompt model t).2.
Proof.
  intros H. unfold make_streaming_call.
  erewrite bind_ret_run by (by apply streaming_prologue_run). done.
Qed.

Lemma yields_streaming_prologue cfg prompt model t :
  yields (streaming_prologue cfg prompt model t).2 = yields t.
Proof.
  unfold streaming_prologue, bind.
  destruct (debug_log _ _ t) as [[e|[]] t0] eqn:Hd.
  - by apply debug_log_inl in Hd as [_ ->].
  - apply debug_log_inr in Hd as [_ ->].
    destruct (debug_log _ _ _) as [[e|[]] t1] eqn:Hd1.
    + apply debug_log_inl in Hd1 as [_ ->]. cbn [snd].
      by rewrite yields_app, yields_debug, app_nil_r.
    + apply debug_log_inr in Hd1 as [_ ->]. cbn [snd].
      by rewrite !yields_app, !yields_debug, !app_nil_r.
Qed.

Lemma logs_app_l cfg a b : logs cfg (a ++ b) → logs cfg a.
Proof. intros H Hd. specialize (H Hd). by apply List.Forall_app in H as [H _]. Qed.

(** The frames of the sample stream. *)
Lemma sample_frame_yields json_loads chunk content :
  startswith DATA_PREFIX chunk = true → chunk ≠ DONE →
  json_loads (drop 6 chunk) = inr (sample_frame content) →
  line_yields json_loads chunk [JStr content].
Proof.
  intros Hp Hne Hl.
  apply (yields_content json_loads chunk (sample_frame content)
           (JList [sample_choice content]) (sample_choice content)
           (sample_delta content) (JStr content) Hp Hne Hl).
  - unfold py_item, sample_frame. rewrite lookup_insert_eq. reflexivity.
  - reflexivity.
  - reflexivity.
  - unfold py_item, sample_choice. rewrite lookup_insert_eq. reflexivity.
  - unfold sample_delta. apply lookup_insert_eq.
Qed.

(** C7 fails on the code. With debug logging on, as it is by default, a
    data line whose delta content is [[/b]] is a line the claim has yield
    that content; the code prints the decoded frame as a debug line first,
    Rich raises [MarkupError] on the closing tag, the [except] clause that
    catches it raises the same way on the error text, and the generator
    ends with the exception, having yielded nothing. With debug logging
    off the same line yields its content. *)
Theorem make_streaming_call_yields :
  line_yields tag_loads (py "data: frame") [JStr (py "[/b]")]
  ∧ (∃ message t',
       make_streaming_call tag_loads (default_config None) net_docs
         (py "hi") (py "grok-3-beta") [] = (inl (MarkupError message), t')
       ∧ yields t' = [])
  ∧ (∃ t', make_streaming_call tag_loads (without_debug (default_config None)) net_docs
             (py "hi") (py "grok-3-beta") [] = (inr tt, t')
           ∧ yields t' = [JStr (py "[/b]")]).
Proof.
  split; [|split].
  - apply sample_frame_yields; [vm_compute; reflexivity|vm_compute; discriminate|reflexivity].
  - eexists _, _. split; vm_compute; reflexivity.
  - eexists. split; vm_compute; reflexivity.
Qed.

(** ** The render pipeline *)

Lemma m_end_suffixing : suffixing m_end.
Proof. intros s rest [= <-]. by exists []. Qed.

Lemma m_lit_suffixing lit k : suffixing k → suffixing (m_lit lit k).
Proof.
  intros Hk. induction lit as [|a lit IH]; intros s rest; cbn [m_lit]; [apply Hk|].
  destruct s as [|c r]; [done|]. destruct (a =? c); [|done].
  intros (pre & ->)%IH. by exists (c :: pre).
Qed.

Lemma m_lazy_suffixing p k : suffixing k → suffixing (m_lazy p k).
Proof.
  intros Hk s. induction s as [|c r IH]; intros rest; cbn [m_lazy].
  - destruct (k []) eqn:E; [|done]. intros [= <-]. by apply Hk.
  - destruct (k (c :: r)) eqn:E; [intros [= <-]; by apply Hk|].
    destruct (p c); [|done]. intros (pre & ->)%IH. by exists (c :: pre).
Qed.

Lemma fence_re_suffixing : suffixing fence_re.
Proof. apply m_lit_suffixing, m_lazy_suffixing, m_lit_suffixing, m_end_suffixing. Qed.

Lemma m_lit_shrinking a lit k : bounded k → shrinking (m_lit (a :: lit) k).
Proof.
  intros Hk. assert (Hb : ∀ l, bounded (m_lit l k)).
  { induction l as [|b l IH]; [exact Hk|]. intros [|c r] rest; cbn [m_lit]; [done|].
    destruct (b =? c); [|done]. intros H%IH. cbn [length]. lia. }
  intros [|c r] rest; cbn [m_lit]; [done|]. destruct (a =? c); [|done].
  intros H%Hb. cbn [length]. lia.
Qed.

Lemma fence_re_shrinking : shrinking fence_re.
Proof.
  apply m_lit_shrinking. intros s rest (pre & ->)%m_lazy_suffixing.
  - rewrite length_app. lia.
  - apply m_lit_suffixing, m_end_suffixing.
Qed.

(** The steps suffice for the split as well. *)
Lemma re_split_from_enough m :
  shrinking m →
  ∀ n n' cur s, (length s < n)%nat → (length s < n')%nat →
                re_split_from m n cur s = re_split_from m n' cur s.
Proof.
  intros Hm. induction n as [|n IH]; intros n' cur s Hn Hn'; [lia|].
  destruct n' as [|n']; [lia|].
  destruct s as [|c r]; [done|]. cbn [re_split_from].
  destruct (m (c :: r)) as [rest|] eqn:E.
  - apply Hm in E. cbn [length] in *. do 2 f_equal. apply IH; lia.
  - cbn [length] in *. apply IH; lia.
Qed.

(** The parts are the document, cut. *)
Lemma concat_re_split_from m n cur s :
  suffixing m → concat (re_split_from m n cur s) = cur ++ s.
Proof.
  intros Hm. revert cur s. induction n as [|n IH]; intros cur s.
  - cbn. by rewrite app_nil_r.
  - destruct s as [|c r]; [cbn; by rewrite !app_nil_r|]. cbn [re_split_from].
    destruct (m (c :: r)) as [rest|] eqn:E.
    + destruct (Hm _ _ E) as [pre Hpre]. rewrite Hpre.
      cbn [concat]. rewrite IH. cbn [app]. f_equal.
      rewrite length_app, Nat.add_sub, take_app_length. done.
    + rewrite IH, <- app_assoc. done.
Qed.

Lemma concat_re_split m s : suffixing m → concat (re_split m s) = s.
Proof. intros Hm. unfold re_split. by rewrite concat_re_split_from. Qed.

(** A part is rendered whatever was printed before. *)
Lemma render_part_run part t :
  render_part part t = (inr tt, t ++ (render_part part []).2).
Proof.
  unfold render_part. destruct (is_code_part part).
  - cbv zeta.
    match goal with |- context [Syntax ?code ?lang _] =>
      generalize lang; generalize code end.
    intros code lang.
    destruct code; unfold bind, console_print, emit, ret; cbn;
      rewrite ?app_nil_r, <- ?app_assoc; reflexivity.
  - destruct (strip (clean_response part));
      unfold bind, console_print, emit, ret; cbn;
      rewrite ?app_nil_r; reflexivity.
Qed.

Lemma for_each_render parts t :
  for_each render_part parts t
  = (inr tt, t ++ flat_map (fun part => (render_part part []).2) parts).
Proof.
  revert t. induction parts as [|p parts IH]; intros t.
  - cbn. by rewrite app_nil_r.
  - cbn [for_each flat_map]. unfold bind.
    rewrite render_part_run, IH, app_assoc. done.
Qed.

(** C8. The document "before", a fenced block tagged python with body
    print(1), "after" is cut into three parts and rendered as three
    segments in that order: prose "before", code (python, print(1)), prose
    "after". For every response, the parts are the response cut in order
    (concatenated they give it back), and what is rendered is what each
    part renders, one part after the other. *)
Theorem render_in_document_order :
  let doc := py "before" ++ [NL] ++ py "```python" ++ [NL] ++ py "print(1)"
             ++ [NL] ++ py "```" ++ [NL] ++ py "after" in
  re_split fence_re doc
  = [py "before" ++ [NL];
     py "```python" ++ [NL] ++ py "print(1)" ++ [NL] ++ py "```";
     [NL] ++ py "after"]
  ∧ render_response doc []
    = (inr tt, [Print (Markdown (JStr (py "before")) "blue");
                Print (Syntax (py "print(1)") (py "python") "monokai");
                Print Blank;
                Print (Markdown (JStr (py "after")) "blue")])
  ∧ rendered_segments (render_response doc []).2
    = [Prose (py "before"); Code (py "python") (py "print(1)"); Prose (py "after")]
  ∧ (∀ response t,
       concat (re_split fence_re response) = response
       ∧ render_response response t
         = (inr tt, t ++ flat_map (fun part => (render_part part []).2)
                                  (re_split fence_re response))).
Proof.
  split; [vm_compute; reflexivity|].
  split; [vm_compute; reflexivity|].
  split; [vm_compute; reflexivity|].
  intros response t. split.
  - apply concat_re_split, fence_re_suffixing.
  - apply for_each_render.
Qed.

(** ** The interactive loop *)

Lemma same_letter_lower unicode_lower a w :
  same_letter a w = true → 97 ≤ w → w ≤ 122 →
  (if (65 <=? a) && (a <=? 90) then [a + 32]
   else if a <? 128 then [a] else unicode_lower a) = [w].
Proof.
  unfold same_letter. intros H Hlo Hhi.
  apply orb_true_iff in H as [H|H].
  - apply N.eqb_eq in H as ->.
    replace (w <=? 90) with false by (symmetry; apply N.leb_gt; lia).
    rewrite andb_false_r.
    replace (w <? 128) with true by (symmetry; apply N.ltb_lt; lia). done.
  - apply andb_true_iff in H as [H Hw]. rewrite H.
    apply N.eqb_eq in Hw as ->. done.
Qed.

Lemma lower_any_case unicode_lower word s :
  Forall (fun w => 97 ≤ w ∧ w ≤ 122) word →
  any_case word s = true → lower unicode_lower s = word.
Proof.
  intros Hword. revert s. induction Hword as [|w word [Hlo Hhi] _ IH]; intros s.
  - destruct s; done.
  - destruct s as [|c s]; [done|]. cbn [any_case].
    intros [Hc Hs]%andb_true_iff. unfold lower in *. cbn [flat_map].
    rewrite (same_letter_lower unicode_lower c w), IH; done.
Qed.

Lemma lower_exit unicode_lower s :
  any_case (py "exit") s = true → lower unicode_lower s = py "exit".
Proof.
  apply lower_any_case. repeat constructor; done.
Qed.

(** C9. When the trimmed input line is "exit" in any letter case, the
    turn prints the prompt and "Exiting chat." and ends in [Exited]: it
    sends no request (neither API call is made), and the loop stops there
    whatever inputs would follow. *)
Theorem exit_without_dispatch
    (json_loads : str → exn + json) (unicode_lower : N → str)
    (cfg : Config) (streaming : bool) (model : str) (net : Network)
    (input : str) (rest : list (input_event * Network)) (t : trace) :
  any_case (py "exit") (strip input) = true →
  let t' := t ++ [Print (TextNoEnd [Lit "[green]>>> [/green]"]);
                  Print (Text [Lit "[yellow]Exiting chat.[/yellow]"])] in
  turn json_loads unicode_lower cfg streaming model (InputLine input) net t
  = (inr Exited, t')
  ∧ requests t' = requests t
  ∧ interactive_loop json_loads unicode_lower cfg streaming model
      ((InputLine input, net) :: rest) t
    = (inr Exited, t').
Proof.
  intros H t'.
  assert (Hturn : turn json_loads unicode_lower cfg streaming model
                    (InputLine input) net t = (inr Exited, t')).
  { unfold turn, try_except, turn_body, bind. cbn [console_print emit ret].
    rewrite (lower_exit unicode_lower _ H).
    change (str_eqb (py "exit") (py "exit")) with true. cbn [emit ret].
    unfold t'. rewrite <- app_assoc. done. }
  split; [exact Hturn|]. split.
  - unfold t', requests. rewrite List.filter_app. cbn. by rewrite app_nil_r.
  - cbn [interactive_loop]. unfold bind. rewrite Hturn. done.
Qed.

Lemma exit_without_dispatch_witness :
  let t' := [Print (TextNoEnd [Lit "[green]>>> [/green]"]);
             Print (Text [Lit "[yellow]Exiting chat.[/yellow]"])] in
  turn sample_loads (fun c => [c]) (default_config None) false (py "grok-3-beta")
    (InputLine (py "  ExIt ")) net_up []
  = (inr Exited, t')
  ∧ requests t' = requests []
  ∧ interactive_loop sample_loads (fun c => [c]) (default_config None) false
      (py "grok-3-beta")
      [(InputLine (py "  ExIt "), net_up); (InputLine (py "hello"), net_up)] []
    = (inr Exited, t').
Proof.
  apply (exit_without_dispatch sample_loads (fun c => [c]) (default_config None)
           false (py "grok-3-beta") net_up (py "  ExIt ")
           [(InputLine (py "hello"), net_up)] []).
  reflexivity.
Defined.

(** ** Segments that are taken for code *)

Lemma startswith_inv a s : startswith a s = true → ∃ x, s = a ++ x.
Proof.
  revert s. induction a as [|c a IH]; intros s; [by exists s|].
  destruct s as [|d s]; [done|]. rewrite startswith_cons.
  intros [->%N.eqb_eq [x ->]%IH]%andb_true_iff. by exists x.
Qed.

Lemma endswith_inv a s : endswith a s = true → ∃ x, s = x ++ a.
Proof.
  unfold endswith. intros [y Hy]%startswith_inv. exists (rev y).
  rewrite <- (rev_involutive s), Hy, rev_app_distr, rev_involutive. done.
Qed.

Lemma m_lit_app lit k x : m_lit lit k (lit ++ x) = k x.
Proof.
  induction lit as [|a lit IH]; [done|]. cbn [m_lit app]. by rewrite N.eqb_refl.
Qed.

Lemma m_lazy_reaches k a b rest :
  k b = Some rest → m_lazy (fun _ => true) k (a ++ b) ≠ None.
Proof.
  intros Hb. induction a as [|c a IH].
  - cbn [app]. destruct b; cbn [m_lazy]; by rewrite Hb.
  - cbn [app m_lazy]. destruct (k (c :: a ++ b)); [done|]. exact IH.
Qed.

(** Where the pattern finds no block, the only texts the test of the loop
    takes for code are runs of three to five backticks. *)
Lemma code_part_without_block part :
  is_code_part part = true → fence_re part = None →
  part = py "```" ∨ part = py "````" ∨ part = py "`````".
Proof.
  unfold is_code_part. intros [Hs He]%andb_true_iff Hre.
  apply startswith_inv in Hs as [x Hx]. apply endswith_inv in He as [y Hy].
  unfold fence_re in Hre. rewrite Hx, m_lit_app in Hre.
  assert (Hno : ∀ a, x ≠ a ++ FENCE).
  { intros a ->. eapply m_lazy_reaches; [|exact Hre].
    rewrite <- (app_nil_r FENCE) at 2. rewrite m_lit_app. reflexivity. }
  rewrite Hx in Hy. change FENCE with [96; 96; 96] in *.
  destruct y as [|c [|d [|e r]]]; cbn [app] in Hy.
  - injection Hy as ->. rewrite Hx. left. reflexivity.
  - injection Hy as <- ->. rewrite Hx. right. left. reflexivity.
  - injection Hy as <- <- ->. rewrite Hx. right. right. reflexivity.
  - injection Hy as <- <- <- ->. by destruct (Hno r).
Qed.

(** Any other text is rendered as prose: cleaned, and printed as Markdown
    unless it is blank. *)
Lemma prose_part_rendered part t :
  is_code_part part = false →
  render_part part t
  = (inr tt, t ++ match strip (clean_response part) with
                  | [] => []
                  | _ => [Print (Markdown (JStr (clean_response part)) "blue")]
                  end).
Proof.
  intros H. unfold render_part. rewrite H.
  destruct (strip (clean_response part));
    unfold console_print, emit, ret; cbn; rewrite ?app_nil_r; reflexivity.
Qed.

(** C10, on the response that is an opening fence and nothing else: the
    pattern finds no block in it (it is one part), the test of the loop
    takes it for code all the same, and nothing is rendered; as prose it
    would have been printed, since cleaning leaves it as it is and it is
    not blank. *)
Theorem lone_fence_taken_for_code :
  re_split fence_re (py "```") = [py "```"]
  ∧ fence_re (py "```") = None
  ∧ is_code_part (py "```") = true
  ∧ (∀ t, render_response (py "```") t = (inr tt, t))
  ∧ clean_response (py "```") = py "```"
  ∧ strip (clean_response (py "```")) ≠ [].
Proof.
  split; [vm_compute; reflexivity|].
  split; [vm_compute; reflexivity|].
  split; [vm_compute; reflexivity|].
  split; [|split; [vm_compute; reflexivity|vm_compute; discriminate]].
  intros t. unfold render_response. rewrite for_each_render.
  replace (re_split fence_re (py "```")) with [py "```"] by (vm_compute; reflexivity).
  cbn [flat_map].
  replace (render_part (py "```") []).2 with (@nil effect) by (vm_compute; reflexivity).
  by rewrite !app_nil_r.
Qed.

(* ================================================================== *)
(** * Further properties of [clean_response] *)
(* ================================================================== *)

(** ** Only whitespace changes *)

Lemma visible_cons c s :
  visible (c :: s) = if is_space c then visible s else c :: visible s.
Proof. unfold visible. cbn [List.filter]. destruct (is_space c); done. Qed.

Lemma visible_app a b : visible (a ++ b) = visible a ++ visible b.
Proof. apply List.filter_app. Qed.

Lemma visible_blank w : blank w = true → visible w = [].
Proof.
  induction w as [|c w IH]; [done|]. rewrite blank_cons, visible_cons.
  intros [-> H]%andb_true_iff. auto.
Qed.

Lemma visible_lstrip s : visible (lstrip s) = visible s.
Proof.
  induction s as [|c s IH]; [done|]. rewrite lstrip_cons, visible_cons.
  destruct (is_space c) eqn:E; [done|]. rewrite visible_cons, E. done.
Qed.

Lemma visible_rstrip s : visible (rstrip s) = visible s.
Proof.
  induction s as [|c s IH]; [done|]. rewrite rstrip_cons.
  destruct (blank (c :: s)) eqn:E; [by rewrite (visible_blank (c :: s))|].
  rewrite !visible_cons, IH. done.
Qed.

Lemma visible_strip s : visible (strip s) = visible s.
Proof. unfold strip. rewrite visible_rstrip, visible_lstrip. done. Qed.

Lemma visible_join sep ls :
  blank sep = true → visible (join sep ls) = concat (List.map visible ls).
Proof.
  intros Hsep. induction ls as [|l rest IH]; [done|].
  destruct rest as [|b rest].
  - cbn. by rewrite app_nil_r.
  - rewrite join_cons, !visible_app, IH, (visible_blank sep Hsep). done.
Qed.

(** A substitution that replaces whitespace by whitespace. *)
Lemma visible_re_sub m repl s :
  shrinking m → eats_space m → blank repl = true →
  visible (re_sub m repl s) = visible s.
Proof.
  intros Hm He Hr. induction s as [s IH] using length_induction.
  destruct s as [|c r]; [done|].
  destruct (m (c :: r)) as [rest|] eqn:E.
  - rewrite (re_sub_match m repl _ rest Hm E).
    destruct (He _ _ E) as (w & Hw & Hb). rewrite Hw.
    rewrite !visible_app, (visible_blank repl Hr), (visible_blank w Hb).
    apply IH. apply Hm in E. done.
  - rewrite (re_sub_skip m repl c r Hm E), !visible_cons, IH; [done|].
    cbn [length]. lia.
Qed.

Lemma drop_while_split (p : N → bool) s :
  ∃ w, s = w ++ drop_while p s ∧ forallb p w = true.
Proof.
  induction s as [|c s (w & Hw & Hb)]; [by exists []|]. cbn [drop_while].
  destruct (p c) eqn:E; [|by exists []].
  exists (c :: w). cbn. rewrite E, Hb. split; [congruence|done].
Qed.

Lemma spaces_re_eats_space : eats_space spaces_re.
Proof.
  intros [|c r] rest; [done|]. rewrite spaces_re_cons.
  destruct (is_space c) eqn:E; [|done]. intros [= <-].
  destruct (drop_while_split is_space r) as (w & Hw & Hb).
  exists (c :: w). split; [cbn; unfold lstrip; congruence|].
  rewrite blank_cons, E. exact Hb.
Qed.

Lemma gap_eats_space : eats_space gap.
Proof.
  intros s. induction s as [|c r IH]; intros rest; [done|].
  rewrite gap_cons, nl_plus_cons.
  assert (Hlast : (if is_nl c then Some (drop_while is_nl r) else None) = Some rest →
                  ∃ w, c :: r = w ++ rest ∧ blank w = true).
  { destruct (is_nl c) eqn:Hc; [|done]. intros [= <-].
    destruct (drop_while_split is_nl r) as (w & Hw & Hb).
    exists (c :: w). split; [cbn; congruence|].
    rewrite blank_cons, (is_nl_space c Hc). cbn [andb].
    clear -Hb. induction w as [|a w IH]; [done|]. cbn in Hb.
    apply andb_true_iff in Hb as [Ha Hb]. rewrite blank_cons, (is_nl_space a Ha). auto. }
  destruct (is_space c) eqn:Hsp; [|exact Hlast].
  destruct (gap r) as [x|] eqn:Hg; [|exact Hlast].
  intros [= <-]. destruct (IH x eq_refl) as (w & Hw & Hb).
  exists (c :: w). split; [cbn; congruence|]. rewrite blank_cons, Hsp. exact Hb.
Qed.

Lemma blank_lines_re_eats_space : eats_space blank_lines_re.
Proof.
  intros [|c r] rest; [done|]. rewrite blank_lines_re_cons.
  destruct (is_nl c) eqn:Hc; [|done]. intros (w & Hw & Hb)%gap_eats_space.
  exists (c :: w). split; [cbn; congruence|].
  rewrite blank_cons, (is_nl_space c Hc). exact Hb.
Qed.

Lemma visible_clean_line l : visible (clean_line l) = visible l.
Proof.
  unfold clean_line. destruct (negb _); rewrite visible_strip; [|done].
  apply visible_re_sub; [apply spaces_re_shrinking|apply spaces_re_eats_space|done].
Qed.

Lemma visible_clean_response s : visible (clean_response s) = visible s.
Proof.
  rewrite clean_response_eq, visible_strip, visible_join by done.
  rewrite List.map_map.
  rewrite (map_ext _ visible visible_clean_line).
  rewrite <- (visible_join [NL]) by done.
  rewrite join_split. fold (squeeze (strip s)). unfold squeeze.
  rewrite visible_re_sub;
    [apply visible_strip|apply blank_lines_re_shrinking
    |apply blank_lines_re_eats_space|done].
Qed.

(** X1. Cleaning changes whitespace only: the characters of the text that
    are not whitespace are the same, in the same order, before and after. *)
Theorem clean_response_keeps_visible (s : str) :
  visible (clean_response s) = visible s.
Proof. apply visible_clean_response. Qed.

(** ** Never longer *)

Lemma length_re_sub m repl s :
  eats_at_least (length repl) m → (0 < length repl)%nat →
  (length (re_sub m repl s) ≤ length s)%nat.
Proof.
  intros He Hpos.
  assert (Hm : shrinking m) by (intros x rest E%He; lia).
  induction s as [s IH] using length_induction.
  destruct s as [|c r]; [done|].
  destruct (m (c :: r)) as [rest|] eqn:E.
  - rewrite (re_sub_match m repl _ rest Hm E), length_app.
    pose proof (He _ _ E). pose proof (IH rest (Hm _ _ E)). lia.
  - rewrite (re_sub_skip m repl c r Hm E). cbn [length].
    pose proof (IH r). cbn [length] in *. lia.
Qed.

Lemma m_star_shrinking p k : shrinking k → shrinking (m_star p k).
Proof.
  intros Hk s. induction s as [|c r IH]; intros rest.
  - cbn [m_star]. apply Hk.
  - cbn [m_star]. destruct (p c).
    + destruct (m_star p k r) as [x|] eqn:E.
      * intros [= <-]. specialize (IH _ eq_refl). cbn [length]. lia.
      * apply Hk.
    + apply Hk.
Qed.

Lemma blank_lines_re_eats_two : eats_at_least 2 blank_lines_re.
Proof.
  intros [|c r] rest; [done|]. rewrite blank_lines_re_cons.
  destruct (is_nl c); [|done]. intros H. cbn [length].
  assert (Hs : shrinking gap).
  { apply m_star_shrinking, m_char_shrinking, m_star_bounded, m_end_bounded. }
  apply Hs in H. lia.
Qed.

Lemma spaces_re_eats_one : eats_at_least 1 spaces_re.
Proof. intros s rest H%spaces_re_shrinking. lia. Qed.

Lemma length_rstrip s : (length (rstrip s) ≤ length s)%nat.
Proof.
  induction s as [|c s IH]; [done|]. rewrite rstrip_cons.
  destruct (blank (c :: s)); cbn [length]; lia.
Qed.

Lemma length_strip s : (length (strip s) ≤ length s)%nat.
Proof.
  unfold strip. pose proof (length_rstrip (lstrip s)). pose proof (lstrip_length s). lia.
Qed.

Lemma length_clean_line l : (length (clean_line l) ≤ length l)%nat.
Proof.
  unfold clean_line. destruct (negb _); [|apply length_strip].
  pose proof (length_strip (re_sub spaces_re [SP] l)).
  pose proof (length_re_sub spaces_re [SP] l spaces_re_eats_one).
  cbn [length] in *. lia.
Qed.

Lemma length_join_map (f : str → str) sep ls :
  (∀ l, (length (f l) ≤ length l)%nat) →
  (length (join sep (List.map f ls)) ≤ length (join sep ls))%nat.
Proof.
  intros Hf. induction ls as [|l rest IH]; [done|].
  destruct rest as [|b rest]; [apply Hf|].
  cbn [List.map] in *. rewrite !join_cons, !length_app.
  pose proof (Hf l). lia.
Qed.

(** X2. Cleaning never makes a text longer. *)
Theorem clean_response_not_longer (s : str) :
  (length (clean_response s) ≤ length s)%nat.
Proof.
  rewrite clean_response_eq.
  pose proof (length_strip
    (join [NL] (List.map clean_line (split NL (squeeze (strip s)))))) as H1.
  pose proof (length_join_map clean_line [NL] (split NL (squeeze (strip s)))
                length_clean_line) as H2.
  rewrite join_split in H2.
  pose proof (length_re_sub blank_lines_re [NL; NL] (strip s) blank_lines_re_eats_two) as H3.
  pose proof (length_strip s) as H4. fold (squeeze (strip s)) in H3.
  cbn [length] in H3. lia.
Qed.

(** ** Whitespace at the ends *)

Lemma strip_clean_response s : strip (clean_response s) = clean_response s.
Proof.
  destruct (strip s) as [|c r] eqn:E.
  - by rewrite (clean_response_blank s E).
  - assert (Hne : strip s ≠ []) by (rewrite E; done).
    rewrite (clean_response_lines s Hne).
    apply (tidy_stripped _ (cleaned_lines_tidy s Hne)).
Qed.

Lemma clean_response_nil_iff s : clean_response s = [] ↔ blank s = true.
Proof.
  split.
  - intros H. pose proof (visible_clean_response s) as Hv.
    rewrite H in Hv. clear H. induction s as [|c s IH]; [done|].
    rewrite visible_cons in Hv. rewrite blank_cons.
    destruct (is_space c); [auto|done].
  - intros H. apply clean_response_blank, strip_blank, H.
Qed.

(** X3. The cleaned text has no whitespace at its ends, and none of its
    lines has: the text and each of its newline-delimited lines are left
    unchanged by [strip]. *)
Theorem clean_response_stripped (s : str) :
  strip (clean_response s) = clean_response s
  ∧ Forall (fun l => strip l = l) (split NL (clean_response s)).
Proof.
  destruct (strip s) as [|c r] eqn:E.
  - rewrite (clean_response_blank s E). split; [done|]. repeat constructor.
  - assert (Hne : strip s ≠ []) by (rewrite E; done).
    pose proof (cleaned_lines_tidy s Hne) as Ht.
    rewrite (clean_response_lines s Hne). split.
    + apply (tidy_stripped _ Ht).
    + rewrite split_join by (apply tidy_not_nil || apply tidy_free; done).
      eapply Forall_impl; [apply (tidy_clean _ Ht)|].
      intros l. apply clean_fixed_stripped.
Qed.

(** X4. A text made of whitespace only is cleaned to the empty text, and
    only such a text is. *)
Theorem clean_response_empty_iff_blank (s : str) :
  clean_response s = [] ↔ blank s = true.
Proof. apply clean_response_nil_iff. Qed.

(* ================================================================== *)
(** * Further properties of the render pipeline *)
(* ================================================================== *)

Lemma startswith_app a x : startswith a (a ++ x) = true.
Proof. induction a as [|c a IH]; [apply startswith_nil|]. cbn. by rewrite N.eqb_refl. Qed.

Lemma endswith_app a x : endswith a (x ++ a) = true.
Proof. unfold endswith. rewrite rev_app_distr. apply startswith_app. Qed.

Lemma m_lit_inv lit k s rest :
  m_lit lit k s = Some rest → ∃ x, s = lit ++ x ∧ k x = Some rest.
Proof.
  revert s. induction lit as [|a lit IH]; intros s; cbn [m_lit]; [by exists s|].
  destruct s as [|c r]; [done|]. destruct (a =? c) eqn:E; [|done].
  apply N.eqb_eq in E as ->. intros (x & -> & Hk)%IH. by exists x.
Qed.

Lemma m_lazy_inv p k s rest :
  m_lazy p k s = Some rest → ∃ a b, s = a ++ b ∧ k b = Some rest.
Proof.
  induction s as [|c r IH]; cbn [m_lazy].
  - destruct (k []) eqn:E; [|done]. intros [= <-]. by exists [], [].
  - destruct (k (c :: r)) eqn:E; [intros [= <-]; by exists [], (c :: r)|].
    destruct (p c); [|done]. intros (a & b & -> & Hk)%IH. by exists (c :: a), b.
Qed.

(** What the pattern matches: a fence, some text, a fence. *)
Lemma fence_re_inv s rest :
  fence_re s = Some rest → ∃ body, s = FENCE ++ body ++ FENCE ++ rest.
Proof.
  unfold fence_re. intros (x & -> & (a & b & -> & (y & -> & [= <-])%m_lit_inv)%m_lazy_inv)%m_lit_inv.
  by exists a.
Qed.

Lemma matched_block s rest :
  fence_re s = Some rest →
  ∃ body, take (length s - length rest) s = FENCE ++ body ++ FENCE.
Proof.
  intros [body ->]%fence_re_inv. exists body.
  rewrite !app_assoc, length_app, Nat.add_sub, take_app_length. done.
Qed.

Lemma blocks_of_re_split_from n cur s :
  Forall (fun b => ∃ body, b = FENCE ++ body ++ FENCE)
         (blocks_of (re_split_from fence_re n cur s)).
Proof.
  revert cur s. induction n as [|n IH]; intros cur s; [constructor|].
  destruct s as [|c r]; [constructor|]. cbn [re_split_from].
  destruct (fence_re (c :: r)) as [rest|] eqn:E; [|apply IH].
  cbn [blocks_of]. constructor; [|apply IH]. apply matched_block. exact E.
Qed.

(** X5. Every part of the split that the pattern matched is a text between
    two fences, at least six characters long, and the loop takes it for
    code. *)
Theorem matched_parts_are_code (response : str) :
  Forall (fun b => is_code_part b = true ∧ (6 ≤ length b)%nat
                   ∧ ∃ body, b = FENCE ++ body ++ FENCE)
         (blocks_of (re_split fence_re response)).
Proof.
  unfold re_split. eapply Forall_impl; [apply blocks_of_re_split_from|].
  intros b [body ->]. split; [|split; [|by exists body]].
  - unfold is_code_part. rewrite startswith_app.
    rewrite app_assoc, endswith_app. done.
  - rewrite !length_app. cbn. lia.
Qed.

(** X6. A code part is rendered from its trimmed content alone: the first
    line of it, trimmed, is the language, and the lines after it, joined and
    trimmed, are the code, printed as Syntax and followed by a blank line;
    if no code is left nothing is printed. So the first line is never part
    of the code, and the language is the first line itself: the fallback
    "text" is reached only for an empty content, where nothing is printed. *)
Theorem code_part_rendering (part : str) (t : trace) :
  is_code_part part = true →
  render_part part t
  = (inr tt,
     t ++ match split NL (strip (slice_3_minus_3 part)) with
          | first :: rest =>
              match strip (join [NL] rest) with
              | [] => []
              | code => [Print (Syntax code (strip first) "monokai"); Print Blank]
              end
          | [] => []
          end).
Proof.
  intros Hc. unfold render_part. rewrite Hc. cbv zeta.
  destruct (strip (slice_3_minus_3 part)) as [|c r] eqn:E.
  - cbn. by rewrite app_nil_r.
  - pose proof (strip_head _ _ _ E) as Hsp.
    destruct (split_cons_other NL c r (not_space_neq_NL c Hsp)) as (l & ls & _ & ->).
    assert (Hne : strip (c :: l) ≠ []).
    { intros H. assert (Hb : blank (strip (c :: l)) = true) by (rewrite H; done).
      rewrite blank_strip, blank_cons, Hsp in Hb. done. }
    destruct (strip (c :: l)) as [|x xs] eqn:E1; [done|].
    change (drop 1 ((c :: l) :: ls)) with ls.
    destruct (strip (join [NL] ls)); unfold bind, console_print, emit, ret; cbn;
      rewrite ?app_nil_r, <- ?app_assoc; reflexivity.
Qed.

Lemma code_part_rendering_witness :
  let part := py "```python" ++ [NL] ++ py "x = 1" ++ [NL] ++ py "y = 2" ++ [NL] ++ py "```" in
  render_part part []
  = (inr tt,
     [] ++ match split NL (strip (slice_3_minus_3 part)) with
           | first :: rest =>
               match strip (join [NL] rest) with
               | [] => []
               | code => [Print (Syntax code (strip first) "monokai"); Print Blank]
               end
           | [] => []
           end).
Proof.
  intros part. apply (code_part_rendering part []). vm_compute. reflexivity.
Defined.

(** X7. A code part whose content, trimmed, is a single line renders
    nothing: the line is taken for the language and no code is left. So
    a fenced block without a language tag loses its first line, and is
    not shown at all when it has one line. *)
Theorem code_part_single_line (part : str) (t : trace) :
  is_code_part part = true →
  free NL (strip (slice_3_minus_3 part)) = true →
  render_part part t = (inr tt, t).
Proof.
  intros Hc Hf. unfold render_part. rewrite Hc.
  rewrite (split_line NL _ Hf), strip_idem.
  destruct (strip (slice_3_minus_3 part)) as [|c r] eqn:E; reflexivity.
Qed.

Lemma code_part_single_line_witness :
  render_part (py "```" ++ [NL] ++ py "print(1)" ++ [NL] ++ py "```") [] = (inr tt, []).
Proof.
  apply code_part_single_line.
  - vm_compute. reflexivity.
  - vm_compute. reflexivity.
Defined.
(** ** A response without a fence *)

Lemma contains_cons needle c r :
  contains needle (c :: r) = startswith needle (c :: r) || contains needle r.
Proof. reflexivity. Qed.

Lemma contains_iff needle hay :
  contains needle hay = true ↔ ∃ a b, hay = a ++ needle ++ b.
Proof.
  split.
  - induction hay as [|c r IH].
    + cbn [contains]. rewrite orb_false_r. intros [x ->]%startswith_inv. by exists [], x.
    + rewrite contains_cons. intros [[x ->]%startswith_inv|H]%orb_true_iff.
      * by exists [], x.
      * destruct (IH H) as (a & b & ->). by exists (c :: a), b.
  - intros (a & b & ->). induction a as [|c a IH].
    + cbn [app]. destruct (needle ++ b) eqn:E.
      * cbn [contains]. rewrite <- E, startswith_app. done.
      * rewrite contains_cons, <- E, startswith_app. done.
    + cbn [app]. rewrite contains_cons, IH. apply orb_true_r.
Qed.

Lemma contains_false_cons needle c r :
  contains needle (c :: r) = false →
  startswith needle (c :: r) = false ∧ contains needle r = false.
Proof. rewrite contains_cons. apply orb_false_iff. Qed.

Lemma fence_re_none s : startswith FENCE s = false → fence_re s = None.
Proof.
  intros H. destruct (fence_re s) as [rest|] eqn:E; [|done].
  apply fence_re_inv in E as [body ->]. by rewrite startswith_app in H.
Qed.

Lemma re_split_from_none n :
  ∀ cur s, contains FENCE s = false → re_split_from fence_re n cur s = [cur ++ s].
Proof.
  induction n as [|n IH]; intros cur s H; [done|].
  destruct s as [|c r]; [cbn; by rewrite app_nil_r|].
  apply contains_false_cons in H as [Hs Hr]. cbn [re_split_from].
  rewrite (fence_re_none _ Hs), (IH _ _ Hr), <- app_assoc. done.
Qed.

Lemma contains_false_startswith needle s :
  contains needle s = false → startswith needle s = false.
Proof.
  destruct s as [|c r]; [cbn [contains]; by rewrite orb_false_r|].
  by intros [H _]%contains_false_cons.
Qed.

(** X8. A response in which no fence occurs is one part, and it is
    rendered as prose: one Markdown of the cleaned response, or nothing
    when the response is blank. Single backticks do not count. *)
Theorem render_response_without_fence (response : str) (t : trace) :
  contains FENCE response = false →
  re_split fence_re response = [response]
  ∧ render_response response t
    = (inr tt, t ++ if blank response then []
                    else [Print (Markdown (JStr (clean_response response)) "blue")]).
Proof.
  intros H.
  assert (Hsplit : re_split fence_re response = [response]).
  { unfold re_split. by rewrite (re_split_from_none _ _ _ H). }
  split; [exact Hsplit|].
  unfold render_response. rewrite Hsplit. cbn [for_each]. unfold bind.
  rewrite prose_part_rendered
    by (unfold is_code_part; by rewrite (contains_false_startswith _ _ H)).
  cbn [ret]. rewrite strip_clean_response.
  destruct (blank response) eqn:Hb.
  - apply clean_response_nil_iff in Hb. by rewrite Hb.
  - destruct (clean_response response) eqn:E; [|done].
    apply clean_response_nil_iff in E. congruence.
Qed.

Lemma render_response_without_fence_witness :
  re_split fence_re (py "use `x` here") = [py "use `x` here"]
  ∧ render_response (py "use `x` here") []
    = (inr tt, [] ++ if blank (py "use `x` here") then []
                     else [Print (Markdown (JStr (clean_response (py "use `x` here"))) "blue")]).
Proof.
  apply render_response_without_fence. vm_compute. reflexivity.
Defined.


(* ================================================================== *)
(** * Further properties of the two calls *)
(* ================================================================== *)

(** ** What a computation adds to the trace *)

Section Only.

Context (P : effect → bool).
Hypothesis P_debug : ∀ l, P (Print (Text (Lit "[yellow]DEBUG: " :: l))) = true.

Lemma only_ret {A} (a : A) : only P (ret a).
Proof. intros t. exists []. by rewrite app_nil_r. Qed.

Lemma only_raise {A} e : only P (@raise A e).
Proof. intros t. exists []. by rewrite app_nil_r. Qed.

Lemma only_lift {A} (r : exn + A) : only P (lift r).
Proof. destruct r; [apply only_raise|apply only_ret]. Qed.

Lemma only_emit e : P e = true → only P (emit e).
Proof. intros H t. exists [e]. cbn. by rewrite H. Qed.

Lemma only_console_print_markup cfg o :
  P (Print o) = true → only P (console_print_markup cfg o).
Proof.
  intros H t. unfold console_print_markup. destruct (console cfg o).
  - exists []. by rewrite app_nil_r.
  - exists [Print o]. cbn. by rewrite H.
Qed.

Lemma only_debug_log cfg l : only P (debug_log cfg l).
Proof.
  unfold debug_log. destruct (DEBUG_LOGGING cfg).
  - apply only_console_print_markup, P_debug.
  - intros t. exists []. by rewrite app_nil_r.
Qed.

Lemma only_bind {A B} (m : M A) (k : A → M B) :
  only P m → (∀ a, only P (k a)) → only P (bind m k).
Proof.
  intros Hm Hk t. unfold bind. destruct (Hm t) as (u & Hu & Pu).
  destruct (m t) as [[e|a] t1]; cbn [snd] in Hu; subst t1.
  - by exists u.
  - destruct (Hk a (t ++ u)) as (v & Hv & Pv). exists (u ++ v).
    rewrite Hv, app_assoc, forallb_app, Pu, Pv. done.
Qed.

Lemma only_try_except {A} (body : M A) handler :
  only P body → (∀ e h, handler e = Some h → only P h) →
  only P (try_except body handler).
Proof.
  intros Hm Hh t. unfold try_except. destruct (Hm t) as (u & Hu & Pu).
  destruct (body t) as [[e|a] t1]; cbn [snd] in Hu; subst t1.
  - destruct (handler e) as [h|] eqn:E; [|by exists u].
    destruct (Hh e h E (t ++ u)) as (v & Hv & Pv). exists (u ++ v).
    rewrite Hv, app_assoc, forallb_app, Pu, Pv. done.
  - by exists u.
Qed.

End Only.

Ltac only_step :=
  first [ apply only_ret | apply only_raise | apply only_lift
        | apply only_debug_log; try done
        | apply only_emit; done
        | apply only_console_print_markup; done
        | apply only_bind; [|intros ?]
        | match goal with |- only _ (match ?x with _ => _ end) => destruct x end ].

Ltac only_tac := repeat only_step.

Lemma requests_app t u : requests (t ++ u) = requests t ++ requests u.
Proof. unfold requests. apply List.filter_app. Qed.

Lemma requests_none u : forallb no_request u = true → requests u = [].
Proof.
  induction u as [|e u IH]; [done|]. cbn [forallb]. intros [He Hu]%andb_true_iff.
  unfold requests in *. cbn [List.filter]. rewrite IH by done.
  destruct e; done.
Qed.

Lemma requests_debug cfg l : requests (debug_lines cfg l) = [].
Proof. unfold debug_lines. destruct (DEBUG_LOGGING cfg); reflexivity. Qed.

(** ** make_non_streaming_call *)

Lemma non_streaming_handler_quiet cfg e h :
  non_streaming_handler cfg e = Some h → only no_request h.
Proof.
  destruct e; cbn [non_streaming_handler]; intros [= <-]; unfold console_print; only_tac.
Qed.

Lemma sent_none t u request :
  forallb no_request u = true → sent_at_most t (t ++ u) request.
Proof. intros H. exists u. split; [done|]. left. by apply requests_none. Qed.

Lemma sent_more t u t' request :
  forallb no_request u = true → sent_at_most (t ++ u) t' request →
  sent_at_most t t' request.
Proof.
  intros Hu (v & -> & Hv). exists (u ++ v). split; [by rewrite app_assoc|].
  by rewrite requests_app, (requests_none u Hu).
Qed.

Lemma sent_then t t' u request :
  sent_at_most t t' request → forallb no_request u = true →
  sent_at_most t (t' ++ u) request.
Proof.
  intros (v & -> & Hv) Hu. exists (v ++ u). split; [by rewrite app_assoc|].
  by rewrite requests_app, (requests_none u Hu), app_nil_r.
Qed.

Lemma non_streaming_body_requests json_loads cfg net pl t :
  sent_at_most t (non_streaming_body json_loads cfg net pl t).2 (HttpPost pl)
  ∧ (logs cfg [[Lit "Sending POST request"]] →
     requests (non_streaming_body json_loads cfg net pl t).2 = requests t ++ [HttpPost pl]).
Proof.
  unfold non_streaming_body.
  match goal with |- context [bind (debug_log _ _) (fun _ => bind (emit _) ?k)] =>
    set (rest := k) end.
  assert (H : only no_request (rest tt)) by (subst rest; only_tac).
  unfold bind.
  destruct (debug_log cfg [Lit "Sending POST request"] t) as [[e|[]] t0] eqn:Hd.
  - apply debug_log_inl in Hd as Hd'. destruct Hd' as [_ ->]. split.
    + exists []. rewrite app_nil_r. split; [done|by left].
    + intros Hl. rewrite (debug_log_run _ _ _ Hl) in Hd. discriminate.
  - apply debug_log_inr in Hd as [_ ->]. cbn [emit].
    destruct (H ((t ++ debug_lines cfg [Lit "Sending POST request"]) ++ [HttpPost pl]))
      as (u & Hu & Pu).
    destruct (rest tt _) as [[e|a] t1]; cbn [snd] in Hu |- *; subst t1.
    all: split;
      [exists (debug_lines cfg [Lit "Sending POST request"] ++ [HttpPost pl] ++ u);
       split; [by rewrite <- !app_assoc|]; right;
       rewrite !requests_app, requests_debug, (requests_none u Pu); reflexivity
      |intros _; rewrite !requests_app, requests_debug, (requests_none u Pu), !app_nil_r;
       reflexivity].
Qed.

Lemma non_streaming_prologue_quiet cfg prompt model :
  only no_request (non_streaming_prologue cfg prompt model).
Proof. unfold non_streaming_prologue. only_tac. Qed.

Lemma make_non_streaming_call_requests json_loads cfg net prompt model t :
  sent_at_most t (make_non_streaming_call json_loads cfg net prompt model t).2
    (HttpPost (payload cfg prompt model false))
  ∧ (logs cfg (prologue_messages cfg prompt model ++ [[Lit "Sending POST request"]]) →
     requests (make_non_streaming_call json_loads cfg net prompt model t).2
     = requests t ++ [HttpPost (payload cfg prompt model false)]).
Proof.
  assert (Htry : ∀ t0,
    sent_at_most t0 (try_except (non_streaming_body json_loads cfg net
                                   (payload cfg prompt model false))
                                (non_streaming_handler cfg) t0).2
      (HttpPost (payload cfg prompt model false))
    ∧ (logs cfg [[Lit "Sending POST request"]] →
       requests (try_except (non_streaming_body json_loads cfg net
                               (payload cfg prompt model false))
                            (non_streaming_handler cfg) t0).2
       = requests t0 ++ [HttpPost (payload cfg prompt model false)])).
  { intros t0.
    pose proof (non_streaming_body_requests json_loads cfg net
                  (payload cfg prompt model false) t0) as [Hs Hb].
    unfold try_except.
    destruct (non_streaming_body _ _ _ _ _) as [[e|a] t1]; cbn [snd] in *; [|done].
    destruct (non_streaming_handler cfg e) as [h|] eqn:E; [|done].
    destruct (non_streaming_handler_quiet cfg e h E t1) as (v & -> & Hv). split.
    - by apply sent_then.
    - intros Hl. rewrite requests_app, (requests_none v Hv), app_nil_r. auto. }
  unfold make_non_streaming_call, bind.
  destruct (non_streaming_prologue_quiet cfg prompt model t) as (u & Hu & Pu).
  destruct (non_streaming_prologue cfg prompt model t) as [[e|[]] t0] eqn:Hp;
    cbn [snd] in Hu; subst t0.
  - split; [by apply sent_none|]. intros Hl.
    rewrite non_streaming_prologue_run in Hp; [discriminate|].
    intros Hd. specialize (Hl Hd). apply List.Forall_app in Hl as [Hl _]. exact Hl.
  - destruct (Htry (t ++ u)) as [Hs Hb]. split.
    + by apply (sent_more t u).
    + intros Hl. rewrite Hb.
      * by rewrite requests_app, (requests_none u Pu), app_nil_r.
      * intros Hd. specialize (Hl Hd). apply List.Forall_app in Hl as [_ Hl]. exact Hl.
Qed.

(** X9. Whatever the API does and whatever the body of the answer is,
    one call sends at most one request, the POST of the payload of the
    prompt: there is no second attempt. It sends exactly that one when
    debug logging is off or Rich renders the three debug lines that come
    before the request. *)
Theorem make_non_streaming_call_one_request
    (json_loads : str → exn + json) (cfg : Config) (net : Network)
    (prompt model : str) (t : trace) :
  sent_at_most t (make_non_streaming_call json_loads cfg net prompt model t).2
    (HttpPost (payload cfg prompt model false))
  ∧ (logs cfg (prologue_messages cfg prompt model ++ [[Lit "Sending POST request"]]) →
     requests (make_non_streaming_call json_loads cfg net prompt model t).2
     = requests t ++ [HttpPost (payload cfg prompt model false)]).
Proof. apply make_non_streaming_call_requests. Qed.

Lemma make_non_streaming_call_one_request_witness :
  sent_at_most [] (make_non_streaming_call sample_loads (default_config None) net_up
                     (py "hi") (py "grok-3-beta") []).2
    (HttpPost (payload (default_config None) (py "hi") (py "grok-3-beta") false))
  ∧ requests (make_non_streaming_call sample_loads (default_config None) net_up
                (py "hi") (py "grok-3-beta") []).2
    = requests [] ++ [HttpPost (payload (default_config None) (py "hi")
                                  (py "grok-3-beta") false)].
Proof.
  destruct (make_non_streaming_call_one_request sample_loads (default_config None)
              net_up (py "hi") (py "grok-3-beta") []) as [Hs Hb].
  split; [exact Hs|]. apply Hb.
  intros _. repeat constructor; vm_compute; reflexivity.
Defined.

(** A handler that raises, raises [MarkupError]. *)
Lemma non_streaming_handler_inl cfg e h t e' t' :
  non_streaming_handler cfg e = Some h → h t = (inl e', t') → is_markup_error e'.
Proof.
  destruct e; cbn [non_streaming_handler]; intros [= <-]; unfold bind.
  - done.
  - destruct (debug_log _ _ _) as [[?|[]] ?] eqn:Hd.
    + intros [= <- <-]. by apply debug_log_inl in Hd as [? _].
    + destruct (console_print_markup _ _ _) as [[?|[]] ?] eqn:Hc; [|done].
      intros [= <- <-]. by apply console_print_markup_inl in Hc as [? _].
  - destruct (debug_log _ _ _) as [[?|[]] ?] eqn:Hd.
    + intros [= <- <-]. by apply debug_log_inl in Hd as [? _].
    + destruct (console_print_markup _ _ _) as [[?|[]] ?] eqn:Hc; [|done].
      intros [= <- <-]. by apply console_print_markup_inl in Hc as [? _].
  - destruct (debug_log _ _ _) as [[?|[]] ?] eqn:Hd.
    + intros [= <- <-]. by apply debug_log_inl in Hd as [? _].
    + destruct (console_print_markup _ _ _) as [[?|[]] ?] eqn:Hc; [|done].
      intros [= <- <-]. by apply console_print_markup_inl in Hc as [? _].
Qed.

Lemma non_streaming_prologue_inl cfg prompt model t e t' :
  non_streaming_prologue cfg prompt model t = (inl e, t') → is_markup_error e.
Proof.
  unfold non_streaming_prologue, bind.
  destruct (debug_log _ _ _) as [[?|[]] ?] eqn:Hd.
  - intros [= <- <-]. by apply debug_log_inl in Hd as [? _].
  - intros Hd'. by apply debug_log_inl in Hd' as [? _].
Qed.

(** X10. No [KeyboardInterrupt] leaves [make_non_streaming_call], and no
    [Exception] but Rich's [MarkupError], raised by a line that is printed
    with a text in it that Rich cannot parse: what else it lets through is
    a [BaseException] that no clause catches (such as [SystemExit]). *)
Theorem make_non_streaming_call_never_raises
    (json_loads : str → exn + json) (cfg : Config) (net : Network)
    (prompt model : str) (t : trace) (e : exn) :
  (make_non_streaming_call json_loads cfg net prompt model t).1 = inl e →
  uncaught e ∨ is_markup_error e.
Proof.
  unfold make_non_streaming_call, bind.
  destruct (non_streaming_prologue cfg prompt model t) as [[e0|[]] t0] eqn:Hp.
  - intros [= <-]. right. by eapply non_streaming_prologue_inl.
  - unfold try_except.
    destruct (non_streaming_body _ _ _ _ _) as [[e0|a] t1] eqn:Hbody; [|done].
    destruct (non_streaming_handler cfg e0) as [h|] eqn:Hh.
    + destruct (h t1) as [[e1|r] t2] eqn:Hrun; [|done].
      intros [= <-]. right. by eapply non_streaming_handler_inl.
    + destruct e0; try done. cbn. intros [= <-]. by left.
Qed.

Lemma make_non_streaming_call_never_raises_witness :
  uncaught (BaseExceptionOther "SystemExit")
  ∨ is_markup_error (BaseExceptionOther "SystemExit").
Proof.
  apply (make_non_streaming_call_never_raises sample_loads (default_config None)
           net_exit (py "hi") (py "grok-3-beta") []).
  vm_compute. reflexivity.
Defined.

(** X11. An answer with a status from 400 to 599 is reported with its
    status and its body and gives [(None, None, None)], when debug logging
    is off or Rich renders the debug lines on the way, and Rich renders
    the error line, which holds the body; the body is not decoded, so the
    outcome is the same for every [json.loads]. *)
Theorem make_non_streaming_call_http_error
    (json_loads : str → exn + json) (cfg : Config) (net : Network)
    (prompt model : str) (t : trace) (response : Response) :
  post net (payload cfg prompt model false) = PostReturns response →
  (400 ≤ status_code response ≤ 599)%Z →
  logs cfg (prologue_messages cfg prompt model
            ++ [[Lit "Sending POST request"];
                [Lit "Response status="; PInt (status_code response)]]) →
  reports cfg (HTTPStatusError (status_code response) (text response)) →
  make_non_streaming_call json_loads cfg net prompt model t
  = (inr NONE3,
     (non_streaming_prologue cfg prompt model t).2
     ++ debug_lines cfg [Lit "Sending POST request"]
     ++ [HttpPost (payload cfg prompt model false)]
     ++ debug_lines cfg [Lit "Response status="; PInt (status_code response)]
     ++ debug_lines cfg [Lit "HTTP error: status="; PInt (status_code response);
                         Lit ", text="; PStr (text response)]
     ++ [Print (Text [Lit "[red]Error: HTTP "; PInt (status_code response);
                      Lit " - "; PStr (text response); Lit "[/red]"])]).
Proof.
  intros Hpost Hst Hl [Hh Hr].
  rewrite make_non_streaming_call_run
    by (intros Hd; specialize (Hl Hd); apply List.Forall_app in Hl as [Hl _]; exact Hl).
  unfold try_except, non_streaming_body.
  unfold bind at 1 2. logged Hl. cbn [emit].
  unfold bind at 1 2. rewrite Hpost. cbn [ret].
  unfold bind at 1 2. logged Hl.
  replace (is_success (status_code response)) with false
    by (unfold is_success; symmetry; apply andb_false_iff; right; apply Z.leb_gt; lia).
  cbn [raise non_streaming_handler]. unfold bind. rewrite debug_log_run by exact Hh.
  rewrite console_print_markup_run by (by apply Hr).
  cbn [ret failure_message].
  rewrite <- !app_assoc. reflexivity.
Qed.

Lemma make_non_streaming_call_http_error_witness :
  make_non_streaming_call sample_loads (default_config None) net_404
    (py "hi") (py "grok-3-beta") []
  = (inr NONE3,
     (non_streaming_prologue (default_config None) (py "hi") (py "grok-3-beta") []).2
     ++ debug_lines (default_config None) [Lit "Sending POST request"]
     ++ [HttpPost (payload (default_config None) (py "hi") (py "grok-3-beta") false)]
     ++ debug_lines (default_config None) [Lit "Response status="; PInt 404]
     ++ debug_lines (default_config None)
          [Lit "HTTP error: status="; PInt 404; Lit ", text="; PStr (py "not found")]
     ++ [Print (Text [Lit "[red]Error: HTTP "; PInt 404;
                      Lit " - "; PStr (py "not found"); Lit "[/red]"])]).
Proof.
  apply (make_non_streaming_call_http_error sample_loads (default_config None) net_404
           (py "hi") (py "grok-3-beta") [] {| status_code := 404; text := py "not found" |}).
  - reflexivity.
  - cbn. lia.
  - intros _. repeat constructor; vm_compute; reflexivity.
  - split; [intros _; repeat constructor|intros _]; vm_compute; reflexivity.
Defined.

(** The body of the [try] measured both texts before it returned. *)
Lemma non_streaming_body_len json_loads cfg net pl t t' content reasoning tokens :
  non_streaming_body json_loads cfg net pl t = (inr (content, reasoning, tokens), t') →
  (∃ n, py_len content = inr n) ∧ (∃ n, py_len reasoning = inr n).
Proof.
  unfold non_streaming_body. intros H. run_inv.
  destruct (post net pl) as [e|response] eqn:Hpost; run_inv.
  destruct (is_success (status_code response)) eqn:Hok; run_inv.
  subst. eauto.
Qed.

(** X12. In what [make_non_streaming_call] returns, the content is
    [None] exactly when the body of the [try] failed, and then the
    reasoning and the usage are [None] too: an answer that was decoded
    never has [None] for content. *)
Theorem make_non_streaming_call_none_iff_failed
    (json_loads : str → exn + json) (cfg : Config) (net : Network)
    (prompt model : str) (t t' : trace) (content reasoning tokens : json) :
  make_non_streaming_call json_loads cfg net prompt model t
  = (inr (content, reasoning, tokens), t') →
  (content = JNull ↔
   ∃ e t1, non_streaming_body json_loads cfg net (payload cfg prompt model false)
             (non_streaming_prologue cfg prompt model t).2 = (inl e, t1))
  ∧ (content = JNull → reasoning = JNull ∧ tokens = JNull).
Proof.
  intros H%make_non_streaming_call_inv. unfold try_except in H.
  destruct (non_streaming_body _ _ _ _ _) as [[e|[[c r] u]] t1] eqn:Hbody.
  - destruct (non_streaming_handler cfg e) as [h|] eqn:Hh; [|done].
    apply (non_streaming_handler_inr cfg e h _ _ _ Hh) in H.
    injection H as -> -> ->. split; [|done].
    split; [eauto|done].
  - injection H as <- <- <- <-.
    destruct (non_streaming_body_len _ _ _ _ _ _ _ _ _ Hbody) as [[n Hn] _].
    split.
    + split; [intros ->; done|]. intros (e & t2 & [=]).
    + intros ->. done.
Qed.

Lemma make_non_streaming_call_none_iff_failed_witness :
  (JNull = JNull ↔
   ∃ e t1, non_streaming_body sample_loads (default_config None) net_down
             (payload (default_config None) (py "hi") (py "grok-3-beta") false)
             (non_streaming_prologue (default_config None) (py "hi") (py "grok-3-beta") []).2
           = (inl e, t1))
  ∧ (JNull = JNull → JNull = JNull ∧ JNull = JNull).
Proof.
  apply (make_non_streaming_call_none_iff_failed sample_loads (default_config None)
           net_down (py "hi") (py "grok-3-beta") []
           (make_non_streaming_call sample_loads (default_config None) net_down
              (py "hi") (py "grok-3-beta") []).2).
  vm_compute. reflexivity.
Defined.

(** What [clean_response] and [len] let through. *)
Lemma measured_clean_value raw v n :
  clean_response_value raw = inr v → py_len v = inr n →
  (∃ s, raw = JStr s ∧ v = JStr (clean_response s)) ∨ v = JList [] ∨ v = JDict ∅.
Proof.
  unfold clean_response_value. destruct (negb (truthy raw)) eqn:Ht.
  - intros [= <-] Hn. apply negb_true_iff in Ht.
    destruct raw as [| | | |s|l|m]; try done.
    + left. exists s. destruct s; done.
    + right. left. destruct l; done.
    + right. right. cbn in Ht. apply negb_false_iff, bool_decide_eq_true in Ht.
      by rewrite Ht.
  - destruct raw as [| | | |s| |]; try done. intros [= <-] _. left. by exists s.
Qed.

(** X13. What [make_non_streaming_call] returns as content is [None]
    (after a failure), a text that [clean_response] produced, or an empty
    list or dict; nothing else passes [clean_response] and [len]. So the
    loop's "Expected string response" applies to an empty list or dict
    only. *)
Theorem make_non_streaming_call_content_type
    (json_loads : str → exn + json) (cfg : Config) (net : Network)
    (prompt model : str) (t t' : trace) (content reasoning tokens : json) :
  make_non_streaming_call json_loads cfg net prompt model t
  = (inr (content, reasoning, tokens), t') →
  content = JNull
  ∨ (∃ s, content = JStr (clean_response s))
  ∨ content = JList [] ∨ content = JDict ∅.
Proof.
  intros H%make_non_streaming_call_inv. unfold try_except in H.
  destruct (non_streaming_body _ _ _ _ _) as [[e|[[c r] u]] t1] eqn:Hbody.
  - destruct (non_streaming_handler cfg e) as [h|] eqn:Hh; [|done].
    apply (non_streaming_handler_inr cfg e h _ _ _ Hh) in H.
    injection H as -> _ _. by left.
  - injection H as <- <- <- <-. right.
    destruct (non_streaming_body_len _ _ _ _ _ _ _ _ _ Hbody) as [[n Hn] _].
    apply non_streaming_body_inv in Hbody
      as (response & data & choices & choice & message & raw & raw' &
          _ & _ & _ & _ & _ & _ & _ & _ & Hclean & _).
    destruct (measured_clean_value raw c n Hclean Hn) as [(s & _ & Hc)|[Hc|Hc]];
      subst c; eauto.
Qed.

Lemma make_non_streaming_call_content_type_witness :
  JStr (py "Hello there") = JNull
  ∨ (∃ s, JStr (py "Hello there") = JStr (clean_response s))
  ∨ JStr (py "Hello there") = JList [] ∨ JStr (py "Hello there") = JDict ∅.
Proof.
  apply (make_non_streaming_call_content_type sample_loads (default_config None) net_up
           (py "hi") (py "grok-3-beta") []
           (make_non_streaming_call sample_loads (default_config None) net_up
              (py "hi") (py "grok-3-beta") []).2
           (JStr (py "Hello there")) (JStr []) sample_usage).
  vm_compute. reflexivity.
Defined.

(** ** What a computation lets through *)

Section Raises.

Context (Q : exn → Prop).

Lemma raises_only_ret {A} (a : A) : raises_only Q (ret a).
Proof. intros t e. done. Qed.

Lemma raises_only_raise {A} e : Q e → raises_only Q (@raise A e).
Proof. intros H t e' [= <-]. done. Qed.

Lemma raises_only_lift {A} (r : exn + A) :
  (∀ e, r = inl e → Q e) → raises_only Q (lift r).
Proof. destruct r as [e|a]; intros H; [apply raises_only_raise; auto|apply raises_only_ret]. Qed.

Lemma raises_only_emit e : raises_only Q (emit e).
Proof. intros t e'. done. Qed.

Hypothesis Q_markup : ∀ message, Q (MarkupError message).

Lemma raises_only_debug_log cfg l : raises_only Q (debug_log cfg l).
Proof.
  intros t e. destruct (debug_log cfg l t) as [[e0|[]] t0] eqn:Hd; [|done].
  apply debug_log_inl in Hd as [[m ->] _]. intros [= <-]. apply Q_markup.
Qed.

Lemma raises_only_bind {A B} (m : M A) (k : A → M B) :
  raises_only Q m → (∀ a, raises_only Q (k a)) → raises_only Q (bind m k).
Proof.
  intros Hm Hk t e. unfold bind. specialize (Hm t).
  destruct (m t) as [[e0|a] t1]; [intros [= <-]; auto|]. apply Hk.
Qed.

End Raises.

Lemma py_get_unexpected v k d e : py_get v k d = inl e → unexpected e.
Proof. destruct v; cbn; intros [= <-]; done. Qed.

Lemma py_item_unexpected v k e : py_item v k = inl e → unexpected e.
Proof. destruct v; cbn; try (intros [= <-]; done). destruct (_ !! _); intros [= <-]; done. Qed.

Lemma py_first_unexpected v e : py_first v = inl e → unexpected e.
Proof. destruct v as [| | | |[|]|[|]|]; cbn; intros [= <-]; done. Qed.

Lemma py_len_unexpected v e : py_len v = inl e → unexpected e.
Proof. destruct v; cbn; intros [= <-]; done. Qed.

Lemma clean_response_value_unexpected v e : clean_response_value v = inl e → unexpected e.
Proof.
  unfold clean_response_value. destruct (negb (truthy v)); [done|].
  destruct v; intros [= <-]; done.
Qed.

Ltac raises_step :=
  first [ apply raises_only_ret | apply raises_only_debug_log; done
        | apply raises_only_emit
        | apply raises_only_lift;
          first [ apply py_get_unexpected | apply py_item_unexpected
                | apply py_first_unexpected | apply py_len_unexpected
                | apply clean_response_value_unexpected ]
        | apply raises_only_bind; [|intros ?] ].

(** Once the answer is decoded, what can go wrong is an [Exception]: one of
    the operations on the answer, or Rich's on a debug line. *)
Lemma non_streaming_body_decoded json_loads cfg net pl t response data e :
  post net pl = PostReturns response →
  is_success (status_code response) = true →
  json_loads (text response) = inr data →
  (non_streaming_body json_loads cfg net pl t).1 = inl e → unexpected e.
Proof.
  intros Hpost Hok Hdata. unfold non_streaming_body.
  unfold bind at 1.
  destruct (debug_log cfg _ t) as [[e0|[]] t0] eqn:Hd.
  { apply debug_log_inl in Hd as [[m ->] _]. intros [= <-]. done. }
  clear Hd. unfold bind at 1. cbn [emit].
  unfold bind at 1. rewrite Hpost. cbn [ret].
  unfold bind at 1.
  destruct (debug_log cfg _ _) as [[e0|[]] t1] eqn:Hd1.
  { apply debug_log_inl in Hd1 as [[m ->] _]. intros [= <-]. done. }
  clear Hd1.
  unfold bind at 1. rewrite Hok. cbn [ret].
  unfold bind at 1. rewrite Hdata. cbn [lift ret].
  match goal with |- (?m ?t0).1 = _ → _ =>
    assert (H : raises_only unexpected m) by (repeat raises_step); apply H end.
Qed.

Lemma non_streaming_body_appends json_loads cfg net pl :
  only (fun _ => true) (non_streaming_body json_loads cfg net pl).
Proof. unfold non_streaming_body. only_tac. Qed.

(** X14. An envelope in good order whose message content is [null] is
    not an answer: the body of the [try] fails with an [Exception], and
    when Rich renders the lines of the [except] clause the call prints the
    line of an unexpected error and returns [(None, None, None)]. *)
Theorem make_non_streaming_call_null_content
    (json_loads : str → exn + json) (cfg : Config) (net : Network)
    (prompt model : str) (t : trace) (response : Response)
    (data message : gmap str json) (choices choice : json) :
  post net (payload cfg prompt model false) = PostReturns response →
  is_success (status_code response) = true →
  json_loads (text response) = inr (JDict data) →
  data !! py "choices" = Some choices →
  py_first choices = inr choice →
  py_item choice "message" = inr (JDict message) →
  message !! py "content" = Some JNull →
  logs cfg (prologue_messages cfg prompt model) →
  ∃ e t1,
    non_streaming_body json_loads cfg net (payload cfg prompt model false)
      (non_streaming_prologue cfg prompt model t).2 = (inl e, t1)
    ∧ unexpected e
    ∧ (reports cfg e →
       make_non_streaming_call json_loads cfg net prompt model t
       = (inr NONE3, t1 ++ flat_map (debug_lines cfg) (handler_messages e)
                        ++ [Print (Text [Lit "[red]Error: "; PExn e; Lit "[/red]"])])).
Proof.
  intros Hpost Hok Hdata Hch Hfirst Hmsg Hc Hlog.
  destruct (non_streaming_body json_loads cfg net (payload cfg prompt model false)
              (non_streaming_prologue cfg prompt model t).2)
    as [[e|[[c r] us]] t1] eqn:Hbody.
  - assert (He : unexpected e).
    { eapply non_streaming_body_decoded; [exact Hpost|exact Hok|exact Hdata|].
      rewrite Hbody. done. }
    exists e, t1. split; [done|]. split; [exact He|]. intros Hrep.
    destruct (make_non_streaming_call_caught _ _ _ _ _ _ _ _ _ Hlog Hbody He Hrep)
      as (-> & _). destruct e; done.
  - exfalso.
    destruct (non_streaming_body_len _ _ _ _ _ _ _ _ _ Hbody) as [[n Hn] _].
    apply non_streaming_body_inv in Hbody
      as (response' & data' & choices' & choice' & message' & raw & raw' &
          Hp & _ & Hd & Hch' & Hf' & Hm' & Hraw & _ & Hclean & _).
    rewrite Hpost in Hp. injection Hp as <-. rewrite Hdata in Hd. injection Hd as <-.
    cbn [py_item] in Hch'. rewrite Hch in Hch'. injection Hch' as <-.
    rewrite Hfirst in Hf'. injection Hf' as <-.
    rewrite Hmsg in Hm'. injection Hm' as <-.
    cbn [py_get] in Hraw. rewrite Hc in Hraw. injection Hraw as <-.
    cbn in Hclean. injection Hclean as <-. done.
Qed.

Lemma make_non_streaming_call_null_content_witness :
  ∃ e t1,
    non_streaming_body null_loads (default_config None) net_up
      (payload (default_config None) (py "hi") (py "grok-3-beta") false)
      (non_streaming_prologue (default_config None) (py "hi") (py "grok-3-beta") []).2
    = (inl e, t1)
    ∧ unexpected e
    ∧ (reports (default_config None) e →
       make_non_streaming_call null_loads (default_config None) net_up
         (py "hi") (py "grok-3-beta") []
       = (inr NONE3, t1 ++ flat_map (debug_lines (default_config None)) (handler_messages e)
                        ++ [Print (Text [Lit "[red]Error: "; PExn e; Lit "[/red]"])])).
Proof.
  apply (make_non_streaming_call_null_content null_loads (default_config None) net_up
           (py "hi") (py "grok-3-beta") [] {| status_code := 200; text := py "envelope" |}
           null_data null_message (JList [null_choice]) null_choice).
  - reflexivity.
  - reflexivity.
  - reflexivity.
  - vm_compute. reflexivity.
  - reflexivity.
  - vm_compute. reflexivity.
  - vm_compute. reflexivity.
  - intros _. repeat constructor; vm_compute; reflexivity.
Defined.

(** ** make_streaming_call *)

Lemma stream_line_only P json_loads cfg chunk :
  (∀ l, P (Print (Text (Lit "[yellow]DEBUG: " :: l))) = true) →
  (∀ v, P (Yield v) = true) →
  only P (stream_line json_loads cfg chunk).
Proof. intros Hd Hy. unfold stream_line. only_tac. Qed.

Lemma stream_lines_only P json_loads cfg wire :
  (∀ l, P (Print (Text (Lit "[yellow]DEBUG: " :: l))) = true) →
  (∀ v, P (Yield v) = true) →
  only P (stream_lines json_loads cfg wire).
Proof.
  intros Hd Hy. induction wire as [|[chunk|e] wire IH]; cbn [stream_lines].
  - apply only_ret.
  - apply only_bind; [by apply stream_line_only|]. intros _. exact IH.
  - apply only_raise.
Qed.

Lemma streaming_handler_run cfg e cls t :
  failure_class_of e = Some cls → cls ≠ HttpStatus → reports cfg e →
  ∃ h, streaming_handler cfg e = Some h
       ∧ h t = (inr tt, t ++ flat_map (debug_lines cfg) (handler_messages e)
                          ++ [Print (Text (streaming_failure_message e))]).
Proof.
  assert (Hrun : ∀ l (e0 : exn),
    logs cfg [l] → renders cfg (Text (streaming_failure_message e0)) →
    (debug_log cfg l ;;; console_print_markup cfg (Text (streaming_failure_message e0))) t
    = (inr tt, t ++ (debug_lines cfg l ++ [])
                 ++ [Print (Text (streaming_failure_message e0))])).
  { intros l e0 Hl Hr. unfold bind. rewrite debug_log_run by exact Hl.
    rewrite console_print_markup_run by exact Hr.
    rewrite app_nil_r, <- app_assoc. done. }
  intros H Hne [Hl Hr]. destruct e; try done; cbn [streaming_handler].
  - eexists. split; [reflexivity|]. done.
  - injection H as <-. done.
  - eexists. split; [reflexivity|]. apply Hrun; [exact Hl|by apply Hr].
  - eexists. split; [reflexivity|]. apply Hrun; [exact Hl|by apply Hr].
Qed.

Lemma streaming_handler_quiet cfg e h :
  streaming_handler cfg e = Some h → only no_request h.
Proof.
  destruct e; cbn [streaming_handler]; intros [= <-]; unfold console_print; only_tac.
Qed.

(** A handler that raises, raises [MarkupError] or [ResponseNotRead]. *)
Lemma streaming_handler_inl cfg e h t e' t' :
  streaming_handler cfg e = Some h → h t = (inl e', t') →
  is_markup_error e' ∨ e' = ResponseNotRead.
Proof.
  destruct e; cbn [streaming_handler]; intros [= <-]; unfold bind.
  - done.
  - intros [= <- <-]. by right.
  - destruct (debug_log _ _ _) as [[?|[]] ?] eqn:Hd.
    + intros [= <- <-]. left. by apply debug_log_inl in Hd as [? _].
    + intros Hc. left. by apply console_print_markup_inl in Hc as [? _].
  - destruct (debug_log _ _ _) as [[?|[]] ?] eqn:Hd.
    + intros [= <- <-]. left. by apply debug_log_inl in Hd as [? _].
    + intros Hc. left. by apply console_print_markup_inl in Hc as [? _].
Qed.

Lemma streaming_body_requests json_loads cfg net pl t :
  sent_at_most t (streaming_body json_loads cfg net pl t).2 (HttpStream pl)
  ∧ (logs cfg [[Lit "Sending streaming POST request"]] →
     requests (streaming_body json_loads cfg net pl t).2 = requests t ++ [HttpStream pl]).
Proof.
  unfold streaming_body.
  match goal with |- context [bind (debug_log _ _) (fun _ => bind (emit _) ?k)] =>
    set (rest := k) end.
  assert (H : only no_request (rest tt)).
  { subst rest. cbv beta. destruct (stream net pl); only_tac. by apply stream_lines_only. }
  unfold bind.
  destruct (debug_log cfg [Lit "Sending streaming POST request"] t) as [[e|[]] t0] eqn:Hd.
  - apply debug_log_inl in Hd as Hd'. destruct Hd' as [_ ->]. split.
    + exists []. rewrite app_nil_r. split; [done|by left].
    + intros Hl. rewrite (debug_log_run _ _ _ Hl) in Hd. discriminate.
  - apply debug_log_inr in Hd as [_ ->]. cbn [emit].
    destruct (H ((t ++ debug_lines cfg [Lit "Sending streaming POST request"])
                 ++ [HttpStream pl])) as (u & Hu & Pu).
    destruct (rest tt _) as [[e|a] t1]; cbn [snd] in Hu |- *; subst t1.
    all: split;
      [exists (debug_lines cfg [Lit "Sending streaming POST request"]
               ++ [HttpStream pl] ++ u);
       split; [by rewrite <- !app_assoc|]; right;
       rewrite !requests_app, requests_debug, (requests_none u Pu); reflexivity
      |intros _; rewrite !requests_app, requests_debug, (requests_none u Pu), !app_nil_r;
       reflexivity].
Qed.

Lemma streaming_prologue_quiet cfg prompt model :
  only no_request (streaming_prologue cfg prompt model).
Proof. unfold streaming_prologue. only_tac. Qed.

Lemma make_streaming_call_requests json_loads cfg net prompt model t :
  sent_at_most t (make_streaming_call json_loads cfg net prompt model t).2
    (HttpStream (payload cfg prompt model true))
  ∧ (logs cfg (streaming_prologue_messages cfg prompt model) →
     requests (make_streaming_call json_loads cfg net prompt model t).2
     = requests t ++ [HttpStream (payload cfg prompt model true)]).
Proof.
  assert (Htry : ∀ t0,
    sent_at_most t0 (try_except (streaming_body json_loads cfg net
                                   (payload cfg prompt model true))
                                (streaming_handler cfg) t0).2
      (HttpStream (payload cfg prompt model true))
    ∧ (logs cfg [[Lit "Sending streaming POST request"]] →
       requests (try_except (streaming_body json_loads cfg net
                               (payload cfg prompt model true))
                            (streaming_handler cfg) t0).2
       = requests t0 ++ [HttpStream (payload cfg prompt model true)])).
  { intros t0.
    pose proof (streaming_body_requests json_loads cfg net
                  (payload cfg prompt model true) t0) as [Hs Hb].
    unfold try_except.
    destruct (streaming_body _ _ _ _ _) as [[e|a] t1]; cbn [snd] in *; [|done].
    destruct (streaming_handler cfg e) as [h|] eqn:E; [|done].
    destruct (streaming_handler_quiet cfg e h E t1) as (v & -> & Hv). split.
    - by apply sent_then.
    - intros Hl. rewrite requests_app, (requests_none v Hv), app_nil_r. auto. }
  unfold make_streaming_call, bind.
  destruct (streaming_prologue_quiet cfg prompt model t) as (u & Hu & Pu).
  destruct (streaming_prologue cfg prompt model t) as [[e|[]] t0] eqn:Hp;
    cbn [snd] in Hu; subst t0.
  - split; [by apply sent_none|]. intros Hl.
    rewrite streaming_prologue_run in Hp; [discriminate|exact Hl].
  - destruct (Htry (t ++ u)) as [Hs Hb]. split.
    + by apply (sent_more t u).
    + intros Hl. rewrite Hb.
      * by rewrite requests_app, (requests_none u Pu), app_nil_r.
      * apply (logs_elem _ _ _ Hl). cbn. auto.
Qed.

(** X15. Whatever the API does, one streaming call sends at most one
    request, with the payload of the prompt; it sends exactly that one when
    debug logging is off or Rich renders the three debug lines that come
    before the request. *)
Theorem make_streaming_call_one_request
    (json_loads : str → exn + json) (cfg : Config) (net : Network)
    (prompt model : str) (t : trace) :
  sent_at_most t (make_streaming_call json_loads cfg net prompt model t).2
    (HttpStream (payload cfg prompt model true))
  ∧ (logs cfg (streaming_prologue_messages cfg prompt model) →
     requests (make_streaming_call json_loads cfg net prompt model t).2
     = requests t ++ [HttpStream (payload cfg prompt model true)]).
Proof. apply make_streaming_call_requests. Qed.

Lemma make_streaming_call_one_request_witness :
  sent_at_most [] (make_streaming_call sample_loads (default_config None) net_up
                     (py "hi") (py "grok-3-beta") []).2
    (HttpStream (payload (default_config None) (py "hi") (py "grok-3-beta") true))
  ∧ requests (make_streaming_call sample_loads (default_config None) net_up
                (py "hi") (py "grok-3-beta") []).2
    = requests [] ++ [HttpStream (payload (default_config None) (py "hi")
                                    (py "grok-3-beta") true)].
Proof.
  destruct (make_streaming_call_one_request sample_loads (default_config None)
              net_up (py "hi") (py "grok-3-beta") []) as [Hs Hb].
  split; [exact Hs|]. apply Hb.
  intros _. repeat constructor; vm_compute; reflexivity.
Defined.

Lemma streaming_prologue_inl cfg prompt model t e t' :
  streaming_prologue cfg prompt model t = (inl e, t') → is_markup_error e.
Proof.
  unfold streaming_prologue, bind.
  destruct (debug_log _ _ _) as [[?|[]] ?] eqn:Hd.
  - intros [= <- <-]. by apply debug_log_inl in Hd as [? _].
  - intros Hd'. by apply debug_log_inl in Hd' as [? _].
Qed.

(** X16. No [KeyboardInterrupt] leaves the generator of
    [make_streaming_call], and no [Exception] but two: Rich's
    [MarkupError], raised by a line that is printed with a text in it that
    Rich cannot parse, and httpx's [ResponseNotRead]. The latter is what a
    response with an error status ends in: the clause that catches the
    [HTTPStatusError] asks for the body, which was not read. *)
Theorem make_streaming_call_never_raises
    (json_loads : str → exn + json) (cfg : Config) (net : Network)
    (prompt model : str) (t : trace) (e : exn) :
  ((make_streaming_call json_loads cfg net prompt model t).1 = inl e →
   uncaught e ∨ is_markup_error e ∨ e = ResponseNotRead)
  ∧ (∀ response wire,
       stream net (payload cfg prompt model true) = StreamOpens response wire →
       is_success (status_code response) = false →
       logs cfg (streaming_messages cfg prompt model (status_code response)) →
       (make_streaming_call json_loads cfg net prompt model t).1 = inl ResponseNotRead).
Proof.
  split.
  - unfold make_streaming_call, bind.
    destruct (streaming_prologue cfg prompt model t) as [[e0|[]] t0] eqn:Hp.
    + intros [= <-]. right. left. by eapply streaming_prologue_inl.
    + unfold try_except.
      destruct (streaming_body _ _ _ _ _) as [[e0|a] t1] eqn:Hbody; [|done].
      destruct (streaming_handler cfg e0) as [h|] eqn:Hh.
      * destruct (h t1) as [[e1|r] t2] eqn:Hrun; [|done].
        intros [= <-]. right. by eapply streaming_handler_inl.
      * destruct e0; try done. cbn. intros [= <-]. by left.
  - intros response wire Hs Hok Hlog.
    rewrite make_streaming_call_run by (by apply logs_app_l in Hlog).
    unfold try_except, streaming_body.
    unfold bind at 1 2. logged Hlog. cbn [emit]. rewrite Hs.
    unfold bind at 1 2. logged Hlog. rewrite Hok. done.
Qed.

Lemma make_streaming_call_never_raises_witness :
  (uncaught ResponseNotRead ∨ is_markup_error ResponseNotRead
   ∨ ResponseNotRead = ResponseNotRead)
  ∧ (make_streaming_call sample_loads (default_config None) net_404
       (py "hi") (py "grok-3-beta") []).1 = inl ResponseNotRead.
Proof.
  destruct (make_streaming_call_never_raises sample_loads (default_config None)
              net_404 (py "hi") (py "grok-3-beta") [] ResponseNotRead) as [H1 H2].
  split.
  - apply H1. vm_compute. reflexivity.
  - apply (H2 {| status_code := 404; text := py "not found" |} []).
    + reflexivity.
    + reflexivity.
    + intros _. repeat constructor; vm_compute; reflexivity.
Defined.

(** X22. On a streamed response with a 2xx status, when debug logging is
    off or Rich renders the debug lines of the call and of the frames: a
    wire line without the prefix "data: " yields nothing, the sentinel
    "data: [DONE]" yields nothing, a data line whose JSON carries a choice
    with a delta content yields that content, one without choices yields
    nothing and one whose delta has no content yields the empty text; the
    generator yields these fragments one per line and in the order the
    lines arrive, and ends normally. *)
Theorem make_streaming_call_lines
    (json_loads : str → exn + json) (cfg : Config) (net : Network)
    (prompt model : str) (t : trace) (response : Response)
    (chunks : list str) (frags : list (list json)) :
  stream net (payload cfg prompt model true)
  = StreamOpens response (List.map WireLine chunks) →
  is_success (status_code response) = true →
  Forall2 (line_yields json_loads) chunks frags →
  logs cfg (streaming_messages cfg prompt model (status_code response)) →
  Forall (line_logs json_loads cfg) chunks →
  ∃ t', make_streaming_call json_loads cfg net prompt model t = (inr tt, t')
        ∧ yields t' = yields t ++ concat frags.
Proof.
  intros Hs Hok Hlines Hlog Hlogs.
  rewrite make_streaming_call_run by (by apply logs_app_l in Hlog).
  unfold try_except, streaming_body.
  unfold bind at 1 2. logged Hlog. cbn [emit]. rewrite Hs.
  unfold bind at 1 2. logged Hlog. rewrite Hok. cbn [ret].
  match goal with |- context [stream_lines _ _ _ ?t0] =>
    destruct (stream_lines_yields json_loads cfg chunks frags Hlines Hlogs t0)
      as (t' & Hrun & Hy) end.
  rewrite Hrun. exists t'. split; [done|]. rewrite Hy.
  rewrite !yields_app, !yields_debug, yields_streaming_prologue. cbn.
  rewrite !app_nil_r. done.
Qed.

(** The debug lines of the frames that the sample decoder knows. *)
Lemma sample_loads_logs chunk : line_logs sample_loads (default_config None) chunk.
Proof.
  intros data _ _ Hd _. constructor; [|constructor]. unfold sample_loads in Hd.
  repeat (destruct (str_eqb _ _); [injection Hd as <-; vm_compute; reflexivity|]).
  discriminate.
Qed.

Lemma make_streaming_call_lines_witness :
  ∃ t', make_streaming_call sample_loads (default_config None) net_up
          (py "hi") (py "grok-3-beta") [] = (inr tt, t')
        ∧ yields t' = yields [] ++ concat [[JStr (py "Hel")]; []; []; [JStr (py "lo")]; []].
Proof.
  apply (make_streaming_call_lines sample_loads (default_config None) net_up
           (py "hi") (py "grok-3-beta") [] {| status_code := 200; text := [] |}
           [py "data: Hel"; []; py ": keep-alive"; py "data: lo"; py "data: [DONE]"]).
  - reflexivity.
  - reflexivity.
  - constructor.
    { apply sample_frame_yields;
        [vm_compute; reflexivity|vm_compute; discriminate|vm_compute; reflexivity]. }
    constructor; [apply yields_no_prefix; vm_compute; reflexivity|].
    constructor; [apply yields_no_prefix; vm_compute; reflexivity|].
    constructor.
    { apply sample_frame_yields;
        [vm_compute; reflexivity|vm_compute; discriminate|vm_compute; reflexivity]. }
    constructor; [apply yields_sentinel|]. constructor.
  - intros _. repeat constructor; vm_compute; reflexivity.
  - repeat (constructor; [apply sample_loads_logs|]). constructor.
Defined.

(** The lines in good order at the head of a stream. *)
Lemma stream_lines_prefix json_loads cfg chunks frags :
  Forall2 (line_yields json_loads) chunks frags →
  Forall (line_logs json_loads cfg) chunks →
  ∀ wire t, ∃ t1,
    stream_lines json_loads cfg (List.map WireLine chunks ++ wire) t
    = stream_lines json_loads cfg wire t1
    ∧ yields t1 = yields t ++ concat frags.
Proof.
  induction 1 as [|chunk frag chunks frags Hline _ IH]; intros Hlogs wire t.
  - exists t. cbn. rewrite app_nil_r. done.
  - inversion Hlogs as [|? ? Hlog Hlogs']; subst.
    destruct (stream_line_yields json_loads cfg chunk frag t Hline Hlog) as (t1 & Hrun & Hy).
    destruct (IH Hlogs' wire t1) as (t2 & Hrun2 & Hy2).
    exists t2. cbn [List.map app stream_lines concat]. unfold bind at 1.
    rewrite Hrun, Hrun2, Hy2, Hy, app_assoc. done.
Qed.

Lemma yields_handler_lines cfg e :
  yields (flat_map (debug_lines cfg) (handler_messages e)) = [].
Proof. unfold debug_lines. destruct e; cbn; destruct (DEBUG_LOGGING cfg); done. Qed.

(** X17. When a stream with a 2xx status breaks after some lines in good
    order (the connection fails, or a data line does not decode), and
    Rich renders what is printed on the way (debug logging is off or the
    debug lines go through, and the line of the failure does), the
    fragments of those lines have been yielded, in order, nothing of what
    follows is read, the line of the failure is printed last and the
    generator ends normally. *)
Theorem make_streaming_call_interrupted
    (json_loads : str → exn + json) (cfg : Config) (net : Network)
    (prompt model : str) (t : trace) (response : Response)
    (chunks : list str) (frags : list (list json))
    (bad : wire_event) (rest : list wire_event) (e : exn) (cls : failure_class) :
  stream net (payload cfg prompt model true)
  = StreamOpens response (List.map WireLine chunks ++ bad :: rest) →
  is_success (status_code response) = true →
  Forall2 (line_yields json_loads) chunks frags →
  (bad = WireFault e
   ∨ ∃ chunk, bad = WireLine chunk ∧ startswith DATA_PREFIX chunk = true
              ∧ chunk ≠ DONE ∧ json_loads (drop 6 chunk) = inl e) →
  failure_class_of e = Some cls → cls ≠ HttpStatus →
  logs cfg (streaming_messages cfg prompt model (status_code response)) →
  Forall (line_logs json_loads cfg) chunks →
  reports cfg e →
  ∃ t', make_streaming_call json_loads cfg net prompt model t
        = (inr tt, t' ++ [Print (Text (streaming_failure_message e))])
        ∧ yields t' = yields t ++ concat frags.
Proof.
  intros Hs Hok Hlines Hbad Hcls Hne Hlog Hlogs Hrep.
  rewrite make_streaming_call_run by (by apply logs_app_l in Hlog).
  unfold try_except, streaming_body.
  unfold bind at 1 2. logged Hlog. cbn [emit]. rewrite Hs.
  unfold bind at 1 2. logged Hlog. rewrite Hok. cbn [ret].
  match goal with |- context [stream_lines _ _ _ ?t0] =>
    destruct (stream_lines_prefix json_loads cfg chunks frags Hlines Hlogs (bad :: rest) t0)
      as (t1 & -> & Hy) end.
  assert (Hraise : stream_lines json_loads cfg (bad :: rest) t1 = (inl e, t1)).
  { destruct Hbad as [->|(chunk & -> & Hp & Hne' & Hl)]; [done|].
    cbn [stream_lines]. unfold bind at 1. unfold stream_line.
    rewrite Hp, (str_eqb_neq _ _ Hne'). cbn [andb negb].
    unfold bind at 1. rewrite Hl. done. }
  rewrite Hraise.
  destruct (streaming_handler_run cfg e cls t1 Hcls Hne Hrep) as (h & -> & ->).
  exists (t1 ++ flat_map (debug_lines cfg) (handler_messages e)).
  split; [by rewrite app_assoc|].
  rewrite yields_app, yields_handler_lines, app_nil_r, Hy.
  rewrite !yields_app, !yields_debug, yields_streaming_prologue. cbn.
  rewrite !app_nil_r. done.
Qed.

Lemma make_streaming_call_interrupted_witness :
  ∃ t', make_streaming_call sample_loads (default_config None) net_cut
          (py "hi") (py "grok-3-beta") []
        = (inr tt, t' ++ [Print (Text (streaming_failure_message
                                         (RequestError (py "connection reset"))))])
        ∧ yields t' = yields [] ++ concat [[JStr (py "Hel")]].
Proof.
  apply (make_streaming_call_interrupted sample_loads (default_config None) net_cut
           (py "hi") (py "grok-3-beta") [] {| status_code := 200; text := [] |}
           [py "data: Hel"] [[JStr (py "Hel")]]
           (WireFault (RequestError (py "connection reset")))
           [WireLine (py "data: lo")] (RequestError (py "connection reset"))
           NetworkFailure).
  - reflexivity.
  - reflexivity.
  - constructor; [|constructor].
    apply sample_frame_yields;
      [vm_compute; reflexivity|vm_compute; discriminate|vm_compute; reflexivity].
  - left. reflexivity.
  - reflexivity.
  - discriminate.
  - intros _. repeat constructor; vm_compute; reflexivity.
  - constructor; [apply sample_loads_logs|constructor].
  - split; [intros _; repeat constructor|intros _]; vm_compute; reflexivity.
Defined.

(** X18. A data line that carries no text, when debug logging is off or
    Rich renders its debug line: when its JSON object has no ["choices"],
    or a falsy one ([null], an empty list), it yields nothing; when its
    first choice has a delta without ["content"], it yields the empty
    text. Either way only its debug line is printed besides, nothing is
    raised and the stream goes on. *)
Theorem frame_without_text
    (json_loads : str → exn + json) (cfg : Config) (chunk : str)
    (data : gmap str json) (frags : trace) (t : trace) :
  startswith DATA_PREFIX chunk = true → chunk ≠ DONE →
  json_loads (drop 6 chunk) = inr (JDict data) →
  (match data !! py "choices" with
   | Some choices => truthy choices = false
   | None => True
   end ∧ frags = [])
  ∨ (∃ choices choice delta,
       data !! py "choices" = Some choices ∧ truthy choices = true
       ∧ py_first choices = inr choice
       ∧ py_item choice "delta" = inr (JDict delta)
       ∧ delta !! py "content" = None
       ∧ frags = [Yield (JStr [])]) →
  logs cfg [[Lit "Stream chunk="; PDumps (JDict data)]] →
  stream_line json_loads cfg chunk t
  = (inr tt, t ++ debug_lines cfg [Lit "Stream chunk="; PDumps (JDict data)] ++ frags).
Proof.
  intros Hp Hne Hl Hcase Hlog. unfold stream_line.
  rewrite Hp, (str_eqb_neq _ _ Hne). cbn [andb negb].
  unfold bind at 1. rewrite Hl. cbn [lift ret].
  unfold bind at 1. rewrite debug_log_run by exact Hlog.
  unfold bind at 1. cbn [py_get py_item lift ret].
  destruct Hcase as [[Hch ->]|(choices & choice & delta & Hch & Ht & Hf & Hd & Hc & ->)].
  - rewrite app_nil_r. destruct (data !! py "choices") as [choices|]; [rewrite Hch|]; done.
  - rewrite Hch, Ht.
    unfold bind at 1. cbn [lift ret].
    unfold bind at 1. rewrite Hf. cbn [lift ret].
    unfold bind at 1. rewrite Hd. cbn [lift ret].
    unfold bind at 1. cbn [py_get]. rewrite Hc. cbn [lift ret]. unfold emit.
    by rewrite <- app_assoc.
Qed.

Lemma frame_without_text_witness :
  stream_line last_loads (default_config None) (py "data: {}") []
  = (inr tt, [] ++ debug_lines (default_config None)
                     [Lit "Stream chunk="; PDumps (JDict last_frame)]
                ++ [Yield (JStr [])]).
Proof.
  apply (frame_without_text last_loads (default_config None)
           (py "data: {}") last_frame [Yield (JStr [])] []).
  - vm_compute. reflexivity.
  - vm_compute. discriminate.
  - reflexivity.
  - right. exists (JList [last_choice]), last_choice, ∅.
    repeat split; vm_compute; reflexivity.
  - intros _. repeat constructor; vm_compute; reflexivity.
Defined.

(** ** Where Rich raises

    Runs on the sample console, in which a closing tag in an interpolated
    text matches no open tag. *)

(** A prompt that holds a closing tag, debug logging on: the first debug
    line of the call raises, before any request. *)
Lemma prompt_with_closing_tag :
  (∃ message,
     make_non_streaming_call sample_loads (default_config None) net_up
       (py "[/x] hello") (py "grok-3-beta") [] = (inl (MarkupError message), []))
  ∧ (∃ message,
       make_streaming_call sample_loads (default_config None) net_up
         (py "[/x] hello") (py "grok-3-beta") [] = (inl (MarkupError message), [])).
Proof. split; eexists; vm_compute; reflexivity. Qed.

(* ================================================================== *)
(** * Further properties of the loop *)
(* ================================================================== *)

Section LoopFacts.

Variable json_loads : str → exn + json.
Variable unicode_lower : N → str.
Variable cfg : Config.
Variable streaming : bool.
Variable model : str.

(** X19. A line of input that is blank is ignored: the turn prints the
    prompt and nothing else, and the loop awaits the next line. *)
Theorem blank_input_ignored (net : Network) (input : str) (t : trace) :
  blank input = true →
  turn json_loads unicode_lower cfg streaming model (InputLine input) net t
  = (inr AwaitingInput, t ++ [PROMPT]).
Proof.
  intros H. unfold turn, try_except, turn_body, bind.
  cbn [console_print emit ret]. rewrite (strip_blank _ H). done.
Qed.

Lemma lower_help s :
  any_case (py "help") s = true → lower unicode_lower s = py "help".
Proof. apply lower_any_case. repeat constructor; done. Qed.

(** X20. When the trimmed line is "help" in any letter case, the turn
    prints the prompt and the help panel and nothing else: no request is
    sent. *)
Theorem help_without_dispatch (net : Network) (input : str) (t : trace) :
  any_case (py "help") (strip input) = true →
  turn json_loads unicode_lower cfg streaming model (InputLine input) net t
  = (inr AwaitingInput, t ++ [PROMPT; Print HelpPanel]).
Proof.
  intros H. unfold turn, try_except, turn_body, bind.
  cbn [console_print emit ret]. rewrite (lower_help _ H).
  change (str_eqb (py "help") (py "exit")) with false.
  change (str_eqb (py "help") (py "help")) with true. cbn [emit ret].
  by rewrite <- app_assoc.
Qed.

(** A handler of the loop that raises, raises [MarkupError]. *)
Lemma turn_handler_inl e h t e' t' :
  turn_handler cfg e = Some h → h t = (inl e', t') → is_markup_error e'.
Proof.
  assert (Hrun : ∀ l o,
    (debug_log cfg l ;;; console_print_markup cfg o ;;; ret AwaitingInput) t = (inl e', t') →
    is_markup_error e').
  { intros l o. unfold bind.
    destruct (debug_log _ _ _) as [[?|[]] ?] eqn:Hd.
    - intros [= <- <-]. by apply debug_log_inl in Hd as [? _].
    - destruct (console_print_markup _ _ _) as [[?|[]] ?] eqn:Hc; [|done].
      intros [= <- <-]. by apply console_print_markup_inl in Hc as [? _]. }
  destruct e; cbn [turn_handler]; intros [= <-]; try apply Hrun. done.
Qed.

Lemma turn_raises inp net t e :
  (turn json_loads unicode_lower cfg streaming model inp net t).1 = inl e →
  uncaught e ∨ is_markup_error e.
Proof.
  unfold turn, try_except.
  destruct (turn_body _ _ _ _ _ _ _ _) as [[e0|a] t1]; [|done].
  destruct (turn_handler cfg e0) as [h|] eqn:Hh.
  - destruct (h t1) as [[e1|r] t2] eqn:Hrun; [|done].
    intros [= <-]. right. by eapply turn_handler_inl.
  - destruct e0; try done. cbn. intros [= <-]. by left.
Qed.

(** X21. No [KeyboardInterrupt] leaves the loop, whatever the inputs
    and whatever the API does, and no [Exception] but Rich's
    [MarkupError], raised by a line that is printed with a text in it that
    Rich cannot parse: what else the loop lets through is a
    [BaseException] that no clause catches. *)
Theorem interactive_loop_never_raises
    (turns : list (input_event * Network)) (t : trace) (e : exn) :
  (interactive_loop json_loads unicode_lower cfg streaming model turns t).1 = inl e →
  uncaught e ∨ is_markup_error e.
Proof.
  revert t. induction turns as [|[inp net] turns IH]; intros t; [done|].
  cbn [interactive_loop]. unfold bind.
  pose proof (turn_raises inp net t) as Ht.
  destruct (turn _ _ _ _ _ _ _ _) as [[e0|[|]] t1].
  - intros [= <-]. by apply Ht.
  - apply IH.
  - done.
Qed.

End LoopFacts.

Lemma blank_input_ignored_witness :
  turn sample_loads (fun c => [c]) (default_config None) false (py "grok-3-beta")
    (InputLine (py "   ")) net_up []
  = (inr AwaitingInput, [] ++ [PROMPT]).
Proof.
  apply (blank_input_ignored sample_loads (fun c => [c]) (default_config None) false
           (py "grok-3-beta") net_up (py "   ") []).
  reflexivity.
Defined.

Lemma help_without_dispatch_witness :
  turn sample_loads (fun c => [c]) (default_config None) true (py "grok-3-beta")
    (InputLine (py " HeLP ")) net_up []
  = (inr AwaitingInput, [] ++ [PROMPT; Print HelpPanel]).
Proof.
  apply (help_without_dispatch sample_loads (fun c => [c]) (default_config None) true
           (py "grok-3-beta") net_up (py " HeLP ") []).
  reflexivity.
Defined.

Lemma interactive_loop_never_raises_witness :
  uncaught (BaseExceptionOther "SystemExit")
  ∨ is_markup_error (BaseExceptionOther "SystemExit").
Proof.
  apply (interactive_loop_never_raises sample_loads (fun c => [c]) (default_config None)
           false (py "grok-3-beta")
           [(InputLine (py "help"), net_up);
            (InputRaises (BaseExceptionOther "SystemExit"), net_up)] []).
  vm_compute. reflexivity.
Defined.

(** ** Requests per turn *)

Lemma sends_quiet {A} (m : M A) : only no_request m → sends 0 m.
Proof.
  intros H t. destruct (H t) as (u & Hu & Hq). exists u. split; [done|].
  by rewrite (requests_none u Hq).
Qed.

Lemma sends_le {A} a b (m : M A) : (a ≤ b)%nat → sends a m → sends b m.
Proof. intros Hab H t. destruct (H t) as (u & Hu & Hl). exists u. split; [done|lia]. Qed.

Lemma sends_bind {A B} a b (m : M A) (k : A → M B) :
  sends a m → (∀ x, sends b (k x)) → sends (a + b) (bind m k).
Proof.
  intros Hm Hk t. unfold bind. destruct (Hm t) as (u & Hu & Lu).
  destruct (m t) as [[e|x] t1]; cbn [snd] in Hu; subst t1.
  - exists u. split; [done|lia].
  - destruct (Hk x (t ++ u)) as (v & Hv & Lv). exists (u ++ v).
    rewrite Hv, app_assoc, requests_app, length_app. split; [done|lia].
Qed.

Lemma sends_try_except {A} a (body : M A) handler :
  sends a body → (∀ e h, handler e = Some h → sends 0 h) →
  sends a (try_except body handler).
Proof.
  intros Hm Hh t. unfold try_except. destruct (Hm t) as (u & Hu & Lu).
  destruct (body t) as [[e|x] t1]; cbn [snd] in Hu; subst t1.
  - destruct (handler e) as [h|] eqn:E; [|by exists u].
    destruct (Hh e h E (t ++ u)) as (v & Hv & Lv). exists (u ++ v).
    rewrite Hv, app_assoc, requests_app, length_app. split; [done|lia].
  - by exists u.
Qed.

Lemma render_part_quiet part : only no_request (render_part part).
Proof.
  unfold render_part. destruct (is_code_part part); cbv zeta.
  - match goal with |- context [Syntax ?code ?lang _] =>
      generalize lang; generalize code end.
    intros code lang. destruct code; unfold console_print; only_tac.
  - destruct (strip (clean_response part)); unfold console_print; only_tac.
Qed.

Lemma render_response_quiet response : only no_request (render_response response).
Proof.
  unfold render_response. induction (re_split fence_re response) as [|p ps IH].
  - apply only_ret.
  - cbn [for_each]. apply only_bind; [apply render_part_quiet|]. intros _. exact IH.
Qed.

Lemma calculate_cost_quiet cfg model p c : only no_request (calculate_cost cfg model p c).
Proof.
  unfold calculate_cost. cbv zeta.
  destruct (if str_eqb model (py "grok-3-beta") then _ else _) as [[ip op]|]; only_tac.
Qed.

Lemma make_non_streaming_call_appends json_loads cfg net prompt model :
  only (fun _ => true) (make_non_streaming_call json_loads cfg net prompt model).
Proof.
  unfold make_non_streaming_call, non_streaming_prologue.
  apply only_bind; [only_tac|]. intros _.
  apply only_try_except; [apply non_streaming_body_appends|].
  intros e h. destruct e; cbn [non_streaming_handler]; intros [= <-];
    unfold console_print; only_tac.
Qed.

Lemma sent_at_most_length t t' request u :
  sent_at_most t t' request → t' = t ++ u → (length (requests u) ≤ 1)%nat.
Proof.
  intros (v & -> & Hv) ->%app_inv_head. destruct Hv as [->| ->]; cbn; lia.
Qed.

Lemma make_non_streaming_call_sends json_loads cfg net prompt model :
  sends 1 (make_non_streaming_call json_loads cfg net prompt model).
Proof.
  intros t. destruct (make_non_streaming_call_appends json_loads cfg net prompt model t)
    as (u & Hu & _).
  exists u. split; [done|].
  destruct (make_non_streaming_call_requests json_loads cfg net prompt model t) as [H _].
  by apply (sent_at_most_length _ _ _ _ H).
Qed.

Lemma non_streaming_turn_sends json_loads cfg net prompt model :
  sends 1 (non_streaming_turn json_loads cfg net prompt model).
Proof.
  unfold non_streaming_turn.
  apply (sends_bind 0 1); [apply sends_quiet; only_tac|]. intros _.
  apply (sends_bind 1 0); [apply make_non_streaming_call_sends|].
  intros [[response reasoning] tokens]. apply sends_quiet.
  apply only_bind; [only_tac|]. intros _.
  destruct response; unfold console_print; only_tac.
  all: try apply render_response_quiet.
  all: try apply calculate_cost_quiet.
Qed.

(** The loop over the generator passes on what the generator did, up to
    the point where it stops. *)
Lemma for_chunks_sends cfg g :
  ∀ full_response, sends (length (requests g)) (for_chunks cfg g full_response).
Proof.
  induction g as [|e g IH]; intros acc; [apply sends_quiet, only_ret|].
  destruct e as [o|pl|pl|chunk]; cbn [for_chunks].
  - apply (sends_bind 0 _); [apply sends_quiet, only_emit; done|]. intros _. apply IH.
  - apply (sends_bind 1 _); [|intros _; apply IH].
    intros t. exists [HttpPost pl]. done.
  - apply (sends_bind 1 _); [|intros _; apply IH].
    intros t. exists [HttpStream pl]. done.
  - apply (sends_bind 0 _); [destruct chunk; apply sends_quiet; only_tac|]. intros acc'.
    apply (sends_bind 0 _); [apply sends_quiet; only_tac|].
    intros _. apply IH.
Qed.

Lemma streaming_turn_sends json_loads cfg net prompt model :
  sends 1 (streaming_turn json_loads cfg net prompt model).
Proof.
  unfold streaming_turn.
  apply (sends_bind 0 1); [apply sends_quiet; unfold console_print; only_tac|]. intros _.
  apply (sends_bind 0 1); [apply sends_quiet; only_tac|]. intros _.
  destruct (make_streaming_call_requests json_loads cfg net prompt model []) as [Hg _].
  destruct (make_streaming_call json_loads cfg net prompt model []) as [ended g].
  cbn [snd] in Hg.
  apply (sends_bind 1 0).
  - apply (sends_le (length (requests g))); [|apply for_chunks_sends].
    by apply (sent_at_most_length _ _ _ g Hg).
  - intros full. apply sends_quiet. unfold console_print. only_tac.
Qed.

Lemma turn_sends json_loads unicode_lower cfg streaming model inp net :
  sends 1 (turn json_loads unicode_lower cfg streaming model inp net).
Proof.
  unfold turn. apply sends_try_except.
  - unfold turn_body.
    apply (sends_bind 0 1); [apply sends_quiet; unfold console_print; only_tac|]. intros _.
    apply (sends_bind 0 1); [apply sends_quiet; destruct inp; only_tac|]. intros line.
    cbv zeta. destruct (str_eqb _ _).
    { apply (sends_le 0); [lia|]. apply sends_quiet. unfold console_print. only_tac. }
    destruct (str_eqb _ _).
    { apply (sends_le 0); [lia|]. apply sends_quiet. unfold console_print. only_tac. }
    destruct (strip line) as [|c r].
    { apply (sends_le 0); [lia|]. apply sends_quiet. only_tac. }
    apply (sends_bind 0 1); [apply sends_quiet; unfold console_print; only_tac|]. intros _.
    apply (sends_bind 0 1); [apply sends_quiet; only_tac|]. intros _.
    apply (sends_bind 1 0).
    + destruct streaming; [apply streaming_turn_sends|apply non_streaming_turn_sends].
    + intros _. apply sends_quiet, only_ret.
  - intros e h. destruct e; cbn [turn_handler]; intros [= <-];
      apply sends_quiet; unfold console_print; only_tac.
Qed.

(** X23. The loop only adds to what was printed, and it sends at most
    one request per turn. *)
Theorem one_request_per_turn
    (json_loads : str → exn + json) (unicode_lower : N → str) (cfg : Config)
    (streaming : bool) (model : str) (turns : list (input_event * Network)) (t : trace) :
  ∃ u, (interactive_loop json_loads unicode_lower cfg streaming model turns t).2 = t ++ u
       ∧ (length (requests u) ≤ length turns)%nat.
Proof.
  revert t. induction turns as [|[inp net] turns IH]; intros t.
  - exists []. by rewrite app_nil_r.
  - cbn [interactive_loop]. unfold bind.
    destruct (turn_sends json_loads unicode_lower cfg streaming model inp net t)
      as (u & Hu & Lu).
    destruct (turn _ _ _ _ _ _ _ _) as [[e|[|]] t1]; cbn [snd] in Hu; subst t1.
    + exists u. cbn [length]. split; [done|lia].
    + destruct (IH (t ++ u)) as (v & Hv & Lv). exists (u ++ v).
      rewrite Hv, app_assoc, requests_app, length_app. cbn [length]. split; [done|lia].
    + exists u. cbn [length]. split; [done|lia].
Qed.

Lemma turn_input_failure json_loads unicode_lower cfg streaming model e net t :
  is_Exception e = true →
  logs cfg [[Lit "Prompt loop error: "; PExn e]] →
  renders cfg (Text [Lit "[red]Error: "; PExn e; Lit "[/red]"]) →
  turn json_loads unicode_lower cfg streaming model (InputRaises e) net t
  = (inr AwaitingInput, t ++ input_failure_lines cfg e).
Proof.
  intros He Hl Hr. unfold turn, try_except, turn_body.
  unfold bind at 1. cbn [console_print emit]. unfold bind at 1. cbn [raise].
  unfold input_failure_lines, PROMPT.
  destruct e; try done; cbn [turn_handler]; unfold bind;
    rewrite debug_log_run by exact Hl;
    rewrite console_print_markup_run by exact Hr;
    unfold ret; rewrite <- !app_assoc; reflexivity.
Qed.

(** X24. An [Exception] raised by [input()] (such as [EOFError] when
    the input is closed) whose text Rich renders in the two lines that
    report it does not end the chat: each such turn prints the prompt and
    the error, and the loop still awaits input after any number of them. *)
Theorem input_failure_keeps_looping
    (json_loads : str → exn + json) (unicode_lower : N → str) (cfg : Config)
    (streaming : bool) (model : str) (e : exn)
    (turns : list (input_event * Network)) (t : trace) :
  is_Exception e = true →
  logs cfg [[Lit "Prompt loop error: "; PExn e]] →
  renders cfg (Text [Lit "[red]Error: "; PExn e; Lit "[/red]"]) →
  Forall (fun turn => turn.1 = InputRaises e) turns →
  interactive_loop json_loads unicode_lower cfg streaming model turns t
  = (inr AwaitingInput,
     t ++ concat (List.map (fun _ => input_failure_lines cfg e) turns)).
Proof.
  intros He Hl Hr Hall. revert t. induction Hall as [|[inp net] turns Hinp _ IH]; intros t.
  - cbn. by rewrite app_nil_r.
  - cbn [fst] in Hinp. subst inp. cbn [interactive_loop List.map concat].
    unfold bind. rewrite (turn_input_failure _ _ _ _ _ _ _ _ He Hl Hr), IH, app_assoc.
    done.
Qed.

Lemma input_failure_keeps_looping_witness :
  interactive_loop sample_loads (fun c => [c]) (default_config None) false
    (py "grok-3-beta") [(InputRaises EOFError, net_up); (InputRaises EOFError, net_up)] []
  = (inr AwaitingInput,
     [] ++ concat (List.map (fun _ => input_failure_lines (default_config None) EOFError)
                     [(InputRaises EOFError, net_up); (InputRaises EOFError, net_up)])).
Proof.
  apply (input_failure_keeps_looping sample_loads (fun c => [c]) (default_config None)
           false (py "grok-3-beta") EOFError).
  - reflexivity.
  - intros _. repeat constructor; vm_compute; reflexivity.
  - vm_compute. reflexivity.
  - repeat constructor.
Defined.

(** X25. When the check of the environment file fails, or the API key
    is missing or blank, [prompt_grok] ends at once: what it prints does
    not depend on the inputs that would follow, and no request is sent. *)
Theorem prompt_grok_refuses
    (json_loads : str → exn + json) (unicode_lower : N → str) (cfg : Config)
    (env_secure streaming : bool) (model : str) (t : trace) :
  env_secure = false
  ∨ match API_KEY cfg with Some key => blank key = true | None => True end →
  ∃ u, requests u = []
       ∧ ∀ turns, prompt_grok json_loads unicode_lower cfg env_secure streaming model turns t
                  = (inr Exited, t ++ u).
Proof.
  intros H. unfold prompt_grok. destruct env_secure; cbn [negb].
  - destruct H as [H|H]; [done|].
    destruct (API_KEY cfg) as [key|].
    + rewrite (strip_blank _ H). eexists. unfold bind, console_print, emit, ret.
      split; [|reflexivity]. reflexivity.
    + eexists. unfold bind, console_print, emit, ret.
      split; [|reflexivity]. reflexivity.
  - eexists. unfold bind, console_print, emit, ret.
    split; [|intros turns; rewrite <- app_assoc; reflexivity]. reflexivity.
Qed.

Lemma prompt_grok_refuses_witness :
  ∃ u, requests u = []
       ∧ ∀ turns, prompt_grok sample_loads (fun c => [c]) (default_config (Some (py "   ")))
                    true false (py "grok-3-beta") turns []
                  = (inr Exited, [] ++ u).
Proof.
  apply (prompt_grok_refuses sample_loads (fun c => [c])
           (default_config (Some (py "   "))) true false (py "grok-3-beta")).
  right. reflexivity.
Defined.

(** ** The streaming turn *)

(** The loop over a generator that yields texts only, which Rich renders. *)
Lemma for_chunks_run cfg g :
  ∀ frags full_response t,
    yields g = List.map JStr frags →
    Forall (fun s => renders cfg (Chunk (JStr s) "blue")) frags →
    for_chunks cfg g full_response t
    = (inr (full_response ++ concat frags), t ++ List.map shown g).
Proof.
  induction g as [|e g IH]; intros frags acc t Hy Hr.
  - destruct frags; [|done]. cbn. by rewrite !app_nil_r.
  - destruct e as [o|pl|pl|chunk]; cbn [for_chunks List.map shown].
    + unfold bind, emit. rewrite (IH frags) by done. by rewrite <- app_assoc.
    + unfold bind, emit. rewrite (IH frags) by done. by rewrite <- app_assoc.
    + unfold bind, emit. rewrite (IH frags) by done. by rewrite <- app_assoc.
    + destruct frags as [|s frags]; [done|]. cbn [yields flat_map List.map app] in Hy.
      injection Hy as -> Hy. inversion Hr as [|? ? Hs Hr']; subst.
      unfold bind, ret. rewrite console_print_markup_run by exact Hs.
      rewrite (IH frags) by done. cbn [concat]. by rewrite <- !app_assoc.
Qed.

(** X26. When the generator ends normally, all its fragments are texts
    and Rich renders each of them (and the debug line, when debug logging
    is on), the streaming turn prints its header, then what the generator
    printed with each fragment shown where it was yielded, then a blank
    line, then the Markdown of the cleaned concatenation of the fragments
    (the empty text after a failure that yielded nothing). *)
Theorem streaming_turn_renders
    (json_loads : str → exn + json) (cfg : Config) (net : Network)
    (prompt model : str) (g : trace) (frags : list str) (t : trace) :
  make_streaming_call json_loads cfg net prompt model [] = (inr tt, g) →
  yields g = List.map JStr frags →
  logs cfg [[Lit "Calling make_streaming_call"]] →
  Forall (fun s => renders cfg (Chunk (JStr s) "blue")) frags →
  streaming_turn json_loads cfg net prompt model t
  = (inr tt,
     t ++ [Print (Text [Lit "[blue bold]>>> Grok 3 (streaming):[/blue bold]"])]
       ++ debug_lines cfg [Lit "Calling make_streaming_call"]
       ++ List.map shown g
       ++ [Print Blank; Print (Markdown (JStr (clean_response (concat frags))) "blue")]).
Proof.
  intros Hg Hy Hl Hr. unfold streaming_turn.
  unfold bind at 1. cbn [console_print emit]. unfold bind at 1.
  rewrite debug_log_run by exact Hl.
  rewrite Hg. unfold bind at 1. rewrite (for_chunks_run cfg g frags) by done.
  unfold bind, lift, ret, console_print, emit. cbn [app].
  rewrite <- !app_assoc. reflexivity.
Qed.

Lemma streaming_turn_renders_witness :
  streaming_turn sample_loads (default_config None) net_up (py "hi") (py "grok-3-beta") []
  = (inr tt,
     [] ++ [Print (Text [Lit "[blue bold]>>> Grok 3 (streaming):[/blue bold]"])]
        ++ debug_lines (default_config None) [Lit "Calling make_streaming_call"]
        ++ List.map shown
             (make_streaming_call sample_loads (default_config None) net_up
                (py "hi") (py "grok-3-beta") []).2
        ++ [Print Blank;
            Print (Markdown (JStr (clean_response (concat [py "Hel"; py "lo"]))) "blue")]).
Proof.
  apply (streaming_turn_renders sample_loads (default_config None) net_up
           (py "hi") (py "grok-3-beta")
           (make_streaming_call sample_loads (default_config None) net_up
              (py "hi") (py "grok-3-beta") []).2 [py "Hel"; py "lo"] []).
  - vm_compute. reflexivity.
  - vm_compute. reflexivity.
  - intros _. repeat constructor; vm_compute; reflexivity.
  - repeat constructor; vm_compute; reflexivity.
Defined.

(** The loop over a generator stops at a fragment that is not a text. *)
Lemma for_chunks_stops cfg g1 :
  ∀ frags v g2 full_response t,
    yields g1 = List.map JStr frags → is_str v = false →
    Forall (fun s => renders cfg (Chunk (JStr s) "blue")) frags →
    for_chunks cfg (g1 ++ Yield v :: g2) full_response t
    = (inl (type_error "+="), t ++ List.map shown g1).
Proof.
  induction g1 as [|e g IH]; intros frags v g2 acc t Hy Hv Hr.
  - cbn [app for_chunks List.map]. rewrite app_nil_r. by destruct v.
  - destruct e as [o|pl|pl|chunk]; cbn [app for_chunks List.map shown].
    + unfold bind, emit. rewrite (IH frags) by done. by rewrite <- app_assoc.
    + unfold bind, emit. rewrite (IH frags) by done. by rewrite <- app_assoc.
    + unfold bind, emit. rewrite (IH frags) by done. by rewrite <- app_assoc.
    + destruct frags as [|s frags]; [done|]. cbn [yields flat_map List.map app] in Hy.
      injection Hy as -> Hy. inversion Hr as [|? ? Hs Hr']; subst.
      unfold bind, ret. rewrite console_print_markup_run by exact Hs.
      rewrite (IH frags) by done. by rewrite <- !app_assoc.
Qed.

(** X27. When the generator yields something that is not a text (a
    [null] content) after fragments that Rich renders, the streaming turn
    stops there with a [TypeError]: the fragments before it were shown, the
    rest of the stream is not read and no Markdown is rendered. *)
Theorem streaming_turn_non_str_fragment
    (json_loads : str → exn + json) (cfg : Config) (net : Network)
    (prompt model : str) (ended : exn + unit) (g1 g2 : trace) (v : json)
    (frags : list str) (t : trace) :
  make_streaming_call json_loads cfg net prompt model [] = (ended, g1 ++ Yield v :: g2) →
  yields g1 = List.map JStr frags →
  is_str v = false →
  logs cfg [[Lit "Calling make_streaming_call"]] →
  Forall (fun s => renders cfg (Chunk (JStr s) "blue")) frags →
  streaming_turn json_loads cfg net prompt model t
  = (inl (type_error "+="),
     t ++ [Print (Text [Lit "[blue bold]>>> Grok 3 (streaming):[/blue bold]"])]
       ++ debug_lines cfg [Lit "Calling make_streaming_call"]
       ++ List.map shown g1).
Proof.
  intros Hg Hy Hv Hl Hr. unfold streaming_turn.
  unfold bind at 1. cbn [console_print emit]. unfold bind at 1.
  rewrite debug_log_run by exact Hl.
  rewrite Hg. unfold bind at 1. rewrite (for_chunks_stops cfg g1 frags) by done.
  rewrite <- !app_assoc. reflexivity.
Qed.

Lemma streaming_turn_non_str_fragment_witness :
  let g := (make_streaming_call null_delta_loads (default_config None) net_up
              (py "hi") (py "grok-3-beta") []).2 in
  streaming_turn null_delta_loads (default_config None) net_up (py "hi") (py "grok-3-beta") []
  = (inl (type_error "+="),
     [] ++ [Print (Text [Lit "[blue bold]>>> Grok 3 (streaming):[/blue bold]"])]
        ++ debug_lines (default_config None) [Lit "Calling make_streaming_call"]
        ++ List.map shown (take 6 g)).
Proof.
  intros g.
  apply (streaming_turn_non_str_fragment null_delta_loads (default_config None) net_up
           (py "hi") (py "grok-3-beta")
           (make_streaming_call null_delta_loads (default_config None) net_up
              (py "hi") (py "grok-3-beta") []).1
           (take 6 g) (drop 7 g) JNull []).
  - vm_compute. reflexivity.
  - vm_compute. reflexivity.
  - reflexivity.
  - intros _. repeat constructor; vm_compute; reflexivity.
  - constructor.
Defined.

(** ** The turn without streaming *)

(** X28. When the body of the [try] of the call fails with what the
    call catches, and Rich renders what is printed on the way (debug
    logging is off or the debug lines go through, and the line of the
    failure does), the turn without streaming prints, after the line of
    the failure, "No response received from API." and ends normally:
    nothing is rendered and no cost is computed. *)
Theorem non_streaming_turn_no_response
    (json_loads : str → exn + json) (cfg : Config) (net : Network)
    (prompt model : str) (t t1 : trace) (e : exn) (cls : failure_class) :
  non_streaming_body json_loads cfg net (payload cfg prompt model false)
    (non_streaming_prologue cfg prompt model
       (t ++ debug_lines cfg [Lit "Calling make_non_streaming_call"])).2 = (inl e, t1) →
  failure_class_of e = Some cls →
  logs cfg ([Lit "Calling make_non_streaming_call"]
            :: [Lit "Response type="; PType JNull]
            :: prologue_messages cfg prompt model) →
  reports cfg e →
  non_streaming_turn json_loads cfg net prompt model t
  = (inr tt,
     t1 ++ flat_map (debug_lines cfg) (handler_messages e)
        ++ [Print (Text (failure_message e))]
        ++ debug_lines cfg [Lit "Response type="; PType JNull]
        ++ [Print (Text [Lit "[red]No response received from API.[/red]"])]).
Proof.
  intros Hbody Hcls Hl Hrep. unfold non_streaming_turn.
  unfold bind at 1. logged Hl.
  assert (Hp : logs cfg (prologue_messages cfg prompt model)).
  { intros Hd. specialize (Hl Hd). inversion Hl as [|? ? _ Hl']; subst.
    by inversion Hl'. }
  destruct (make_non_streaming_call_caught _ _ _ _ _ _ _ _ _ Hp Hbody Hcls Hrep)
    as (Hcall & _).
  unfold bind at 1. rewrite Hcall. unfold NONE3.
  unfold bind. logged Hl. unfold console_print, emit.
  rewrite <- !app_assoc. reflexivity.
Qed.

Lemma non_streaming_turn_no_response_witness :
  non_streaming_turn sample_loads (default_config None) net_interrupted
    (py "hi") (py "grok-3-beta") []
  = (inr tt,
     (non_streaming_body sample_loads (default_config None) net_interrupted
        (payload (default_config None) (py "hi") (py "grok-3-beta") false)
        (non_streaming_prologue (default_config None) (py "hi") (py "grok-3-beta")
           ([] ++ debug_lines (default_config None)
                    [Lit "Calling make_non_streaming_call"])).2).2
     ++ flat_map (debug_lines (default_config None)) (handler_messages KeyboardInterrupt)
     ++ [Print (Text (failure_message KeyboardInterrupt))]
     ++ debug_lines (default_config None) [Lit "Response type="; PType JNull]
     ++ [Print (Text [Lit "[red]No response received from API.[/red]"])]).
Proof.
  apply (non_streaming_turn_no_response sample_loads (default_config None) net_interrupted
           (py "hi") (py "grok-3-beta") [] _ KeyboardInterrupt UserInterrupt).
  - vm_compute. reflexivity.
  - reflexivity.
  - intros _. repeat constructor; vm_compute; reflexivity.
  - split; [intros _; constructor|intros H; by destruct H].
Defined.

(** ** Where Rich raises *)

(** A line of input that holds a closing tag: the echo raises, the clause
    of the loop that catches the exception raises in turn on its text, and
    [MarkupError] leaves the loop; no request was sent. *)
Lemma input_with_closing_tag :
  ∃ message u,
    interactive_loop sample_loads (fun c => [c]) (without_debug (default_config None))
      false (py "grok-3-beta") [(InputLine (py "[/x] hi"), net_up)] []
    = (inl (MarkupError message), u)
    ∧ requests u = [].
Proof. eexists _, _. split; vm_compute; reflexivity. Qed.

(** A fragment that holds a closing tag: the loop over the generator
    raises where it prints it, and the turn renders nothing. *)
Lemma fragment_with_closing_tag :
  ∃ message u,
    streaming_turn tag_loads (without_debug (default_config None)) net_docs
      (py "hi") (py "grok-3-beta") []
    = (inl (MarkupError message), u)
    ∧ rendered_segments u = [].
Proof. eexists _, _. split; vm_compute; reflexivity. Qed.

(* ================================================================== *)
(** * The check of the environment file *)
(* ================================================================== *)

Example oct_samples :
  oct 0 = py "0o0" ∧ oct 8 = py "0o10" ∧ oct 384 = py "0o600" ∧ oct 420 = py "0o644"
  ∧ slice_minus_3 (oct 36) = py "o44".
Proof. vm_compute. done. Qed.

Lemma permissions_600 n :
  n < 512 → str_eqb (slice_minus_3 (oct n)) (py "600") = (n =? 384).
Proof.
  intros Hn.
  assert (Hall : forallb (fun k => Bool.eqb (str_eqb (slice_minus_3 (oct k)) (py "600"))
                                            (k =? 384))
                         (List.map N.of_nat (seq 0 512)) = true)
    by (vm_compute; reflexivity).
  rewrite forallb_forall in Hall. apply Bool.eqb_prop, Hall.
  apply in_map_iff. exists (N.to_nat n). split; [lia|]. apply in_seq. lia.
Qed.

Lemma land_511 n : N.land n 511 < 512.
Proof.
  change 511 with (N.ones 9). rewrite N.land_ones. apply N.mod_lt. done.
Qed.

(** X29. For a file that exists, the warning about permissions is
    printed exactly when the nine permission bits of its mode are not
    [rw-------] (octal 600). The verdict does not depend on the mode: a
    readable file with a key line passes whatever its permissions. *)
Theorem check_env_security_warning (env_path : str) (f : EnvFile) (t : trace) :
  ∃ w, check_env_security env_path (Some f) t
       = (inr (readable f && key_line_in (file_lines f)), t ++ w)
     ∧ (w = [] ↔ N.land (st_mode f) 511 = 384).
Proof.
  unfold check_env_security. cbv zeta.
  rewrite (permissions_600 _ (land_511 (st_mode f))).
  destruct (N.land (st_mode f) 511 =? 384) eqn:E; cbn [negb].
  - apply N.eqb_eq in E. exists []. split; [|done].
    unfold bind, ret. rewrite app_nil_r. by destruct (readable f).
  - apply N.eqb_neq in E. eexists [_]. split.
    + unfold bind, console_print, emit, ret. destruct (readable f); reflexivity.
    + split; [done|]. intros H. done.
Qed.

Lemma startswith_hash_strip line :
  startswith (py "#") (strip line) = true ↔ ∃ x, lstrip line = 35 :: x.
Proof.
  unfold strip. destruct (lstrip line) as [|c r] eqn:E.
  - split; [done|]. intros [x [=]].
  - rewrite rstrip_cons.
    assert (Hc : is_space c = false).
    { exact (lstrip_head line c r E). }
    rewrite blank_cons, Hc. cbn [andb]. change (py "#") with [35].
    cbn [startswith]. rewrite andb_true_r, N.eqb_eq. split.
    + intros <-. by exists r.
    + intros [x [= -> _]]. done.
Qed.

Lemma key_line_in_iff lines : key_line_in lines = true ↔ Exists names_key lines.
Proof.
  induction lines as [|line rest IH]; cbn [key_line_in].
  - split; [done|]. intros H. inversion H.
  - assert (Hline : contains KEY_NAME line && negb (startswith (py "#") (strip line)) = true
                    ↔ names_key line).
    { rewrite andb_true_iff, negb_true_iff, contains_iff. unfold names_key.
      split; intros [Hc Hs]; (split; [exact Hc|]).
      - intros x Hx.
        assert (H : startswith (py "#") (strip line) = true)
          by (apply startswith_hash_strip; eauto).
        congruence.
      - destruct (startswith (py "#") (strip line)) eqn:E; [|done].
        apply startswith_hash_strip in E as [x Hx]. by destruct (Hs x). }
    destruct (contains KEY_NAME line && negb (startswith (py "#") (strip line))) eqn:E.
    + split; [|done]. intros _. left. by apply Hline.
    + rewrite IH. split; [by right|].
      intros H. inversion H as [? ? Hn|? ? Hr]; subst; [|done].
      apply Hline in Hn. done.
Qed.

(** X30. The check passes exactly when the file exists, is readable and
    has a line in which the name XAI_API_KEY occurs (anywhere, as a part of
    a longer name too) and which does not begin, after leading whitespace,
    with [#]. *)
Theorem check_env_security_verdict (env_path : str) (file : option EnvFile) (t : trace) :
  (check_env_security env_path file t).1 = inr true
  ↔ ∃ f, file = Some f ∧ readable f = true ∧ Exists names_key (file_lines f).
Proof.
  destruct file as [f|]; cbn [check_env_security].
  - cbv zeta. unfold bind.
    match goal with |- context [(if ?b then _ else _) t] => destruct b end;
      cbn [console_print emit ret].
    all: destruct (readable f) eqn:Hr; cbn [ret fst].
    all: split;
      [ intros [= H]; try done; exists f; rewrite <- key_line_in_iff; done
      | intros (f' & [= <-] & Hr' & Hk); try congruence;
        apply key_line_in_iff in Hk; by rewrite Hk ].
  - cbn. split; [done|]. intros (f & [=] & _).
Qed.
